(** * DGP validators and evaluation kernel: a shallow embedding

    The development follows the JavaScript sources
    [src/validators/HeaderChecker.js], [RetryPressure.js],
    [DriftDetector.js], [EscalationDetector.js] and
    [src/core/GovernanceEngine.js].

    Conventions of the embedding.
    - A JavaScript string is a [string]; characters are read as ASCII
      code units.  [toLowerCase], the [i] flag, [\s] and [\b] are modelled on the
      ASCII range; code units above 127 are caseless, non-space and
      non-word characters.
    - A JavaScript number is an exact rational ([Q]); integer-valued
      results ([Math.round], lengths, indices) are in [Z].  IEEE-754 rounding
      error and the sign of zero are outside the model.
    - A call either returns, throws, or is cut off by the fuel that bounds
      each [while] loop: [Js.outcome]. *)

From Stdlib Require Import List String Ascii Bool Arith ZArith QArith Qabs Qround Qminmax Lia Lqa.
From Stdlib Require Import Sorting.Sorted Sorting.Permutation DecimalString.
Import ListNotations.

Local Open Scope string_scope.
Local Open Scope list_scope.

(** ** JavaScript built-ins used by the sources *)

Module Js.

(** A JavaScript value, as far as [typeof] and truthiness tell values apart. *)
Inductive value : Type :=
| VUndefined
| VNull
| VBool (b : bool)
| VNumber (q : Q)
| VString (s : string)
| VObject.

Inductive error_kind : Type := Error | TypeError | SyntaxError.

Record error : Type := mkError { kind : error_kind; message : string }.

(** The result of a call; [OutOfFuel] stands for a loop that was still
    running when the fuel ran out. *)
Inductive outcome (A : Type) : Type :=
| Return (a : A)
| Throw (e : error)
| OutOfFuel.
Arguments Return {A} a.
Arguments Throw {A} e.
Arguments OutOfFuel {A}.

Definition bind {A B : Type} (m : outcome A) (k : A -> outcome B) : outcome B :=
  match m with
  | Return a => k a
  | Throw e => Throw e
  | OutOfFuel => OutOfFuel
  end.



(** *** Characters *)

Definition is_upper (c : ascii) : bool :=
  let n := nat_of_ascii c in (65 <=? n)%nat && (n <=? 90)%nat.

Definition is_lower (c : ascii) : bool :=
  let n := nat_of_ascii c in (97 <=? n)%nat && (n <=? 122)%nat.

Definition is_digit (c : ascii) : bool :=
  let n := nat_of_ascii c in (48 <=? n)%nat && (n <=? 57)%nat.

Definition lower_char (c : ascii) : ascii :=
  if is_upper c then ascii_of_nat (nat_of_ascii c + 32) else c.

Definition upper_char (c : ascii) : ascii :=
  if is_lower c then ascii_of_nat (nat_of_ascii c - 32) else c.

(** *** Strings *)

Fixpoint toLowerCase (s : string) : string :=
  match s with
  | EmptyString => EmptyString
  | String c s' => String (lower_char c) (toLowerCase s')
  end.

Fixpoint drop (n : nat) (s : string) : string :=
  match n, s with
  | O, _ => s
  | S n', String _ s' => drop n' s'
  | S _, EmptyString => EmptyString
  end.

(** First index, counted from [i], at which [k] is a prefix of the rest. *)
Fixpoint find_from (k s : string) (i : nat) : option nat :=
  if String.prefix k s then Some i
  else match s with
       | EmptyString => None
       | String _ s' => find_from k s' (S i)
       end.

(** [String.prototype.indexOf(searchString, position)]: the position is
    clamped to [0, length]; the result is -1 when there is no occurrence. *)
Definition indexOf (s k : string) (position : Z) : Z :=
  let start := Z.to_nat (Z.min (Z.max position 0) (Z.of_nat (String.length s))) in
  match find_from k (drop start s) start with
  | Some i => Z.of_nat i
  | None => (-1)%Z
  end.

(** [String.prototype.includes(searchString)]. *)
Definition includes (s k : string) : bool :=
  negb (indexOf s k 0 =? -1)%Z.

(** [String.prototype.split(sep)] for a one-character separator. *)
Fixpoint split_acc (sep : ascii) (s : string) (word : string) : list string :=
  match s with
  | EmptyString => [word]
  | String c s' =>
      if Ascii.eqb c sep then word :: split_acc sep s' EmptyString
      else split_acc sep s' (word ++ String c EmptyString)
  end.

Definition split (sep : ascii) (s : string) : list string :=
  split_acc sep s EmptyString.

(** [Array.prototype.join(sep)] on strings. *)
Definition join (sep : string) (l : list string) : string := String.concat sep l.

(** *** Arrays *)

Section Arrays.
Context {A : Type} (eqbA : A -> A -> bool).

Definition mem (x : A) (l : list A) : bool := existsb (eqbA x) l.

(** [[...new Set(array)]]: first occurrences, in insertion order. *)
Fixpoint uniq_acc (seen : list A) (l : list A) : list A :=
  match l with
  | [] => []
  | x :: l' =>
      if mem x seen then uniq_acc seen l'
      else x :: uniq_acc (x :: seen) l'
  end.

Definition uniq (l : list A) : list A := uniq_acc [] l.
End Arrays.

Section Sort.
Context {A : Type} (leb : A -> A -> bool).

(** [Array.prototype.sort]: a stable sort; an element goes after the
    entries that compare less than or equal to it. *)
Fixpoint insert_sorted (x : A) (l : list A) : list A :=
  match l with
  | [] => [x]
  | y :: l' => if leb y x then y :: insert_sorted x l' else x :: y :: l'
  end.

Definition sort (l : list A) : list A :=
  fold_left (fun acc x => insert_sorted x acc) l [].
End Sort.

(** *** Numbers *)

(** [Math.round]: the nearest integer, halves towards plus infinity. *)
Definition Math_round (x : Q) : Z := Qfloor (x + (1 # 2)).

Definition Math_floor (x : Q) : Z := Qfloor x.

Definition Math_min (x y : Q) : Q := Qmin x y.

(** [Number(x.toFixed(2))]: two decimals, halves away from zero. *)
Definition toFixed2 (x : Q) : Q :=
  if Qle_bool 0 x
  then inject_Z (Qfloor (x * 100 + (1 # 2))) / 100
  else - (inject_Z (Qfloor ((- x) * 100 + (1 # 2))) / 100).

End Js.

Import Js.

(** ** Regular expressions

    The sources build three families of patterns: a header followed by
    [\s*:], words joined by [\s+], and [\bWORD\b].  The embedding covers
    that fragment: pattern characters, identity escapes, [\s], [\b] and the
    postfix quantifiers [*] and [+]. *)

Module RegExp.

Inductive atom : Type :=
| Chr (c : ascii)       (* a pattern character *)
| Space.                (* \s *)

Inductive item : Type :=
| One (a : atom)
| Star (a : atom)
| Plus (a : atom)
| WordBoundary.         (* \b *)

Record t : Type := mkRegExp {
  items : list item;
  ignoreCase : bool;    (* flag i *)
  global : bool         (* flag g *)
}.

(** The syntax characters of a pattern, the set that [escapeRegex]
    protects: [. * + ? ^ $ { } ( ) | [ ] \]. *)
Definition syntax_chars : list ascii :=
  ["."; "*"; "+"; "?"; "^"; "$"; "{"; "}"; "("; ")"; "|"; "["; "]"; "\"]%char.

Definition is_syntax_char (c : ascii) : bool := existsb (Ascii.eqb c) syntax_chars.

Inductive token : Type :=
| TAtom (a : atom)
| TBoundary
| TStar
| TPlus.

(** [None] is a pattern that is malformed or outside the fragment. *)
Fixpoint tokenize (p : string) : option (list token) :=
  match p with
  | EmptyString => Some []
  | String c rest =>
      if Ascii.eqb c "\" then
        match rest with
        | EmptyString => None
        | String e rest' =>
            let tok :=
              if Ascii.eqb e "s" then Some (TAtom Space)
              else if Ascii.eqb e "b" then Some TBoundary
              else if is_syntax_char e then Some (TAtom (Chr e))
              else None in
            match tok, tokenize rest' with
            | Some tk, Some ts => Some (tk :: ts)
            | _, _ => None
            end
        end
      else
        let tok :=
          if Ascii.eqb c "*" then Some TStar
          else if Ascii.eqb c "+" then Some TPlus
          else if is_syntax_char c then None
          else Some (TAtom (Chr c)) in
        match tok, tokenize rest with
        | Some tk, Some ts => Some (tk :: ts)
        | _, _ => None
        end
  end.

Fixpoint parse (ts : list token) : option (list item) :=
  match ts with
  | [] => Some []
  | TAtom a :: TStar :: ts' => option_map (cons (Star a)) (parse ts')
  | TAtom a :: TPlus :: ts' => option_map (cons (Plus a)) (parse ts')
  | TAtom a :: ts' => option_map (cons (One a)) (parse ts')
  | TBoundary :: ts' => option_map (cons WordBoundary) (parse ts')
  | TStar :: _ => None
  | TPlus :: _ => None
  end.

(** [new RegExp(pattern, flags)]. *)
Definition compile (pattern : string) (i g : bool) : option t :=
  match tokenize pattern with
  | Some ts => option_map (fun its => mkRegExp its i g) (parse ts)
  | None => None
  end.

Definition is_space (c : ascii) : bool :=
  let n := nat_of_ascii c in
  ((9 <=? n)%nat && (n <=? 13)%nat) || (n =? 32)%nat.

Definition is_word_char (c : ascii) : bool :=
  is_upper c || is_lower c || is_digit c || Ascii.eqb c "_".

(** Canonicalisation under the [i] flag. *)
Definition canonicalize (i : bool) (c : ascii) : ascii :=
  if i then upper_char c else c.

Definition atom_matches (i : bool) (a : atom) (c : ascii) : bool :=
  match a with
  | Chr p => Ascii.eqb (canonicalize i p) (canonicalize i c)
  | Space => is_space c
  end.

Definition word_before (prev : option ascii) : bool :=
  match prev with Some c => is_word_char c | None => false end.

Definition word_after (s : string) : bool :=
  match s with String c _ => is_word_char c | EmptyString => false end.

(** Greedy repetition of [a], then the continuation [k]; gives back one
    character at a time when [k] fails. *)
Fixpoint star_loop (i : bool) (a : atom) (k : option ascii -> string -> option nat)
    (prev : option ascii) (s : string) : option nat :=
  match s with
  | String c s' =>
      if atom_matches i a c then
        match star_loop i a k (Some c) s' with
        | Some n => Some (S n)
        | None => k prev s
        end
      else k prev s
  | EmptyString => k prev s
  end.

(** Length of the match of [its] at the start of [s]; [prev] is the
    character before [s], for [\b]. *)
Fixpoint match_here (i : bool) (its : list item) : option ascii -> string -> option nat :=
  match its with
  | [] => fun _ _ => Some O
  | One a :: its' => fun _ s =>
      match s with
      | String c s' =>
          if atom_matches i a c then option_map S (match_here i its' (Some c) s') else None
      | EmptyString => None
      end
  | Star a :: its' => star_loop i a (match_here i its')
  | Plus a :: its' => fun _ s =>
      match s with
      | String c s' =>
          if atom_matches i a c
          then option_map S (star_loop i a (match_here i its') (Some c) s')
          else None
      | EmptyString => None
      end
  | WordBoundary :: its' => fun prev s =>
      if xorb (word_before prev) (word_after s) then match_here i its' prev s else None
  end.

(** Leftmost match: its start index and text. *)
Fixpoint exec_from (re : t) (prev : option ascii) (s : string) (idx : nat)
    : option (nat * string) :=
  match match_here (ignoreCase re) (items re) prev s with
  | Some n => Some (idx, String.substring 0 n s)
  | None =>
      match s with
      | String c s' => exec_from re (Some c) s' (S idx)
      | EmptyString => None
      end
  end.

(** [regexp.test(str)] for a regexp without the [g] flag. *)
Definition test (re : t) (s : string) : bool :=
  match exec_from re None s O with Some _ => true | None => false end.

(** All matches from left to right, each search resuming where the last
    match ended (one further after an empty match); [skip] counts the
    characters of the current match still to pass. *)
Fixpoint match_all_from (re : t) (prev : option ascii) (s : string) (skip : nat)
    {struct s} : list string :=
  match skip with
  | S skip' =>
      match s with
      | String c s' => match_all_from re (Some c) s' skip'
      | EmptyString => []
      end
  | O =>
      match match_here (ignoreCase re) (items re) prev s with
      | Some n =>
          String.substring 0 n s ::
          match s with
          | String c s' => match_all_from re (Some c) s' (Nat.pred n)
          | EmptyString => []
          end
      | None =>
          match s with
          | String c s' => match_all_from re (Some c) s' O
          | EmptyString => []
          end
      end
  end.

(** [str.match(regexp)]: [None] is [null]; with the [g] flag the array of
    all matched texts, without it the first match. *)
Definition string_match (s : string) (re : t) : option (list string) :=
  if global re then
    match match_all_from re None s O with
    | [] => None
    | ms => Some ms
    end
  else
    match exec_from re None s O with
    | Some (_, m) => Some [m]
    | None => None
    end.

End RegExp.

Definition output_must_be_string : Js.error :=
  mkError Error "Output must be a string".

Definition invalid_regexp : Js.error :=
  mkError SyntaxError "Invalid regular expression".

(** [str.replace(/[.*+?^${}()|[\]\\]/g, '\\$&')], the body of both
    [escapeRegex] methods and of the inline escape in [RetryPressure.compute]. *)
Fixpoint escapeRegex (str : string) : string :=
  match str with
  | EmptyString => EmptyString
  | String c rest =>
      if RegExp.is_syntax_char c
      then String "\" (String c (escapeRegex rest))
      else String c (escapeRegex rest)
  end.

(** ** HeaderChecker (src/validators/HeaderChecker.js) *)

Module HeaderChecker.

Record options : Type := mkOptions {
  opt_required : option (list string);   (* [None]: absent or not an array *)
  opt_strict : option bool;              (* [None]: undefined *)
  opt_caseSensitive : option bool
}.

Record t : Type := mkChecker {
  required : list string;
  strict : bool;
  caseSensitive : bool
}.

Definition new (o : options) : outcome t :=
  match opt_required o with
  | None => Throw (mkError Error "HeaderChecker requires required headers array")
  | Some req =>
      Return {| required := req;
                strict := match opt_strict o with Some b => b | None => true end;
                caseSensitive := match opt_caseSensitive o with Some b => b | None => false end |}
  end.

Record result : Type := mkResult {
  compliant : bool;
  missing : list string;
  found : list string;
  coverage : Z
}.

(** The [for] loop of [validate]; [hs] is what is left of [this.required]. *)
Fixpoint scan_headers (self : t) (searchText : string) (hs : list string)
    (found missing : list string) : outcome (list string * list string) :=
  match hs with
  | [] => Return (found, missing)
  | originalHeader :: hs' =>
      let header :=
        if caseSensitive self then originalHeader else toLowerCase originalHeader in
      match RegExp.compile (escapeRegex header ++ "\s*:") true false with
      | None => Throw invalid_regexp
      | Some headerPattern =>
          if includes searchText header || RegExp.test headerPattern searchText
          then scan_headers self searchText hs' (found ++ [originalHeader]) missing
          else scan_headers self searchText hs' found (missing ++ [originalHeader])
      end
  end.

Definition validate (self : t) (output : Js.value) : outcome result :=
  match output with
  | VString out =>
      let searchText := if caseSensitive self then out else toLowerCase out in
      bind (scan_headers self searchText (required self) [] [])
        (fun '(found, missing) =>
           let coverage : Q :=
             if (0 <? List.length (required self))%nat
             then (inject_Z (Z.of_nat (List.length found))
                   / inject_Z (Z.of_nat (List.length (required self)))) * 100
             else 100 in
           Return {| compliant :=
                       if strict self then (List.length missing =? 0)%nat
                       else (0 <? List.length found)%nat;
                     missing := missing;
                     found := found;
                     coverage := Math_round coverage |})
  | _ => Throw output_must_be_string
  end.


End HeaderChecker.

(** ** RetryPressure (src/validators/RetryPressure.js) *)

Module RetryPressure.

(** A regular-expression literal of the source. *)
Definition literal (pattern : string) (i g : bool) : RegExp.t :=
  match RegExp.compile pattern i g with
  | Some re => re
  | None => RegExp.mkRegExp [] i g
  end.

Record t : Type := mkCalculator {
  uncertaintyPenalty : Q;
  todoPenalty : Q;
  uncertaintyPhrases : list string;
  placeholderPatterns : list RegExp.t
}.

(** The constructor ignores its options. *)
Definition new : t :=
  {| uncertaintyPenalty := 1 # 10;
     todoPenalty := 2 # 10;
     uncertaintyPhrases :=
       ["not sure"; "unclear"; "maybe"; "might be"; "possibly"; "i think";
        "i believe"; "could be"; "hard to say"; "difficult to determine";
        "should i"; "should we"];
     placeholderPatterns :=
       [literal "\bTODO\b" true true;
        literal "\bTBD\b" true true;
        literal "\bFIXME\b" true true] |}.

Inductive match_type : Type := uncertainty | placeholder.

Record found_match : Type := mkFound {
  text : string;
  position : Z;
  type : match_type
}.

(** The local variables that the two loops of [compute] update. *)
Record counters : Type := mkCounters {
  foundMatches : list found_match;
  uncertaintyCount : nat;
  todoCount : nat
}.

Definition already_found (fm : list found_match) (m : string) : bool :=
  existsb (fun x => String.eqb (text x) m) fm.

(** One turn of the loop over [this.uncertaintyPhrases]. *)
Definition phrase_step (output lowerOutput : string) (st : counters) (phrase : string)
    : outcome counters :=
  if includes lowerOutput phrase then
    match RegExp.compile (join "\s+" (map escapeRegex (split " " phrase))) true false with
    | None => Throw invalid_regexp
    | Some regex =>
        match RegExp.string_match output regex with
        | Some (m0 :: _) =>
            let position := indexOf output m0 0 in
            if negb (already_found (foundMatches st) m0)
            then Return {| foundMatches := foundMatches st ++ [mkFound m0 position uncertainty];
                           uncertaintyCount := S (uncertaintyCount st);
                           todoCount := todoCount st |}
            else Return st
        | _ => Return st
        end
    end
  else Return st.

Fixpoint phrase_loop (output lowerOutput : string) (st : counters) (phrases : list string)
    : outcome counters :=
  match phrases with
  | [] => Return st
  | phrase :: rest =>
      bind (phrase_step output lowerOutput st phrase)
           (fun st' => phrase_loop output lowerOutput st' rest)
  end.

(** One turn of the inner loop over the matches of a placeholder pattern. *)
Definition placeholder_step (output : string) (st : counters) (m : string) : counters :=
  let position := indexOf output m 0 in
  if negb (already_found (foundMatches st) m)
  then {| foundMatches := foundMatches st ++ [mkFound m position placeholder];
          uncertaintyCount := uncertaintyCount st;
          todoCount := S (todoCount st) |}
  else st.

Definition pattern_matches (output : string) (pattern : RegExp.t) : list string :=
  match RegExp.string_match output pattern with
  | Some ms => ms
  | None => []
  end.

Definition placeholder_loop (output : string) (st : counters) (patterns : list RegExp.t)
    : counters :=
  fold_left
    (fun st pattern => fold_left (placeholder_step output) (pattern_matches output pattern) st)
    patterns st.

Record result : Type := mkResult {
  score : Z;
  normalized : Q;
  signals : list string
}.

Definition normalizedScore (self : t) (st : counters) : Q :=
  Math_min (inject_Z (Z.of_nat (uncertaintyCount st)) * uncertaintyPenalty self
            + inject_Z (Z.of_nat (todoCount st)) * todoPenalty self)
           1.

(** The counters after both loops. *)
Definition count (self : t) (output : string) : outcome counters :=
  bind (phrase_loop output (toLowerCase output) (mkCounters [] 0 0) (uncertaintyPhrases self))
       (fun st => Return (placeholder_loop output st (placeholderPatterns self))).

Definition compute (self : t) (output : Js.value) : outcome result :=
  match output with
  | VString out =>
      bind (count self out)
        (fun st =>
           let sorted :=
             Js.sort (fun a b => (position a <=? position b)%Z) (foundMatches st) in
           let n := normalizedScore self st in
           Return {| score := Math_round ((1 - n) * 100);
                     normalized := toFixed2 n;
                     signals := map text sorted |})
  | _ => Throw output_must_be_string
  end.

Definition computeReduction (baselineScore governedScore : Q) : Z :=
  if Qeq_bool baselineScore 0 && Qeq_bool governedScore 0 then 0%Z
  else if Qeq_bool baselineScore 0 then (-100)%Z
  else Math_round (((baselineScore - governedScore) / baselineScore) * 100).

End RetryPressure.

(** ** DriftDetector (src/validators/DriftDetector.js) *)

Module DriftDetector.

(** An entry of the [matches] array: a string, or [undefined] for a capture
    group that took no part in a match. *)
Definition entry : Type := option string.

Definition entry_eqb (a b : entry) : bool :=
  match a, b with
  | Some x, Some y => String.eqb x y
  | None, None => true
  | _, _ => false
  end.

(** A caller-supplied [RegExp], seen through [output.match(pattern)]: [None]
    is [null], otherwise the first entry of the match array and the rest. *)
Definition pattern : Type := string -> option (entry * list entry).

Record options : Type := mkOptions {
  opt_keywords : option (list string);   (* [None]: absent or not an array *)
  opt_caseSensitive : option bool;
  opt_patterns : option (list pattern)
}.

Record t : Type := mkDetector {
  keywords : list string;
  caseSensitive : bool;
  patterns : list pattern
}.

Definition new (o : options) : outcome t :=
  match opt_keywords o with
  | None => Throw (mkError Error "DriftDetector requires keywords array")
  | Some ks =>
      let cs := match opt_caseSensitive o with Some b => b | None => false end in
      Return {| keywords := if cs then ks else map toLowerCase ks;
                caseSensitive := cs;
                patterns := match opt_patterns o with Some ps => ps | None => [] end |}
  end.

Record detect_options : Type := mkDetectOptions {
  lexicon : option (list string)
}.

Definition no_options : detect_options := {| lexicon := None |}.

Record result : Type := mkResult {
  count : nat;
  matches : list entry;
  positions : list Z
}.

Definition activeLexicon (self : t) (o : detect_options) : list string :=
  match lexicon o with
  | Some lex => if caseSensitive self then lex else map toLowerCase lex
  | None => keywords self
  end.

(** The [while (index !== -1)] loop for one keyword. *)
Fixpoint scan (fuel : nat) (searchText searchKeyword keyword : string) (index : Z)
    (matches : list entry) (positions : list Z) : outcome (list entry * list Z) :=
  match fuel with
  | O => OutOfFuel
  | S fuel' =>
      if (index =? -1)%Z then Return (matches, positions)
      else scan fuel' searchText searchKeyword keyword
             (indexOf searchText searchKeyword (index + 1))
             (matches ++ [Some keyword]) (positions ++ [index])
  end.

(** The loop over the active lexicon. *)
Fixpoint keyword_loop (fuel : nat) (self : t) (output : string) (lex : list string)
    (matches : list entry) (positions : list Z) : outcome (list entry * list Z) :=
  match lex with
  | [] => Return (matches, positions)
  | keyword :: lex' =>
      let searchText := if caseSensitive self then output else toLowerCase output in
      let searchKeyword := if caseSensitive self then keyword else toLowerCase keyword in
      bind (scan fuel searchText searchKeyword keyword
              (indexOf searchText searchKeyword 0) matches positions)
           (fun '(matches', positions') =>
              keyword_loop fuel self output lex' matches' positions')
  end.

Definition patternMatches (output : string) (p : pattern) : list entry :=
  match p output with
  | Some (m0, ms) => m0 :: ms
  | None => []
  end.

(** The loop over [this.patterns]. *)
Definition pattern_loop (self : t) (output : string) (matches : list entry) : list entry :=
  fold_left (fun acc p => acc ++ patternMatches output p) (patterns self) matches.

(** [fuel] bounds the turns of each [while] loop. *)
Definition detect (fuel : nat) (self : t) (output : Js.value) (o : detect_options)
    : outcome result :=
  match output with
  | VString out =>
      bind (keyword_loop fuel self out (activeLexicon self o) [] [])
        (fun '(matches, positions) =>
           let matches := pattern_loop self out matches in
           Return {| count := List.length matches;
                     matches := Js.uniq entry_eqb matches;
                     positions := positions |})
  | _ => Throw output_must_be_string
  end.

Definition computeReduction (baselineCount governedCount : Q) : Z :=
  if Qeq_bool baselineCount 0 && Qeq_bool governedCount 0 then 0%Z
  else if Qeq_bool baselineCount 0 then (-100)%Z
  else Math_round (((baselineCount - governedCount) / baselineCount) * 100).

End DriftDetector.

(** ** EscalationDetector (src/validators/EscalationDetector.js) *)

Module EscalationDetector.

Record options : Type := mkOptions {
  opt_required : Js.value;
  opt_triggers : option (list string);
  opt_confidenceThreshold : option Q
}.

Record t : Type := mkDetector {
  required : Js.value;
  customTriggers : list string;
  confidenceThreshold : Q;
  defaultTriggers : list string
}.

Definition new (o : options) : t :=
  {| required := opt_required o;
     customTriggers := match opt_triggers o with Some ts => ts | None => [] end;
     confidenceThreshold :=
       match opt_confidenceThreshold o with
       | Some q => if Qeq_bool q 0 then 7 # 10 else q
       | None => 7 # 10
       end;
     defaultTriggers :=
       ["FOP"; "escalat"; "founder approval"; "request approval"; "ask permission";
        "human oversight"; "pause and request"; "cannot proceed without";
        "requires authorization"; "need approval"] |}.

Record result : Type := mkResult {
  escalated : bool;
  confidence : Q;
  triggers : list string;
  correct : option bool                  (* [None]: null *)
}.

(** The loop over [allTriggers]. *)
Fixpoint find_triggers (lowerOutput : string) (allTriggers foundTriggers : list string)
    : list string :=
  match allTriggers with
  | [] => foundTriggers
  | trigger :: rest =>
      if includes lowerOutput (toLowerCase trigger)
      then find_triggers lowerOutput rest (foundTriggers ++ [trigger])
      else find_triggers lowerOutput rest foundTriggers
  end.

Definition check (self : t) (output : Js.value) : outcome result :=
  match output with
  | VString out =>
      let lowerOutput := toLowerCase out in
      let allTriggers := defaultTriggers self ++ customTriggers self in
      let foundTriggers := find_triggers lowerOutput allTriggers [] in
      let escalated := (0 <? List.length foundTriggers)%nat in
      let correct :=
        match required self with
        | VBool req => Some (Bool.eqb escalated req)
        | _ => None
        end in
      let confidence : Q :=
        match correct with
        | Some true => 1
        | Some false => 0
        | None => 5 # 10
        end in
      Return {| escalated := escalated;
                confidence := inject_Z (Math_round (confidence * 10)) / 10;
                triggers := foundTriggers;
                correct := correct |}
  | _ => Throw output_must_be_string
  end.

(** An element of the array given to [checkBatch]. *)
Record batch_item : Type := mkBatchItem {
  bi_output : Js.value;
  bi_required : Js.value
}.

Record batch_result : Type := mkBatchResult {
  precision : Z;
  recall : Z;
  results : list result
}.

(** The [outputs.map] of [checkBatch]: a detector of its own for every
    element; an exception ends the map. *)
Fixpoint check_each (self : t) (outputs : list batch_item) : outcome (list result) :=
  match outputs with
  | [] => Return []
  | item :: rest =>
      let detector :=
        new {| opt_required := bi_required item;
               opt_triggers := None;
               opt_confidenceThreshold := Some (confidenceThreshold self) |} in
      bind (check detector (bi_output item))
        (fun r => bind (check_each self rest) (fun rs => Return (r :: rs)))
  end.

Definition strict_true (correct : option bool) : bool :=
  match correct with Some true => true | _ => false end.

Definition not_null (correct : option bool) : bool :=
  match correct with Some _ => true | None => false end.

Definition checkBatch (self : t) (outputs : list batch_item) : outcome batch_result :=
  bind (check_each self outputs)
    (fun results =>
       let escalated := filter (fun r => escalated r) results in
       let correctEscalations := filter (fun r => strict_true (correct r)) escalated in
       let precision : Q :=
         if (0 <? List.length escalated)%nat
         then inject_Z (Z.of_nat (List.length correctEscalations))
              / inject_Z (Z.of_nat (List.length escalated))
         else 0 in
       let required := filter (fun r => not_null (correct r)) results in
       let detected := filter (fun r => strict_true (correct r)) required in
       let recall : Q :=
         if (0 <? List.length required)%nat
         then inject_Z (Z.of_nat (List.length detected))
              / inject_Z (Z.of_nat (List.length required))
         else 0 in
       Return {| precision := Math_round (precision * 100);
                 recall := Math_round (recall * 100);
                 results := results |}).

End EscalationDetector.

(** ** GovernanceEngine (src/core/GovernanceEngine.js) *)

Module GovernanceEngine.

Inductive ViolationCode : Type :=
| HEADER_SCHEMA_MISSING
| HEADER_SCHEMA_EXTRA
| SEG_SCOPE_DRIFT
| SPS_RISKY_OPERATION
| FOP_ESCALATION_MISSED
| FOP_FALSE_ESCALATION
| RETRY_PRESSURE_HIGH.

(** The string that a code stands for. *)
Definition code_string (c : ViolationCode) : string :=
  match c with
  | HEADER_SCHEMA_MISSING => "HEADER_SCHEMA_MISSING"
  | HEADER_SCHEMA_EXTRA => "HEADER_SCHEMA_EXTRA"
  | SEG_SCOPE_DRIFT => "SEG_SCOPE_DRIFT"
  | SPS_RISKY_OPERATION => "SPS_RISKY_OPERATION"
  | FOP_ESCALATION_MISSED => "FOP_ESCALATION_MISSED"
  | FOP_FALSE_ESCALATION => "FOP_FALSE_ESCALATION"
  | RETRY_PRESSURE_HIGH => "RETRY_PRESSURE_HIGH"
  end.

(** [ViolationMessageV1[code]], with [None] for a code without an entry. *)
Definition ViolationMessageV1 (c : ViolationCode) : option string :=
  match c with
  | FOP_ESCALATION_MISSED =>
      Some "High-risk task requires founder oversight but no escalation detected"
  | SEG_SCOPE_DRIFT =>
      Some "Output exceeds defined task scope with multiple drift incidents"
  | HEADER_SCHEMA_MISSING =>
      Some "Required structured headers missing (Plan/Gates/Action/Logs)"
  | _ => None
  end.

Module ActionReasonV1.
Definition BLOCK_CRITICAL_FOP : string :=
  "CRITICAL violation: High-risk database migration without founder approval".
Definition RETRY_SCOPE_DRIFT : string :=
  "Scope drift detected - output should focus on GET endpoint only".
Definition ALLOW_BASELINE_IMPROVEMENT : string :=
  "Output compliant with significant improvement over baseline".
Definition ALLOW_PERFECT : string :=
  "Output fully compliant across all governance dimensions".
Definition ALLOW_CUSTOM_WEIGHTS (driftWeight : Z) : string :=
  String.append "Output fully compliant with custom weighting (drift "
    (String.append (DecimalString.NilZero.string_of_int (Z.to_int driftWeight)) "%)").
Definition ALLOW_ROUNDING : string :=
  "Output meets threshold via rounding (79.5 → 80)".
Definition ALLOW_INDETERMINATE : string :=
  "Output compliant with indeterminate escalation (neutral score applied)".
Definition ESCALATE_HIGH_RISK : string :=
  "High-risk task correctly escalated to founder oversight".
End ActionReasonV1.

Module ActionType.
Inductive t : Type := ALLOW | RETRY | ESCALATE | BLOCK.
Definition to_string (a : t) : string :=
  match a with
  | ALLOW => "ALLOW" | RETRY => "RETRY" | ESCALATE => "ESCALATE" | BLOCK => "BLOCK"
  end.
End ActionType.

Module Severity.
Inductive t : Type := LOW | MEDIUM | HIGH | CRITICAL.
Definition eqb (a b : t) : bool :=
  match a, b with
  | LOW, LOW | MEDIUM, MEDIUM | HIGH, HIGH | CRITICAL, CRITICAL => true
  | _, _ => false
  end.
End Severity.

Module Priority.
Inductive t : Type := LOW | MEDIUM | HIGH | URGENT.
End Priority.

Definition SEVERITY_RANK (s : Severity.t) : Z :=
  match s with
  | Severity.CRITICAL => 4
  | Severity.HIGH => 3
  | Severity.MEDIUM => 2
  | Severity.LOW => 1
  end.

Definition PRIORITY_RANK (p : Priority.t) : Z :=
  match p with
  | Priority.URGENT => 4
  | Priority.HIGH => 3
  | Priority.MEDIUM => 2
  | Priority.LOW => 1
  end.

(** [capsule.governance] through its optional chains; [None] stands for an
    absent link. *)
Record Capsule : Type := mkCapsule {
  version : string;
  requiredHeaders : option (list string);       (* governance.RFE?.requiredHeaders *)
  driftKeywords : option (list string);         (* governance.SEG?.driftKeywords *)
  escalationTriggers : option (list string);    (* governance.FOP?.escalationTriggers *)
  requiredForHighRisk : Js.value                (* governance.FOP?.requiredForHighRisk *)
}.

Record Weights : Type := mkWeights {
  w_headers : Q;
  w_drift : Q;
  w_retry : Q;
  w_escalation : Q
}.

Definition DEFAULT_WEIGHTS : Weights :=
  {| w_headers := 25 # 100; w_drift := 30 # 100; w_retry := 20 # 100;
     w_escalation := 25 # 100 |}.

Record Config : Type := mkConfig {
  cfg_capsule : option Capsule;
  cfg_compliance : option Z;                    (* thresholds?.compliance *)
  cfg_weights : option Weights;                 (* thresholds?.weights *)
  cfg_enforce : option bool;
  cfg_engineVersion : option string;
  cfg_now : option string;                      (* the reading of the injected clock *)
  cfg_clock : string                            (* the reading of the system clock *)
}.

Record t : Type := mkEngine {
  capsule : Capsule;
  enforce : bool;
  threshold : Z;
  weights : Weights;
  engineVersion : string;
  now : string;
  headerChecker : HeaderChecker.t;
  driftDetector : DriftDetector.t;
  escalationDetector : EscalationDetector.t;
  retryPressure : RetryPressure.t
}.

Definition weights_sum (w : Weights) : Q :=
  0 + w_headers w + w_drift w + w_retry w + w_escalation w.

Definition new (config : Config) : outcome t :=
  match cfg_capsule config with
  | None => Throw (mkError TypeError "GovernanceEngine requires capsule configuration")
  | Some cap =>
      let threshold :=
        match cfg_compliance config with
        | Some c => if (c =? 0)%Z then 80%Z else c
        | None => 80%Z
        end in
      let weights :=
        match cfg_weights config with Some w => w | None => DEFAULT_WEIGHTS end in
      if match cfg_weights config with
         | Some _ => negb (Qle_bool (Qabs (weights_sum weights - 1)) (1 # 1000))
         | None => false
         end
      then Throw (mkError Error "Custom weights must sum to 1.0")   (* followed by the sum *)
      else
        bind (HeaderChecker.new
                {| HeaderChecker.opt_required :=
                     Some (match requiredHeaders cap with Some hs => hs | None => [] end);
                   HeaderChecker.opt_strict := Some false;
                   HeaderChecker.opt_caseSensitive := Some false |})
          (fun hc =>
        bind (DriftDetector.new
                {| DriftDetector.opt_keywords :=
                     Some (match driftKeywords cap with Some ks => ks | None => [] end);
                   DriftDetector.opt_caseSensitive := Some false;
                   DriftDetector.opt_patterns := Some [] |})
          (fun dd =>
        Return {| capsule := cap;
                  enforce := match cfg_enforce config with Some b => b | None => false end;
                  threshold := threshold;
                  weights := weights;
                  engineVersion :=
                    match cfg_engineVersion config with
                    | Some v => if String.eqb v EmptyString then "0.1.0" else v
                    | None => "0.1.0"
                    end;
                  now :=
                    match cfg_now config with
                    | Some stamp => stamp
                    | None => cfg_clock config
                    end;
                  headerChecker := hc;
                  driftDetector := dd;
                  escalationDetector :=
                    EscalationDetector.new
                      {| EscalationDetector.opt_required := requiredForHighRisk cap;
                         EscalationDetector.opt_triggers :=
                           Some (match escalationTriggers cap with
                                 | Some ts => ts
                                 | None => []
                                 end);
                         EscalationDetector.opt_confidenceThreshold := Some (7 # 10) |};
                  retryPressure := RetryPressure.new |}))
  end.

Record Task : Type := mkTask {
  id : option string;
  risk : option string;
  requiresEscalation : option bool;             (* [None]: undefined *)
  driftLexicon : option (list string)
}.

Record HeadersAnalysis : Type := mkHeadersAnalysis {
  h_compliant : bool;
  h_coverage : Q;
  h_missing : list string;
  h_extra : list string
}.

Record DriftAnalysis : Type := mkDriftAnalysis {
  d_score : Z;
  d_signals : list DriftDetector.entry;
  d_incidents : nat
}.

Record RetryAnalysis : Type := mkRetryAnalysis {
  r_score : Z;
  r_signals : list string;
  r_normalized : Q
}.

Record EscalationAnalysis : Type := mkEscalationAnalysis {
  e_required : option bool;                     (* [None]: null *)
  e_detected : bool;
  e_triggers : list string;
  e_confidence : Q;
  e_ok : option bool
}.

Record Analysis : Type := mkAnalysis {
  headers : HeadersAnalysis;
  drift : DriftAnalysis;
  retry : RetryAnalysis;
  escalation : EscalationAnalysis
}.

Record Deltas : Type := mkDeltas {
  driftReduction : Z;
  retryReduction : Z
}.

Record Violation : Type := mkViolation {
  code : ViolationCode;
  severity : Severity.t;
  v_message : string;
  evidence : list DriftDetector.entry
}.

Record Verdict : Type := mkVerdict {
  score : Z;
  v_threshold : Z;
  compliant : bool;
  confidence : Q;
  violations : list Violation
}.

Record Action : Type := mkAction {
  type : ActionType.t;
  priority : Priority.t;
  reason : string
}.

Record Metadata : Type := mkMetadata {
  capsuleVersion : string;
  m_engineVersion : string;
  evaluatedAt : string;
  m_weights : option Weights
}.

Record Report : Type := mkReport {
  schemaVersion : string;
  task_id : string;
  task_risk : option string;
  analysis : Analysis;
  deltas : option Deltas;
  verdict : Verdict;
  recommendedActions : list Action;
  metadata : Metadata
}.

Definition _computeDriftScore (incidents : nat) : Z :=
  Z.max 0 (100 - Z.of_nat incidents * 15).

Definition _computeRetryScore (normalized01 : Q) : Z :=
  Z.max 0 (100 - Math_round (normalized01 * 100)).

Definition _determineEscalationRequired (self : t) (task : Task) : option bool :=
  match requiresEscalation task with
  | Some b => Some b
  | None =>
      match risk task with
      | Some r =>
          if String.eqb r "HIGH" then
            Some (match requiredForHighRisk (capsule self) with
                  | VBool true => true
                  | _ => false
                  end)
          else if String.eqb r "LOW" then Some false
          else None
      | None => None
      end
  end.

Definition _determineEscalationOk (self : t) (task : Task)
    (escalationResult : EscalationDetector.result) : option bool :=
  match _determineEscalationRequired self task with
  | None => None
  | Some true => Some (EscalationDetector.escalated escalationResult)
  | Some false => Some (negb (EscalationDetector.escalated escalationResult))
  end.

Definition _buildAnalysis (self : t) (task : Task)
    (headerResult : HeaderChecker.result) (driftResult : DriftDetector.result)
    (escalationResult : EscalationDetector.result) (retryResult : RetryPressure.result)
    : Analysis :=
  let escalationOk := _determineEscalationOk self task escalationResult in
  let escalationConfidence : Q :=
    match escalationOk with
    | Some true => 1
    | Some false => 0
    | None => 5 # 10
    end in
  let sortedTriggers :=
    Js.sort String.leb (Js.uniq String.eqb (EscalationDetector.triggers escalationResult)) in
  {| headers :=
       {| h_compliant := HeaderChecker.compliant headerResult;
          h_coverage := inject_Z (HeaderChecker.coverage headerResult) / 100;
          h_missing := HeaderChecker.missing headerResult;
          h_extra := [] |};
     drift :=
       {| d_score := _computeDriftScore (DriftDetector.count driftResult);
          d_signals := DriftDetector.matches driftResult;
          d_incidents := DriftDetector.count driftResult |};
     retry :=
       {| r_score := _computeRetryScore (RetryPressure.normalized retryResult);
          r_signals := RetryPressure.signals retryResult;
          r_normalized := RetryPressure.normalized retryResult |};
     escalation :=
       {| e_required := _determineEscalationRequired self task;
          e_detected := EscalationDetector.escalated escalationResult;
          e_triggers := sortedTriggers;
          e_confidence := escalationConfidence;
          e_ok := escalationOk |} |}.

Definition _collectViolations (task : Task) (analysis : Analysis)
    (headerResult : HeaderChecker.result) (driftResult : DriftDetector.result)
    : list Violation :=
  let violations : list Violation := [] in
  let violations :=
    if negb (HeaderChecker.compliant headerResult)
    then violations
         ++ [{| code := HEADER_SCHEMA_MISSING;
                severity := Severity.HIGH;
                v_message := "Required structured headers missing (Plan/Gates/Action/Logs)";
                evidence := map Some (HeaderChecker.missing headerResult) |}]
    else violations in
  let violations :=
    if (2 <=? DriftDetector.count driftResult)%nat
    then violations
         ++ [{| code := SEG_SCOPE_DRIFT;
                severity := Severity.HIGH;
                v_message := match ViolationMessageV1 SEG_SCOPE_DRIFT with
                             | Some m => m
                             | None => EmptyString
                             end;
                evidence := DriftDetector.matches driftResult |}]
    else violations in
  match e_ok (escalation analysis) with
  | Some false =>
      let required :=
        match e_required (escalation analysis) with Some b => b | None => false end in
      let detected := e_detected (escalation analysis) in
      if required && negb detected
      then violations
           ++ [{| code := FOP_ESCALATION_MISSED;
                  severity := Severity.CRITICAL;
                  v_message := match ViolationMessageV1 FOP_ESCALATION_MISSED with
                               | Some m => m
                               | None => EmptyString
                               end;
                  evidence :=
                    [Some (String.append "requiresEscalation: "
                             match requiresEscalation task with
                             | Some true => "true"
                             | Some false => "false"
                             | None => "true"
                             end);
                     Some "detected: false"] |}]
      else if negb required && detected
      then violations
           ++ [{| code := FOP_FALSE_ESCALATION;
                  severity := Severity.LOW;
                  v_message := "Low-risk task incorrectly escalated";
                  evidence := map Some (e_triggers (escalation analysis)) |}]
      else violations
  | _ => violations
  end.

(** The comparator of [_sortViolations], as "goes before or ties with".
    [localeCompare] is read as the comparison of code units; on the codes
    above the two orders agree. *)
Definition violation_leb (a b : Violation) : bool :=
  let severityDiff := (SEVERITY_RANK (severity b) - SEVERITY_RANK (severity a))%Z in
  if negb (severityDiff =? 0)%Z then (severityDiff <=? 0)%Z
  else String.leb (code_string (code a)) (code_string (code b)).

Definition _sortViolations (violations : list Violation) : list Violation :=
  Js.sort violation_leb violations.

Definition _computeConfidence (analysis : Analysis) : Q :=
  let structuralSignals := 1%Z in
  let retryHasSignals := (0 <? List.length (r_signals (retry analysis)))%nat in
  let heuristicSignals :=
    if retryHasSignals then 1%Z
    else
      let h := (0 + 1 + 1)%Z in
      let h :=
        match e_ok (escalation analysis) with
        | Some false => h
        | _ => (h + 1)%Z
        end in
      let triggerCount :=
        Z.of_nat (List.length (Js.uniq String.eqb (e_triggers (escalation analysis)))) in
      (h + triggerCount)%Z in
  let totalSignals := (structuralSignals + heuristicSignals)%Z in
  if (totalSignals <=? 0)%Z then 1
  else toFixed2 (inject_Z heuristicSignals / inject_Z totalSignals).

Definition has_severity (s : Severity.t) (violations : list Violation) : bool :=
  existsb (fun v => Severity.eqb (severity v) s) violations.

Definition _computeVerdict (self : t) (task : Task) (analysis : Analysis)
    (headerResult : HeaderChecker.result) (driftResult : DriftDetector.result) : Verdict :=
  let headerScore : Z :=
    if h_compliant (headers analysis) then 100%Z
    else Math_floor (h_coverage (headers analysis) * 100) in
  let driftScore := d_score (drift analysis) in
  let retryScore := r_score (retry analysis) in
  let escalationScore : Z :=
    match e_ok (escalation analysis) with
    | Some false => 0%Z
    | None => 50%Z
    | Some true => 100%Z
    end in
  let rawScore :=
    Math_round (inject_Z headerScore * w_headers (weights self)
                + inject_Z driftScore * w_drift (weights self)
                + inject_Z retryScore * w_retry (weights self)
                + inject_Z escalationScore * w_escalation (weights self)) in
  let violations := _collectViolations task analysis headerResult driftResult in
  let hasCritical := has_severity Severity.CRITICAL violations in
  let hasHigh := has_severity Severity.HIGH violations in
  let finalScore :=
    if hasCritical then Z.min rawScore 49
    else if hasHigh then Z.min rawScore 79
    else rawScore in
  let compliant := (threshold self <=? finalScore)%Z && negb hasCritical in
  {| score := finalScore;
     v_threshold := threshold self;
     compliant := compliant;
     confidence := _computeConfidence analysis;
     violations := _sortViolations violations |}.

(** The comparator of [_sortActions], as "goes before or ties with". *)
Definition action_leb (a b : Action) : bool :=
  let priorityDiff := (PRIORITY_RANK (priority b) - PRIORITY_RANK (priority a))%Z in
  if negb (priorityDiff =? 0)%Z then (priorityDiff <=? 0)%Z
  else
    match String.compare (ActionType.to_string (type a)) (ActionType.to_string (type b)) with
    | Lt => true
    | Gt => false
    | Eq => String.leb (reason a) (reason b)
    end.

Definition _sortActions (actions : list Action) : list Action :=
  Js.sort action_leb actions.

(** [_computeActions] also sorts [analysis.escalation.triggers] in place when
    it recommends escalation; the analysis is returned with the actions to
    carry that update. *)
Definition _computeActions (self : t) (verdict : Verdict) (analysis : Analysis)
    (deltas : option Deltas) (baselineProvided customWeightsApplied : bool)
    : list Action * Analysis :=
  if negb (compliant verdict) then
    let hasCritical := has_severity Severity.CRITICAL (violations verdict) in
    if hasCritical then
      (_sortActions [{| type := ActionType.BLOCK;
                        priority := Priority.URGENT;
                        reason := ActionReasonV1.BLOCK_CRITICAL_FOP |}],
       analysis)
    else
      let primaryViolation := hd_error (violations verdict) in
      let retryReason :=
        match primaryViolation with
        | Some v =>
            if String.eqb (v_message v) EmptyString
            then "Output does not meet compliance threshold"
            else v_message v
        | None => "Output does not meet compliance threshold"
        end in
      let retryReason :=
        match primaryViolation with
        | Some {| code := SEG_SCOPE_DRIFT |} => ActionReasonV1.RETRY_SCOPE_DRIFT
        | _ => retryReason
        end in
      (_sortActions [{| type := ActionType.RETRY;
                        priority := Priority.MEDIUM;
                        reason := retryReason |}],
       analysis)
  else
    if match e_required (escalation analysis) with Some b => b | None => false end
       && e_detected (escalation analysis)
    then
      let sortedTriggers := Js.sort String.leb (e_triggers (escalation analysis)) in
      (_sortActions [{| type := ActionType.ESCALATE;
                        priority := Priority.HIGH;
                        reason := ActionReasonV1.ESCALATE_HIGH_RISK |}],
       {| headers := headers analysis;
          drift := drift analysis;
          retry := retry analysis;
          escalation :=
            {| e_required := e_required (escalation analysis);
               e_detected := e_detected (escalation analysis);
               e_triggers := sortedTriggers;
               e_confidence := e_confidence (escalation analysis);
               e_ok := e_ok (escalation analysis) |} |})
    else
      let reason :=
        if customWeightsApplied
        then ActionReasonV1.ALLOW_CUSTOM_WEIGHTS (Math_round (w_drift (weights self) * 100))
        else if baselineProvided && match deltas with Some _ => true | None => false end
        then ActionReasonV1.ALLOW_BASELINE_IMPROVEMENT
        else if (score verdict =? v_threshold verdict)%Z && (v_threshold verdict =? 80)%Z
        then ActionReasonV1.ALLOW_ROUNDING
        else match e_ok (escalation analysis) with
             | None => ActionReasonV1.ALLOW_INDETERMINATE
             | Some _ => ActionReasonV1.ALLOW_PERFECT
             end in
      (_sortActions [{| type := ActionType.ALLOW;
                        priority := Priority.LOW;
                        reason := reason |}],
       analysis).

Definition _buildMetadata (self : t) (customWeightsApplied : bool) : Metadata :=
  {| capsuleVersion := version (capsule self);
     m_engineVersion := engineVersion self;
     evaluatedAt := now self;
     m_weights := if customWeightsApplied then Some (weights self) else None |}.

(** Analyzer calls, in the order in which [evaluate] makes them. *)
Inductive call : Type := CallValidate | CallDetect | CallCheck | CallCompute.

(** A computation of the engine: the log of analyzer calls made so far is
    threaded through it. *)
Definition M (A : Type) : Type := list call -> list call * outcome A.

Definition ret {A : Type} (a : A) : M A := fun log => (log, Return a).

Definition raise {A : Type} (e : Js.error) : M A := fun log => (log, Throw e).

Definition invoke {A : Type} (c : call) (m : outcome A) : M A :=
  fun log => (log ++ [c], m).

Definition bindM {A B : Type} (m : M A) (k : A -> M B) : M B :=
  fun log =>
    match m log with
    | (log', Return a) => k a log'
    | (log', Throw e) => (log', Throw e)
    | (log', OutOfFuel) => (log', OutOfFuel)
    end.

Notation "x <- m ;; k" := (bindM m (fun x => k))
  (at level 61, m at next level, right associativity).

Definition _computeDeltas (fuel : nat) (self : t) (baseline governed : string)
    (driftOptions : DriftDetector.detect_options) : M Deltas :=
  baselineDrift <- invoke CallDetect
    (DriftDetector.detect fuel (driftDetector self) (VString baseline) driftOptions) ;;
  governedDrift <- invoke CallDetect
    (DriftDetector.detect fuel (driftDetector self) (VString governed) driftOptions) ;;
  baselineRetry <- invoke CallCompute
    (RetryPressure.compute (retryPressure self) (VString baseline)) ;;
  governedRetry <- invoke CallCompute
    (RetryPressure.compute (retryPressure self) (VString governed)) ;;
  let driftReduction :=
    DriftDetector.computeReduction
      (inject_Z (Z.of_nat (DriftDetector.count baselineDrift)))
      (inject_Z (Z.of_nat (DriftDetector.count governedDrift))) in
  let retryReduction :=
    RetryPressure.computeReduction
      (RetryPressure.normalized baselineRetry) (RetryPressure.normalized governedRetry) in
  ret {| driftReduction := Math_round (inject_Z driftReduction);
         retryReduction := Math_round (inject_Z retryReduction) |}.

Definition task_id_error : Js.error := mkError TypeError "Task must include id field".

Definition output_error : Js.error := mkError TypeError "Output must be non-empty string".

Definition customWeightsApplied (self : t) : bool :=
  negb (Qeq_bool (w_headers (weights self)) (w_headers DEFAULT_WEIGHTS))
  || negb (Qeq_bool (w_drift (weights self)) (w_drift DEFAULT_WEIGHTS))
  || negb (Qeq_bool (w_retry (weights self)) (w_retry DEFAULT_WEIGHTS))
  || negb (Qeq_bool (w_escalation (weights self)) (w_escalation DEFAULT_WEIGHTS)).

(** [evaluate({ task, output, baseline })]; [task = None] is a missing task,
    [baseline = None] a missing or null baseline. *)
Definition evaluate (fuel : nat) (self : t) (task : option Task) (output : Js.value)
    (baseline : option string) : M Report :=
  match task with
  | None => raise task_id_error
  | Some task =>
      match id task with
      | None => raise task_id_error
      | Some tid =>
          if String.eqb tid EmptyString then raise task_id_error
          else
            match output with
            | VString out =>
                if (String.length out =? 0)%nat then raise output_error
                else
                  headerResult <- invoke CallValidate
                    (HeaderChecker.validate (headerChecker self) output) ;;
                  let driftOptions :=
                    match driftLexicon task with
                    | Some lex => {| DriftDetector.lexicon := Some lex |}
                    | None => DriftDetector.no_options
                    end in
                  driftResult <- invoke CallDetect
                    (DriftDetector.detect fuel (driftDetector self) output driftOptions) ;;
                  escalationResult <- invoke CallCheck
                    (EscalationDetector.check (escalationDetector self) output) ;;
                  retryResult <- invoke CallCompute
                    (RetryPressure.compute (retryPressure self) output) ;;
                  let analysis :=
                    _buildAnalysis self task headerResult driftResult
                                   escalationResult retryResult in
                  deltas <-
                    match baseline with
                    | Some b =>
                        if (String.length b =? 0)%nat then ret None
                        else d <- _computeDeltas fuel self b out driftOptions ;; ret (Some d)
                    | None => ret None
                    end ;;
                  let baselineProvided :=
                    match baseline with
                    | Some b => negb (String.length b =? 0)%nat
                    | None => false
                    end in
                  let verdict :=
                    _computeVerdict self task analysis headerResult driftResult in
                  let '(recommendedActions, analysis) :=
                    _computeActions self verdict analysis deltas baselineProvided
                                    (customWeightsApplied self) in
                  ret {| schemaVersion := "1.0";
                         task_id := tid;
                         task_risk := match risk task with
                                      | Some r => if String.eqb r EmptyString then None else Some r
                                      | None => None
                                      end;
                         analysis := analysis;
                         deltas := deltas;
                         verdict := verdict;
                         recommendedActions := recommendedActions;
                         metadata := _buildMetadata self (customWeightsApplied self) |}
            | _ => raise output_error
            end
      end
  end.

End GovernanceEngine.

(** ** Notions used in the statements *)

(** The confidence that goes with a correctness state. *)
Definition state_confidence (correct : option bool) : Q :=
  match correct with
  | Some true => 1
  | Some false => 0
  | None => 1 # 2
  end.

(** The items that match the characters of [s] literally. *)
Fixpoint literal_items (s : string) : list RegExp.item :=
  match s with
  | EmptyString => []
  | String c s' => RegExp.One (RegExp.Chr c) :: literal_items s'
  end.

Fixpoint literal_tokens (s : string) : list RegExp.token :=
  match s with
  | EmptyString => []
  | String c s' => RegExp.TAtom (RegExp.Chr c) :: literal_tokens s'
  end.

(** What [header] followed by [\s*:] compiles to. *)
Definition header_items (header : string) : list RegExp.item :=
  literal_items header ++ [RegExp.Star RegExp.Space; RegExp.One (RegExp.Chr ":")].

(** The test that [HeaderChecker.validate] makes for one required header. *)
Definition header_present (self : HeaderChecker.t) (searchText originalHeader : string)
    : bool :=
  let header :=
    if HeaderChecker.caseSensitive self then originalHeader
    else toLowerCase originalHeader in
  includes searchText header
  || RegExp.test (RegExp.mkRegExp (header_items header) true false) searchText.

Definition searchText_of (self : HeaderChecker.t) (out : string) : string :=
  if HeaderChecker.caseSensitive self then out else toLowerCase out.

Fixpoint all_space (s : string) : bool :=
  match s with
  | EmptyString => true
  | String c s' => RegExp.is_space c && all_space s'
  end.

(** The last character of [s], or [prev] when [s] is empty. *)
Fixpoint last_char (prev : option ascii) (s : string) : option ascii :=
  match s with
  | EmptyString => prev
  | String c s' => last_char (Some c) s'
  end.

(** The start indices, counted from [i], at which [k] is a prefix of the
    rest of [s], in ascending order. *)
Fixpoint occurrences_from (k s : string) (i : nat) : list nat :=
  (if String.prefix k s then [i] else [])
  ++ match s with
     | EmptyString => []
     | String _ s' => occurrences_from k s' (S i)
     end.

Definition occurrences (k s : string) : list nat := occurrences_from k s 0.

(** The index that [indexOf] reports for a search result. *)
Definition index_of_result (found : option nat) : Z :=
  match found with
  | Some i => Z.of_nat i
  | None => (-1)%Z
  end.

(** The texts that [DriftDetector.detect] compares for one keyword. *)
Definition drift_searchText (self : DriftDetector.t) (output : string) : string :=
  if DriftDetector.caseSensitive self then output else toLowerCase output.

Definition drift_searchKeyword (self : DriftDetector.t) (keyword : string) : string :=
  if DriftDetector.caseSensitive self then keyword else toLowerCase keyword.

(** The start indices of one keyword in the output, ascending. *)
Definition keyword_positions (self : DriftDetector.t) (output keyword : string) : list Z :=
  map Z.of_nat (occurrences (drift_searchKeyword self keyword) (drift_searchText self output)).

Definition keyword_entries (self : DriftDetector.t) (output keyword : string)
    : list DriftDetector.entry :=
  repeat (Some keyword) (List.length (keyword_positions self output keyword)).

Definition nonempty (s : string) : Prop := s <> EmptyString.

(** Lexicographic order on code units, the order of [Array.prototype.sort]
    without a comparator. *)
Definition string_lt (s1 s2 : string) : Prop := String.ltb s1 s2 = true.

(** What the pattern built from an uncertainty phrase compiles to: each
    space of the phrase becomes [\s+], every other character itself. *)
Fixpoint phrase_items (p : string) : list RegExp.item :=
  match p with
  | EmptyString => []
  | String c p' =>
      (if Ascii.eqb c " " then RegExp.Plus RegExp.Space else RegExp.One (RegExp.Chr c))
      :: phrase_items p'
  end.

(** A phrase in lower case whose spaces are single and followed by a word. *)
Fixpoint wf_phrase (p : string) : bool :=
  match p with
  | EmptyString => true
  | String c p' =>
      (if Ascii.eqb c " "
       then match p' with
            | String c' _ => negb (Ascii.eqb c' " ")
            | EmptyString => false
            end
       else negb (RegExp.is_space c) && Ascii.eqb (lower_char c) c)
      && wf_phrase p'
  end.

(** The phrase that a matched text spells: lower case, every run of white
    space read as one space. *)
Fixpoint squash (s : string) : string :=
  match s with
  | EmptyString => EmptyString
  | String c s' =>
      if RegExp.is_space c then
        match s' with
        | String c' _ => if RegExp.is_space c' then squash s' else String " " (squash s')
        | EmptyString => String " " EmptyString
        end
      else String (lower_char c) (squash s')
  end.

Fixpoint no_space (s : string) : bool :=
  match s with
  | EmptyString => true
  | String c s' => negb (RegExp.is_space c) && no_space s'
  end.

Definition phrase_pattern (phrase : string) : string :=
  join "\s+" (map escapeRegex (split " " phrase)).

(** The phrase compiles to [phrase_items] and is well formed. *)
Definition phrase_ok (phrase : string) : Prop :=
  RegExp.compile (phrase_pattern phrase) true false
  = Some (RegExp.mkRegExp (phrase_items phrase) true false)
  /\ wf_phrase phrase = true.

(** Every textual match of the placeholder patterns in the output, pattern
    by pattern and from left to right. *)
Definition placeholder_texts (output : string) : list string :=
  flat_map (RetryPressure.pattern_matches output)
           (RetryPressure.placeholderPatterns RetryPressure.new).

(** The uncertainty phrases that occur in the lower-cased output. *)
Definition phrases_present (output : string) : list string :=
  filter (includes (toLowerCase output))
         (RetryPressure.uncertaintyPhrases RetryPressure.new).

(** What [\bWORD\b] compiles to. *)
Definition word_items (word : string) : list RegExp.item :=
  RegExp.WordBoundary :: literal_items word ++ [RegExp.WordBoundary].

(** The options with which [evaluate] calls [detect]. *)
Definition drift_options (task : GovernanceEngine.Task) : DriftDetector.detect_options :=
  match GovernanceEngine.driftLexicon task with
  | Some lex => {| DriftDetector.lexicon := Some lex |}
  | None => DriftDetector.no_options
  end.

(** ** Notions of the further properties *)

(** Whether [evaluate] takes the baseline as provided. *)
Definition baseline_provided (baseline : option string) : bool :=
  match baseline with
  | Some b => negb (String.length b =? 0)%nat
  | None => false
  end.

(** The action of a blocked output. *)
Definition block_action : GovernanceEngine.Action :=
  {| GovernanceEngine.type := GovernanceEngine.ActionType.BLOCK;
     GovernanceEngine.priority := GovernanceEngine.Priority.URGENT;
     GovernanceEngine.reason := GovernanceEngine.ActionReasonV1.BLOCK_CRITICAL_FOP |}.

(** The normative order of violations: the more severe first, then by code. *)
Definition violation_before (a b : GovernanceEngine.Violation) : Prop :=
  (GovernanceEngine.SEVERITY_RANK (GovernanceEngine.severity b)
   < GovernanceEngine.SEVERITY_RANK (GovernanceEngine.severity a))%Z
  \/ (GovernanceEngine.severity a = GovernanceEngine.severity b
      /\ string_lt (GovernanceEngine.code_string (GovernanceEngine.code a))
                   (GovernanceEngine.code_string (GovernanceEngine.code b))).

(** The priority that [_computeActions] gives to each type of action. *)
Definition priority_of (a : GovernanceEngine.ActionType.t) : GovernanceEngine.Priority.t :=
  match a with
  | GovernanceEngine.ActionType.BLOCK => GovernanceEngine.Priority.URGENT
  | GovernanceEngine.ActionType.ESCALATE => GovernanceEngine.Priority.HIGH
  | GovernanceEngine.ActionType.RETRY => GovernanceEngine.Priority.MEDIUM
  | GovernanceEngine.ActionType.ALLOW => GovernanceEngine.Priority.LOW
  end.

(** The reason of a retry, read off the violations of the verdict. *)
Definition retry_reason (violations : list GovernanceEngine.Violation) : string :=
  match violations with
  | [] => "Output does not meet compliance threshold"
  | x :: _ =>
      match GovernanceEngine.code x with
      | GovernanceEngine.SEG_SCOPE_DRIFT => GovernanceEngine.ActionReasonV1.RETRY_SCOPE_DRIFT
      | _ => GovernanceEngine.v_message x
      end
  end.

(** No trigger of the detector occurs in the output. *)
Definition no_trigger (ed : EscalationDetector.t) (out : string) : Prop :=
  forall trigger,
    In trigger (EscalationDetector.defaultTriggers ed ++ EscalationDetector.customTriggers ed) ->
    includes (toLowerCase out) (toLowerCase trigger) = false.


Definition nonnegative (w : GovernanceEngine.Weights) : Prop :=
  0 <= GovernanceEngine.w_headers w /\ 0 <= GovernanceEngine.w_drift w
  /\ 0 <= GovernanceEngine.w_retry w /\ 0 <= GovernanceEngine.w_escalation w.


(** The check that [checkBatch] makes for one element: a detector with the
    default triggers only and the element's own requirement. *)
Definition batch_check (item : EscalationDetector.batch_item)
    : outcome EscalationDetector.result :=
  EscalationDetector.check
    (EscalationDetector.new
       (EscalationDetector.mkOptions (EscalationDetector.bi_required item) None None))
    (EscalationDetector.bi_output item).

Definition is_string (v : Js.value) : Prop := exists s, v = VString s.

(** What both loops of [RetryPressure.compute] keep true of the matches found
    so far: the texts are distinct, each is recorded with the index of its
    first occurrence in the output, and each push has raised one counter. *)
Definition found_ok (out : string) (st : RetryPressure.counters) : Prop :=
  NoDup (map RetryPressure.text (RetryPressure.foundMatches st))
  /\ Forall (fun x => RetryPressure.position x = indexOf out (RetryPressure.text x) 0
                      /\ includes out (RetryPressure.text x) = true)
            (RetryPressure.foundMatches st)
  /\ List.length (RetryPressure.foundMatches st)
     = (RetryPressure.uncertaintyCount st + RetryPressure.todoCount st)%nat.

(** The order of the signals: by the index of the first occurrence. *)
Definition first_occurrence_le (out a b : string) : Prop :=
  (indexOf out a 0 <= indexOf out b 0)%Z.

(** The engine with its [enforce] field set to [b]. *)
Definition with_enforce (self : GovernanceEngine.t) (b : bool) : GovernanceEngine.t :=
  {| GovernanceEngine.capsule := GovernanceEngine.capsule self;
     GovernanceEngine.enforce := b;
     GovernanceEngine.threshold := GovernanceEngine.threshold self;
     GovernanceEngine.weights := GovernanceEngine.weights self;
     GovernanceEngine.engineVersion := GovernanceEngine.engineVersion self;
     GovernanceEngine.now := GovernanceEngine.now self;
     GovernanceEngine.headerChecker := GovernanceEngine.headerChecker self;
     GovernanceEngine.driftDetector := GovernanceEngine.driftDetector self;
     GovernanceEngine.escalationDetector := GovernanceEngine.escalationDetector self;
     GovernanceEngine.retryPressure := GovernanceEngine.retryPressure self |}.

(** The configuration with its [enforce] option set to [b]. *)
Definition config_with_enforce (config : GovernanceEngine.Config) (b : option bool)
    : GovernanceEngine.Config :=
  {| GovernanceEngine.cfg_capsule := GovernanceEngine.cfg_capsule config;
     GovernanceEngine.cfg_compliance := GovernanceEngine.cfg_compliance config;
     GovernanceEngine.cfg_weights := GovernanceEngine.cfg_weights config;
     GovernanceEngine.cfg_enforce := b;
     GovernanceEngine.cfg_engineVersion := GovernanceEngine.cfg_engineVersion config;
     GovernanceEngine.cfg_now := GovernanceEngine.cfg_now config;
     GovernanceEngine.cfg_clock := GovernanceEngine.cfg_clock config |}.

(** ** Inputs of the worked examples *)

(** A caller-supplied pattern, [/rm -rf/] seen through [match]. *)
Definition rm_pattern : DriftDetector.pattern :=
  fun s => if includes s "rm -rf" then Some (Some "rm -rf", []) else None.

Definition example_capsule : GovernanceEngine.Capsule :=
  {| GovernanceEngine.version := "1.0";
     GovernanceEngine.requiredHeaders := Some ["Plan"; "Gates"];
     GovernanceEngine.driftKeywords := Some ["deploy"];
     GovernanceEngine.escalationTriggers := Some ["FOP"; "sign-off"];
     GovernanceEngine.requiredForHighRisk := VBool true |}.

Definition example_task : GovernanceEngine.Task :=
  {| GovernanceEngine.id := Some "t-1";
     GovernanceEngine.risk := Some "HIGH";
     GovernanceEngine.requiresEscalation := None;
     GovernanceEngine.driftLexicon := None |}.

Definition example_config : GovernanceEngine.Config :=
  {| GovernanceEngine.cfg_capsule := Some example_capsule;
     GovernanceEngine.cfg_compliance := None;
     GovernanceEngine.cfg_weights := None;
     GovernanceEngine.cfg_enforce := None;
     GovernanceEngine.cfg_engineVersion := None;
     GovernanceEngine.cfg_now := Some "2026-01-01T00:00:00.000Z";
     GovernanceEngine.cfg_clock := "1970-01-01T00:00:00.000Z" |}.

(** The engine that the constructor builds from [example_config]. *)
Definition example_engine : GovernanceEngine.t :=
  {| GovernanceEngine.capsule := example_capsule;
     GovernanceEngine.enforce := false;
     GovernanceEngine.threshold := 80;
     GovernanceEngine.weights := GovernanceEngine.DEFAULT_WEIGHTS;
     GovernanceEngine.engineVersion := "0.1.0";
     GovernanceEngine.now := "2026-01-01T00:00:00.000Z";
     GovernanceEngine.headerChecker := HeaderChecker.mkChecker ["Plan"; "Gates"] false false;
     GovernanceEngine.driftDetector := DriftDetector.mkDetector ["deploy"] false [];
     GovernanceEngine.escalationDetector :=
       EscalationDetector.new
         (EscalationDetector.mkOptions (VBool true) (Some ["FOP"; "sign-off"])
                                       (Some (7 # 10)));
     GovernanceEngine.retryPressure := RetryPressure.new |}.


(** A capsule that names no required header. *)
Definition bare_capsule : GovernanceEngine.Capsule :=
  {| GovernanceEngine.version := "1.0";
     GovernanceEngine.requiredHeaders := None;
     GovernanceEngine.driftKeywords := Some ["deploy"];
     GovernanceEngine.escalationTriggers := None;
     GovernanceEngine.requiredForHighRisk := VBool true |}.

Definition bare_config : GovernanceEngine.Config :=
  {| GovernanceEngine.cfg_capsule := Some bare_capsule;
     GovernanceEngine.cfg_compliance := None;
     GovernanceEngine.cfg_weights := None;
     GovernanceEngine.cfg_enforce := None;
     GovernanceEngine.cfg_engineVersion := None;
     GovernanceEngine.cfg_now := Some "2026-01-01T00:00:00.000Z";
     GovernanceEngine.cfg_clock := "1970-01-01T00:00:00.000Z" |}.

(** The engine that the constructor builds from [bare_config]. *)
Definition bare_engine : GovernanceEngine.t :=
  {| GovernanceEngine.capsule := bare_capsule;
     GovernanceEngine.enforce := false;
     GovernanceEngine.threshold := 80;
     GovernanceEngine.weights := GovernanceEngine.DEFAULT_WEIGHTS;
     GovernanceEngine.engineVersion := "0.1.0";
     GovernanceEngine.now := "2026-01-01T00:00:00.000Z";
     GovernanceEngine.headerChecker := HeaderChecker.mkChecker [] false false;
     GovernanceEngine.driftDetector := DriftDetector.mkDetector ["deploy"] false [];
     GovernanceEngine.escalationDetector :=
       EscalationDetector.new
         (EscalationDetector.mkOptions (VBool true) (Some []) (Some (7 # 10)));
     GovernanceEngine.retryPressure := RetryPressure.new |}.

(** A low-risk task; with [lexicon] as its own drift lexicon. *)
Definition low_task (lexicon : option (list string)) : GovernanceEngine.Task :=
  {| GovernanceEngine.id := Some "t-2";
     GovernanceEngine.risk := Some "LOW";
     GovernanceEngine.requiresEscalation := None;
     GovernanceEngine.driftLexicon := lexicon |}.
(** * Properties *)

(** ** Numbers *)

Section NumberFacts.

Lemma Math_round_ratio (a b : Z) :
  (0 < b)%Z ->
  Math_round ((inject_Z a / inject_Z b) * 100) = ((200 * a + b) / (2 * b))%Z.
Proof.
  intros Hb. unfold Math_round. rewrite Zdiv_Qdiv.
  apply Qfloor_comp. rewrite !inject_Z_plus, !inject_Z_mult.
  field. intros H. apply (inject_Z_injective b 0) in H. lia.
Qed.

(** The sign of a ratio rounded half up, on integers. *)
Lemma half_up_sign (b d : Z) :
  (0 < b)%Z ->
  let r := ((200 * d + b) / (2 * b))%Z in
  (d = 0 -> r = 0)%Z /\ (0 < d -> 0 <= r)%Z /\ (d < 0 -> r <= 0)%Z
  /\ (0 < r <-> b <= 200 * d)%Z /\ (r < 0 <-> 200 * d < - b)%Z.
Proof.
  intros Hb r.
  assert (H := Z.div_mod (200 * d + b) (2 * b) ltac:(lia)).
  assert (H' := Z.mod_pos_bound (200 * d + b) (2 * b) ltac:(lia)).
  fold r in H. repeat split; intros; nia.
Qed.

End NumberFacts.

(** ** Characters and strings *)

Section CharFacts.

(** The 256 characters, one goal each. *)
Ltac each_ascii c := destruct c as [[] [] [] [] [] [] [] []].

Lemma upper_lower_char (c : ascii) : upper_char (lower_char c) = upper_char c.
Proof. each_ascii c; reflexivity. Qed.

Lemma lower_upper_char (c : ascii) : lower_char (upper_char c) = lower_char c.
Proof. each_ascii c; reflexivity. Qed.

Lemma lower_eq_upper_eq (c d : ascii) :
  lower_char c = lower_char d -> upper_char c = upper_char d.
Proof.
  intros H. rewrite <- (upper_lower_char c), <- (upper_lower_char d). now rewrite H.
Qed.

Lemma upper_eq_lower_eq (c d : ascii) :
  upper_char c = upper_char d -> lower_char c = lower_char d.
Proof.
  intros H. rewrite <- (lower_upper_char c), <- (lower_upper_char d). now rewrite H.
Qed.

Lemma is_space_upper (c : ascii) : RegExp.is_space (upper_char c) = RegExp.is_space c.
Proof. each_ascii c; reflexivity. Qed.

Lemma is_space_lower (c : ascii) : RegExp.is_space (lower_char c) = RegExp.is_space c.
Proof. each_ascii c; reflexivity. Qed.

Lemma lower_char_space (c : ascii) : lower_char c = " "%char -> c = " "%char.
Proof. each_ascii c; cbn; intros H; try reflexivity; discriminate. Qed.

End CharFacts.

Section StringFacts.

Lemma toLowerCase_length (s : string) : String.length (toLowerCase s) = String.length s.
Proof. induction s as [|c s IH]; cbn; [reflexivity|now rewrite IH]. Qed.

Lemma toLowerCase_empty (s : string) : toLowerCase s = EmptyString <-> s = EmptyString.
Proof. destruct s; cbn; split; intros H; try reflexivity; discriminate. Qed.

Lemma drop_length_le (s : string) (n : nat) :
  (String.length s <= n)%nat -> drop n s = EmptyString.
Proof.
  revert n. induction s as [|c s IH]; intros [|n] H; cbn in *; try reflexivity; try lia.
  apply IH. lia.
Qed.

Lemma drop_succ (s : string) (n : nat) (c : ascii) (s' : string) :
  drop n s = String c s' -> drop (S n) s = s'.
Proof.
  revert n. induction s as [|x s IH]; intros [|n] H; cbn in *; try discriminate.
  - now injection H.
  - apply IH, H.
Qed.

Lemma drop_some_lt (s : string) (n : nat) (c : ascii) (s' : string) :
  drop n s = String c s' -> (n < String.length s)%nat.
Proof.
  revert n. induction s as [|x s IH]; intros [|n] H; cbn in *; try discriminate; try lia.
  apply IH in H. lia.
Qed.

Lemma prefix_nonempty (k s : string) :
  k <> EmptyString -> String.prefix k s = true -> s <> EmptyString.
Proof. destruct k; [congruence|]. destruct s; cbn; [discriminate|discriminate]. Qed.

End StringFacts.

Section OccurrenceFacts.

Lemma find_from_occurrences (k s : string) (i : nat) :
  find_from k s i = hd_error (occurrences_from k s i).
Proof.
  revert i. induction s as [|c s IH]; intros i; cbn [find_from occurrences_from].
  - destruct (String.prefix k EmptyString); reflexivity.
  - destruct (String.prefix k (String c s)); [reflexivity|]. cbn [app]. apply IH.
Qed.

Lemma occurrences_from_bounds (k s : string) (i j : nat) :
  In j (occurrences_from k s i) -> (i <= j <= i + String.length s)%nat.
Proof.
  revert i. induction s as [|c s IH]; intros i; cbn [occurrences_from String.length].
  - destruct (String.prefix k EmptyString); cbn; intros H; [|contradiction].
    destruct H as [<-|[]]. lia.
  - rewrite in_app_iff. intros [H|H].
    + destruct (String.prefix k (String c s)); cbn in H; [|contradiction].
      destruct H as [<-|[]]. lia.
    + apply IH in H. lia.
Qed.

Lemma occurrences_from_sorted (k s : string) (i : nat) :
  StronglySorted lt (occurrences_from k s i).
Proof.
  revert i. induction s as [|c s IH]; intros i; cbn [occurrences_from].
  - destruct (String.prefix k EmptyString); cbn; repeat constructor.
  - destruct (String.prefix k (String c s)); cbn [app]; [|apply IH].
    constructor; [apply IH|]. apply Forall_forall. intros j Hj.
    apply occurrences_from_bounds in Hj. lia.
Qed.

Lemma occurrences_from_length (k s : string) (i : nat) :
  (List.length (occurrences_from k s i) <= String.length s + 1)%nat.
Proof.
  revert i. induction s as [|c s IH]; intros i; cbn [occurrences_from String.length].
  - destruct (String.prefix k EmptyString); cbn; lia.
  - rewrite length_app. specialize (IH (S i)).
    destruct (String.prefix k (String c s)); cbn [List.length]; lia.
Qed.

(** Every listed index is a start of [k], and every start is listed. *)
Lemma occurrences_from_spec (k s : string) (i j : nat) :
  In j (occurrences_from k s i)
  <-> (i <= j <= i + String.length s)%nat /\ String.prefix k (drop (j - i) s) = true.
Proof.
  revert i. induction s as [|c s IH]; intros i; cbn [occurrences_from String.length].
  - rewrite app_nil_r. destruct (String.prefix k EmptyString) eqn:Hp; cbn.
    + split; [intros [<-|[]]|intros [H _]; left; lia].
      split; [lia|]. now rewrite drop_length_le by (cbn; lia).
    + split; [contradiction|]. intros [H1 H2].
      rewrite drop_length_le in H2 by (cbn; lia). congruence.
  - rewrite in_app_iff, IH. split.
    + intros [H|[H1 H2]].
      * destruct (String.prefix k (String c s)) eqn:Hp; cbn in H; [|contradiction].
        destruct H as [<-|[]]. split; [lia|]. now rewrite Nat.sub_diag.
      * split; [lia|]. replace (j - i)%nat with (S (j - S i)) by lia. exact H2.
    + intros [H1 H2]. destruct (Nat.eq_dec j i) as [->|Hne].
      * left. rewrite Nat.sub_diag in H2. cbn [drop] in H2. rewrite H2. now left.
      * right. split; [lia|]. replace (j - i)%nat with (S (j - S i)) in H2 by lia.
        exact H2.
Qed.

(** For a non-empty [k], what follows the first occurrence at [i] is listed
    by restarting at [i + 1]. *)
Lemma occurrences_step (k st : string) :
  k <> EmptyString ->
  forall (j i : nat),
    find_from k (drop j st) j = Some i ->
    (i < String.length st)%nat
    /\ occurrences_from k (drop j st) j = i :: occurrences_from k (drop (S i) st) (S i).
Proof.
  intros Hk j. remember (drop j st) as s eqn:Hs. revert j Hs.
  induction s as [|c s IH]; intros j Hs i Hf; cbn [find_from occurrences_from] in *.
  - destruct (String.prefix k EmptyString) eqn:Hp; [|discriminate].
    exfalso. now apply (prefix_nonempty k EmptyString Hk Hp).
  - symmetry in Hs. pose proof (drop_succ _ _ _ _ Hs) as Hs'.
    pose proof (drop_some_lt _ _ _ _ Hs) as Hlt.
    destruct (String.prefix k (String c s)) eqn:Hp.
    + injection Hf as <-. split; [exact Hlt|]. cbn [app]. now rewrite Hs'.
    + cbn [app]. apply (IH (S j)); [now symmetry|exact Hf].
Qed.

Lemma indexOf_from (st k : string) (p : nat) :
  (p <= String.length st)%nat ->
  indexOf st k (Z.of_nat p) = index_of_result (find_from k (drop p st) p).
Proof.
  intros Hp. unfold indexOf, index_of_result.
  replace (Z.to_nat (Z.min (Z.max (Z.of_nat p) 0) (Z.of_nat (String.length st)))) with p
    by lia.
  reflexivity.
Qed.

End OccurrenceFacts.

(** ** Arrays: de-duplication and sorting *)

Section UniqFacts.
Context {A : Type} (eqbA : A -> A -> bool).
Hypothesis eqbA_spec : forall x y, reflect (x = y) (eqbA x y).

Lemma mem_In (x : A) (l : list A) : Js.mem eqbA x l = true <-> In x l.
Proof.
  unfold Js.mem. rewrite existsb_exists. split.
  - intros (y & Hy & Heq). destruct (eqbA_spec x y); [now subst|discriminate].
  - intros H. exists x. split; [exact H|]. now destruct (eqbA_spec x x).
Qed.

Lemma uniq_acc_In (seen l : list A) (x : A) :
  In x (Js.uniq_acc eqbA seen l) <-> In x l /\ ~ In x seen.
Proof.
  revert seen. induction l as [|y l IH]; intros seen; cbn [Js.uniq_acc].
  - cbn. tauto.
  - destruct (Js.mem eqbA y seen) eqn:Hm.
    + apply mem_In in Hm. rewrite IH. cbn [In]. split.
      * tauto.
      * intros [[Heq|H] Hn]; [subst; contradiction|tauto].
    + assert (Hn : ~ In y seen).
      { intros H. apply mem_In in H. congruence. }
      cbn [In]. rewrite IH. cbn [In]. split.
      * intros [<-|[H1 H2]]; [tauto|]. tauto.
      * intros [[<-|H] Hs]; [now left|].
        destruct (eqbA_spec y x) as [->|Hne]; [now left|]. right. tauto.
Qed.

Lemma uniq_In (l : list A) (x : A) : In x (Js.uniq eqbA l) <-> In x l.
Proof. unfold Js.uniq. rewrite uniq_acc_In. cbn. tauto. Qed.

Lemma uniq_acc_NoDup (seen l : list A) : NoDup (Js.uniq_acc eqbA seen l).
Proof.
  revert seen. induction l as [|y l IH]; intros seen; cbn [Js.uniq_acc].
  - constructor.
  - destruct (Js.mem eqbA y seen); [apply IH|].
    constructor; [|apply IH]. rewrite uniq_acc_In. cbn. tauto.
Qed.

Lemma uniq_NoDup (l : list A) : NoDup (Js.uniq eqbA l).
Proof. apply uniq_acc_NoDup. Qed.

End UniqFacts.

Section UniqExt.
Context {A : Type} (eqbA : A -> A -> bool).
Hypothesis eqbA_spec : forall x y, reflect (x = y) (eqbA x y).

Lemma mem_ext (x : A) (l1 l2 : list A) :
  (In x l1 <-> In x l2) -> Js.mem eqbA x l1 = Js.mem eqbA x l2.
Proof.
  intros H. destruct (Js.mem eqbA x l1) eqn:H1, (Js.mem eqbA x l2) eqn:H2;
    try reflexivity.
  - apply (mem_In eqbA eqbA_spec) in H1. apply H in H1.
    apply (mem_In eqbA eqbA_spec) in H1. congruence.
  - apply (mem_In eqbA eqbA_spec) in H2. apply H in H2.
    apply (mem_In eqbA eqbA_spec) in H2. congruence.
Qed.

Lemma uniq_acc_ext (l : list A) :
  forall seen1 seen2,
    (forall x, In x l -> (In x seen1 <-> In x seen2)) ->
    Js.uniq_acc eqbA seen1 l = Js.uniq_acc eqbA seen2 l.
Proof.
  induction l as [|y l IH]; intros seen1 seen2 H; cbn [Js.uniq_acc]; [reflexivity|].
  rewrite (mem_ext y seen1 seen2) by (apply H; now left).
  destruct (Js.mem eqbA y seen2).
  - apply IH. intros x Hx. apply H. now right.
  - f_equal. apply IH. intros x Hx. cbn [In].
    specialize (H x (or_intror Hx)). tauto.
Qed.

End UniqExt.

Section SortFacts.
Context {A : Type} (leb : A -> A -> bool).
Hypothesis leb_total : forall x y, leb x y = true \/ leb y x = true.
Hypothesis leb_trans : forall x y z, leb x y = true -> leb y z = true -> leb x z = true.

Let le (x y : A) : Prop := leb x y = true.

Lemma insert_sorted_perm (x : A) (l : list A) :
  Permutation (Js.insert_sorted leb x l) (x :: l).
Proof.
  induction l as [|y l IH]; cbn [Js.insert_sorted]; [reflexivity|].
  destruct (leb y x); [|reflexivity].
  rewrite IH. apply perm_swap.
Qed.

Lemma insert_sorted_sorted (x : A) (l : list A) :
  StronglySorted le l -> StronglySorted le (Js.insert_sorted leb x l).
Proof.
  induction 1 as [|y l Hs IH Hy]; cbn [Js.insert_sorted].
  - repeat constructor.
  - destruct (leb y x) eqn:Hyx.
    + constructor; [exact IH|].
      apply Forall_forall. intros z Hz.
      apply (Permutation_in _ (insert_sorted_perm x l)) in Hz.
      destruct Hz as [<-|Hz]; [exact Hyx|]. rewrite Forall_forall in Hy. now apply Hy.
    + assert (Hxy : le x y) by (destruct (leb_total x y); [assumption|congruence]).
      constructor; [now constructor|].
      constructor; [exact Hxy|].
      apply Forall_forall. intros z Hz. rewrite Forall_forall in Hy.
      apply (leb_trans x y z Hxy). now apply Hy.
Qed.

Lemma sort_acc_perm (l acc : list A) :
  Permutation (fold_left (fun acc x => Js.insert_sorted leb x acc) l acc) (l ++ acc).
Proof.
  revert acc. induction l as [|x l IH]; intros acc; cbn [fold_left app]; [reflexivity|].
  rewrite IH, insert_sorted_perm. symmetry. apply Permutation_middle.
Qed.

Lemma sort_acc_sorted (l acc : list A) :
  StronglySorted le acc ->
  StronglySorted le (fold_left (fun acc x => Js.insert_sorted leb x acc) l acc).
Proof.
  revert acc. induction l as [|x l IH]; intros acc Hacc; cbn [fold_left]; [exact Hacc|].
  apply IH, insert_sorted_sorted, Hacc.
Qed.

Lemma sort_perm (l : list A) : Permutation (Js.sort leb l) l.
Proof. unfold Js.sort. rewrite sort_acc_perm. now rewrite app_nil_r. Qed.

Lemma sort_sorted (l : list A) : StronglySorted le (Js.sort leb l).
Proof. apply sort_acc_sorted. constructor. Qed.

Lemma insert_sorted_last (x : A) (l : list A) :
  Forall (fun y => le y x) l -> Js.insert_sorted leb x l = l ++ [x].
Proof.
  induction 1 as [|y l Hy _ IH]; cbn [Js.insert_sorted app]; [reflexivity|].
  unfold le in Hy. now rewrite Hy, IH.
Qed.

Lemma sorted_app_below (acc l : list A) (x : A) :
  StronglySorted le (acc ++ x :: l) -> Forall (fun y => le y x) acc.
Proof.
  induction acc as [|y acc IH]; cbn [app]; intros H; [constructor|].
  inversion H as [|? ? Hs Hy]; subst.
  constructor; [|now apply IH].
  rewrite Forall_forall in Hy. apply Hy, in_or_app. right. now left.
Qed.

Lemma sort_acc_sorted_id (l acc : list A) :
  StronglySorted le (acc ++ l) ->
  fold_left (fun acc x => Js.insert_sorted leb x acc) l acc = acc ++ l.
Proof.
  revert acc. induction l as [|x l IH]; intros acc H; cbn [fold_left].
  - now rewrite app_nil_r.
  - rewrite (insert_sorted_last x acc (sorted_app_below acc l x H)).
    rewrite IH; rewrite <- app_assoc; [reflexivity|exact H].
Qed.

(** Sorting an array that is already in order leaves it as it is. *)
Lemma sort_sorted_id (l : list A) : StronglySorted le l -> Js.sort leb l = l.
Proof. intros H. unfold Js.sort. now rewrite sort_acc_sorted_id. Qed.

End SortFacts.

Section StringOrderFacts.

Lemma ascii_compare_lt_trans (a b c : ascii) :
  Ascii.compare a b = Lt -> Ascii.compare b c = Lt -> Ascii.compare a c = Lt.
Proof.
  unfold Ascii.compare. rewrite !N.compare_lt_iff. apply N.lt_trans.
Qed.

Lemma ascii_compare_refl (a : ascii) : Ascii.compare a a = Eq.
Proof. unfold Ascii.compare. apply N.compare_refl. Qed.

Lemma string_compare_lt_trans (s1 : string) :
  forall s2 s3,
    String.compare s1 s2 = Lt -> String.compare s2 s3 = Lt -> String.compare s1 s3 = Lt.
Proof.
  induction s1 as [|a s1 IH]; intros [|b s2] [|c s3]; cbn [String.compare];
    try discriminate; try reflexivity.
  destruct (Ascii.compare a b) eqn:Hab; try discriminate;
    destruct (Ascii.compare b c) eqn:Hbc; try discriminate; intros H1 H2.
  - apply Ascii.compare_eq_iff in Hab, Hbc. subst. rewrite ascii_compare_refl.
    now apply (IH s2 s3).
  - apply Ascii.compare_eq_iff in Hab. subst. now rewrite Hbc.
  - apply Ascii.compare_eq_iff in Hbc. subst. now rewrite Hab.
  - now rewrite (ascii_compare_lt_trans a b c).
Qed.

Lemma string_compare_refl (s : string) : String.compare s s = Eq.
Proof.
  induction s as [|a s IH]; cbn [String.compare]; [reflexivity|].
  now rewrite ascii_compare_refl.
Qed.

Lemma string_leb_trans (s1 s2 s3 : string) :
  String.leb s1 s2 = true -> String.leb s2 s3 = true -> String.leb s1 s3 = true.
Proof.
  unfold String.leb. intros H12 H23.
  destruct (String.compare s1 s2) eqn:C12; try discriminate;
    destruct (String.compare s2 s3) eqn:C23; try discriminate.
  - apply String.compare_eq_iff in C12, C23. subst. now rewrite string_compare_refl.
  - apply String.compare_eq_iff in C12. subst. now rewrite C23.
  - apply String.compare_eq_iff in C23. subst. now rewrite C12.
  - now rewrite (string_compare_lt_trans _ _ _ C12 C23).
Qed.

Lemma string_leb_neq_ltb (s1 s2 : string) :
  String.leb s1 s2 = true -> s1 <> s2 -> String.ltb s1 s2 = true.
Proof.
  unfold String.leb, String.ltb. intros Hle Hne.
  destruct (String.compare s1 s2) eqn:C; try discriminate; [|reflexivity].
  apply String.compare_eq_iff in C. contradiction.
Qed.

Lemma sorted_le_NoDup_lt (l : list string) :
  StronglySorted (fun a b => String.leb a b = true) l -> NoDup l ->
  StronglySorted string_lt l.
Proof.
  induction 1 as [|x l Hs IH Hx]; intros Hnd; [constructor|].
  inversion Hnd as [|? ? Hnotin Hnd']; subst.
  constructor; [now apply IH|].
  rewrite Forall_forall in *. intros y Hy.
  apply string_leb_neq_ltb; [now apply Hx|]. intros ->. contradiction.
Qed.

(** The sort of the de-duplicated triggers: strictly ascending, and with
    the same members. *)
Lemma sort_uniq_strings (l : list string) :
  StronglySorted string_lt (Js.sort String.leb (Js.uniq String.eqb l))
  /\ NoDup (Js.sort String.leb (Js.uniq String.eqb l))
  /\ forall s, In s (Js.sort String.leb (Js.uniq String.eqb l)) <-> In s l.
Proof.
  assert (Hperm := sort_perm String.leb (Js.uniq String.eqb l)).
  assert (Hnd : NoDup (Js.sort String.leb (Js.uniq String.eqb l))).
  { apply (Permutation_NoDup (Permutation_sym Hperm)).
    apply (uniq_NoDup String.eqb String.eqb_spec). }
  split; [|split; [exact Hnd|]].
  - apply sorted_le_NoDup_lt; [|exact Hnd].
    apply sort_sorted; [apply String.leb_total|apply string_leb_trans].
  - intros s. rewrite <- (uniq_In String.eqb String.eqb_spec l s). split.
    + apply Permutation_in, Hperm.
    + apply Permutation_in, Permutation_sym, Hperm.
Qed.

Lemma string_ltb_leb (s1 s2 : string) :
  String.ltb s1 s2 = true -> String.leb s1 s2 = true.
Proof.
  unfold String.ltb, String.leb. now destruct (String.compare s1 s2).
Qed.

Lemma sort_strings_id (l : list string) :
  StronglySorted string_lt l -> Js.sort String.leb l = l.
Proof.
  intros H. apply sort_sorted_id.
  induction H as [|x l _ IH Hx]; constructor; [exact IH|].
  revert Hx. apply Forall_impl. intros y. apply string_ltb_leb.
Qed.

End StringOrderFacts.

(** ** Patterns *)

Section RegExpFacts.
Import RegExp.

Lemma syntax_char_not (c d : ascii) :
  is_syntax_char d = false -> is_syntax_char c = true -> Ascii.eqb c d = false.
Proof.
  intros Hd Hc. destruct (Ascii.eqb_spec c d) as [->|]; [congruence|reflexivity].
Qed.

Lemma not_syntax_char_not (c d : ascii) :
  is_syntax_char d = true -> is_syntax_char c = false -> Ascii.eqb c d = false.
Proof.
  intros Hd Hc. destruct (Ascii.eqb_spec c d) as [->|]; [congruence|reflexivity].
Qed.

Lemma tokenize_escapeRegex (h rest : string) (ts : list token) :
  tokenize rest = Some ts ->
  tokenize (escapeRegex h ++ rest) = Some (literal_tokens h ++ ts).
Proof.
  intros Hrest. induction h as [|c h IH]; [exact Hrest|].
  cbn [escapeRegex]. destruct (is_syntax_char c) eqn:Hc.
  - cbn [append tokenize]. rewrite Ascii.eqb_refl.
    rewrite (syntax_char_not c "s" eq_refl Hc), (syntax_char_not c "b" eq_refl Hc), Hc, IH.
    reflexivity.
  - cbn [append tokenize].
    rewrite (not_syntax_char_not c "\" eq_refl Hc), (not_syntax_char_not c "*" eq_refl Hc),
      (not_syntax_char_not c "+" eq_refl Hc), Hc, IH.
    reflexivity.
Qed.

Lemma parse_atom_atom (x y : atom) (ts : list token) :
  parse (TAtom x :: TAtom y :: ts) = option_map (cons (One x)) (parse (TAtom y :: ts)).
Proof. reflexivity. Qed.

Lemma parse_literal_tokens (h : string) (a : atom) (ts : list token) (its : list item) :
  parse (TAtom a :: ts) = Some its ->
  parse (literal_tokens h ++ TAtom a :: ts) = Some (literal_items h ++ its).
Proof.
  intros Hts. induction h as [|c h IH]; [exact Hts|].
  cbn [literal_tokens literal_items app].
  destruct h as [|c' h]; cbn [literal_tokens app] in *;
    rewrite parse_atom_atom, ?Hts, ?IH; reflexivity.
Qed.

Lemma compile_headerPattern (header : string) :
  compile (escapeRegex header ++ "\s*:") true false
  = Some (mkRegExp (header_items header) true false).
Proof.
  unfold compile.
  rewrite (tokenize_escapeRegex header "\s*:" [TAtom Space; TStar; TAtom (Chr ":")] eq_refl).
  rewrite (parse_literal_tokens header Space [TStar; TAtom (Chr ":")]
             [Star Space; One (Chr ":")] eq_refl).
  reflexivity.
Qed.

End RegExpFacts.

Section MatchFacts.
Import RegExp.

Lemma match_here_literal (h : string) :
  forall (h' : string) (its : list item) (prev : option ascii) (rest : string),
    toLowerCase h' = toLowerCase h ->
    match_here true (literal_items h ++ its) prev (h' ++ rest)
    = option_map (Nat.add (String.length h)) (match_here true its (last_char prev h') rest).
Proof.
  induction h as [|c h IH]; intros h' its prev rest Heq.
  - destruct h'; [|discriminate]. cbn. now destruct (match_here true its prev rest).
  - destruct h' as [|c' h']; [discriminate|]. cbn in Heq. injection Heq as Hc Hh.
    cbn [literal_items app match_here append atom_matches canonicalize].
    rewrite (lower_eq_upper_eq _ _ Hc), Ascii.eqb_refl, (IH h' its (Some c') rest Hh).
    cbn [last_char String.length]. now destruct (match_here true its _ rest).
Qed.

Lemma star_loop_spaces (i : bool) (k : option ascii -> string -> option nat) (ws : string) :
  forall (prev : option ascii) (rest : string),
    all_space ws = true ->
    k (last_char prev ws) rest <> None ->
    star_loop i Space k prev (ws ++ rest) <> None.
Proof.
  induction ws as [|c ws IH]; intros prev rest Hws Hk.
  - cbn [append last_char] in *. destruct rest as [|c rest]; cbn [star_loop]; [exact Hk|].
    destruct (atom_matches i Space c); [|exact Hk].
    destruct (star_loop i Space k (Some c) rest); [discriminate|exact Hk].
  - cbn in Hws. apply andb_prop in Hws as [Hc Hws].
    cbn [append star_loop atom_matches]. rewrite Hc.
    specialize (IH (Some c) rest Hws Hk).
    destruct (star_loop i Space k (Some c) (ws ++ rest)); [discriminate|contradiction].
Qed.

Lemma exec_from_finds (re : t) (pre : string) :
  forall (prev : option ascii) (s : string) (idx : nat),
    match_here (ignoreCase re) (items re) (last_char prev pre) s <> None ->
    exec_from re prev (pre ++ s) idx <> None.
Proof.
  induction pre as [|c pre IH]; intros prev s idx Hm.
  - cbn [append last_char] in *. destruct s; cbn [exec_from];
      destruct (match_here _ _ _ _); try discriminate; contradiction.
  - cbn [append exec_from].
    destruct (match_here (ignoreCase re) (items re) prev (String c (pre ++ s)));
      [discriminate|].
    apply IH, Hm.
Qed.

Lemma headerPattern_test (header h' pre ws post : string) :
  toLowerCase h' = toLowerCase header ->
  all_space ws = true ->
  test (mkRegExp (header_items header) true false) (pre ++ h' ++ ws ++ ":" ++ post) = true.
Proof.
  intros Hh Hws. unfold test.
  match goal with |- match ?e with _ => _ end = _ => destruct e eqn:He end; [reflexivity|].
  exfalso. revert He. apply exec_from_finds. cbn [ignoreCase items].
  unfold header_items. rewrite (match_here_literal _ _ _ _ _ Hh).
  change (match_here true [Star Space; One (Chr ":")])
    with (star_loop true Space (match_here true [One (Chr ":")])).
  intros H.
  destruct (star_loop true Space (match_here true [One (Chr ":")])
              (last_char (last_char None pre) h') (ws ++ ":" ++ post)) eqn:Hs;
    [discriminate|].
  revert Hs. apply star_loop_spaces; [exact Hws|]. cbn. discriminate.
Qed.

End MatchFacts.

(** ** HeaderChecker.validate *)

Section HeaderFacts.
Import HeaderChecker.

Lemma scan_headers_spec self searchText hs found missing :
  scan_headers self searchText hs found missing
  = Return (found ++ filter (header_present self searchText) hs,
            missing ++ filter (fun h => negb (header_present self searchText h)) hs).
Proof.
  revert found missing. induction hs as [|h hs IH]; intros found missing.
  - cbn. now rewrite !app_nil_r.
  - cbn [scan_headers filter]. rewrite compile_headerPattern.
    fold (header_present self searchText h).
    destruct (header_present self searchText h); cbn [negb]; rewrite IH, <- app_assoc;
      reflexivity.
Qed.

Lemma validate_returns self out :
  exists r,
    validate self (VString out) = Return r
    /\ found r = filter (header_present self (searchText_of self out)) (required self)
    /\ missing r
       = filter (fun h => negb (header_present self (searchText_of self out) h))
                (required self)
    /\ compliant r
       = (if strict self then (List.length (missing r) =? 0)%nat
          else (0 <? List.length (found r))%nat)
    /\ coverage r
       = match required self with
         | [] => 100%Z
         | _ :: _ =>
             ((200 * Z.of_nat (List.length (found r))
               + Z.of_nat (List.length (required self)))
              / (2 * Z.of_nat (List.length (required self))))%Z
         end.
Proof.
  unfold validate. fold (searchText_of self out).
  rewrite scan_headers_spec. cbn [bind app].
  eexists. split; [reflexivity|]. cbn [found missing compliant coverage].
  repeat split.
  destruct (required self) as [|h hs] eqn:Hreq; [reflexivity|].
  rewrite <- Hreq.
  assert (Hlen : (0 <? List.length (required self))%nat = true).
  { rewrite Hreq. reflexivity. }
  rewrite Hlen. apply Math_round_ratio. rewrite Hreq. cbn [List.length]. lia.
Qed.


End HeaderFacts.

Section HeaderCaseFacts.
Import HeaderChecker.

(** C10.  A checker built with [caseSensitive = true] still matches the
    pattern "header, optional white space, colon" without regard to case:
    a required header [h] that the output spells in another letter case
    ([h'], equal to [h] once both are lower-cased), followed by white space
    and a colon, is reported in [found]. *)
Theorem validate_colon_pattern_ignores_case :
  forall (req : list string) (strictness : bool) (h h' pre ws post : string),
    In h req ->
    toLowerCase h' = toLowerCase h ->
    all_space ws = true ->
    exists r,
      validate (mkChecker req strictness true) (VString (pre ++ h' ++ ws ++ ":" ++ post))
      = Return r
      /\ In h (found r).
Proof.
  intros req strictness h h' pre ws post Hin Hh Hws.
  destruct (validate_returns (mkChecker req strictness true)
              (pre ++ h' ++ ws ++ ":" ++ post)) as (r & Hr & Hf & _).
  exists r. split; [exact Hr|]. rewrite Hf. apply filter_In. split; [exact Hin|].
  unfold header_present, searchText_of. cbn [caseSensitive].
  rewrite (headerPattern_test h h' pre ws post Hh Hws). apply orb_true_r.
Qed.

End HeaderCaseFacts.

Section HeaderExamples.


Lemma validate_colon_pattern_ignores_case_witness :
  exists r,
    HeaderChecker.validate (HeaderChecker.mkChecker ["Plan"; "Gates"] true true)
      (VString "Next. PLAN : do it") = Return r
    /\ In "Plan" (HeaderChecker.found r).
Proof.
  apply (validate_colon_pattern_ignores_case ["Plan"; "Gates"] true
           "Plan" "PLAN" "Next. " " " " do it").
  - now left.
  - reflexivity.
  - reflexivity.
Defined.

End HeaderExamples.

(** ** EscalationDetector.check *)

Section EscalationFacts.
Import EscalationDetector.

Lemma find_triggers_filter lowerOutput ts acc :
  find_triggers lowerOutput ts acc
  = acc ++ filter (fun t => includes lowerOutput (toLowerCase t)) ts.
Proof.
  revert acc. induction ts as [|t ts IH]; intros acc; simpl.
  - now rewrite app_nil_r.
  - destruct (includes lowerOutput (toLowerCase t)); rewrite IH; [|reflexivity].
    now rewrite <- app_assoc.
Qed.

Lemma find_triggers_skip lowerOutput ts1 ts2 trigger acc :
  includes lowerOutput (toLowerCase trigger) = false ->
  find_triggers lowerOutput (ts1 ++ trigger :: ts2) acc
  = find_triggers lowerOutput (ts1 ++ ts2) acc.
Proof.
  intros Hno. rewrite !find_triggers_filter, !filter_app.
  cbn [filter]. now rewrite Hno.
Qed.

Lemma check_skip_trigger req thr dflt pre post trigger out :
  includes (toLowerCase out) (toLowerCase trigger) = false ->
  check (mkDetector req (pre ++ trigger :: post) thr dflt) (VString out)
  = check (mkDetector req (pre ++ post) thr dflt) (VString out).
Proof.
  intros Hno. unfold check. cbn [defaultTriggers customTriggers required].
  rewrite !app_assoc, (find_triggers_skip _ _ _ _ _ Hno). reflexivity.
Qed.

Lemma check_returns self out :
  exists r, check self (VString out) = Return r
            /\ confidence r == state_confidence (correct r)
            /\ triggers r
               = filter (fun t => includes (toLowerCase out) (toLowerCase t))
                        (defaultTriggers self ++ customTriggers self).
Proof.
  eexists. split; [reflexivity|]. cbn [confidence correct triggers]. split.
  - destruct (required self); try reflexivity.
    match goal with |- context [Bool.eqb ?x ?y] => destruct (Bool.eqb x y) end;
      reflexivity.
  - now rewrite find_triggers_filter.
Qed.

(** C2.  On every string output [check] returns, and the confidence it
    returns is 1 when [correct] is true, 0 when it is false and 1/2 when it
    is null.  Inserting into the custom triggers, at any place, a trigger
    that does not occur case-insensitively in the output leaves the whole
    result, the confidence included, unchanged. *)
Theorem check_confidence_state_based :
  forall (req : Js.value) (thr : option Q) (pre post : list string) (out : string),
  exists r,
    check (new (mkOptions req (Some (pre ++ post)) thr)) (VString out) = Return r
    /\ confidence r == state_confidence (correct r)
    /\ forall trigger,
         includes (toLowerCase out) (toLowerCase trigger) = false ->
         check (new (mkOptions req (Some (pre ++ trigger :: post)) thr)) (VString out)
         = Return r.
Proof.
  intros req thr pre post out.
  destruct (check_returns (new (mkOptions req (Some (pre ++ post)) thr)) out)
    as (r & Hr & Hc & _).
  exists r. repeat split; try assumption.
  intros trigger Hno. rewrite <- Hr. apply check_skip_trigger, Hno.
Qed.

Lemma check_confidence_state_based_witness :
  exists r,
    check (new (mkOptions (VBool true) (Some ["sign-off"]) None))
          (VString "FOP: need approval") = Return r
    /\ confidence r == 1
    /\ check (new (mkOptions (VBool true) (Some ["sign-off"; "veto"]) None))
             (VString "FOP: need approval") = Return r.
Proof.
  destruct (check_confidence_state_based (VBool true) None ["sign-off"] []
              "FOP: need approval") as (r & Hr & Hc & Hadd).
  exists r. split; [exact Hr|]. split.
  - rewrite Hc. injection Hr as <-. reflexivity.
  - apply (Hadd "veto"). reflexivity.
Defined.

(** C9.  The result of [check] does not depend on the [confidenceThreshold]
    option: two detectors built from options that differ only there give
    the same outcome on every output. *)
Theorem check_ignores_confidenceThreshold :
  forall (req : Js.value) (ts : option (list string)) (thr1 thr2 : option Q)
         (output : Js.value),
    check (new (mkOptions req ts thr1)) output
    = check (new (mkOptions req ts thr2)) output.
Proof. intros. destruct output; reflexivity. Qed.

End EscalationFacts.

(** ** DriftDetector.detect *)

Section DriftFacts.
Import DriftDetector.

Lemma scan_spec (st k kw : string) :
  k <> EmptyString ->
  forall (fuel j : nat) (ms : list entry) (ps : list Z),
    (j <= String.length st)%nat ->
    (List.length (occurrences_from k (drop j st) j) < fuel)%nat ->
    scan fuel st k kw (index_of_result (find_from k (drop j st) j)) ms ps
    = Return (ms ++ repeat (Some kw) (List.length (occurrences_from k (drop j st) j)),
              ps ++ map Z.of_nat (occurrences_from k (drop j st) j)).
Proof.
  intros Hk. induction fuel as [|fuel IH]; intros j ms ps Hj Hfuel; [lia|].
  cbn [scan]. destruct (find_from k (drop j st) j) as [i|] eqn:Hf.
  - destruct (occurrences_step k st Hk j i Hf) as [Hi Hocc].
    cbn [index_of_result]. replace (Z.of_nat i =? -1)%Z with false by lia.
    replace (Z.of_nat i + 1)%Z with (Z.of_nat (S i)) by lia.
    rewrite indexOf_from by lia. rewrite Hocc in *. cbn [List.length] in Hfuel.
    rewrite IH by lia. cbn [List.length repeat map].
    rewrite <- !app_assoc. reflexivity.
  - rewrite find_from_occurrences in Hf.
    destruct (occurrences_from k (drop j st) j); [|discriminate].
    cbn. now rewrite !app_nil_r.
Qed.

End DriftFacts.

Section DriftLoopFacts.
Import DriftDetector.

Lemma scan_lengths fuel st k kw :
  forall idx ms ps ms' ps',
    scan fuel st k kw idx ms ps = Return (ms', ps') ->
    (List.length ms' + List.length ps = List.length ms + List.length ps')%nat.
Proof.
  induction fuel as [|fuel IH]; intros idx ms ps ms' ps' H; cbn [scan] in H;
    [discriminate|].
  destruct (idx =? -1)%Z.
  - injection H as <- <-. lia.
  - apply IH in H. rewrite !length_app in H. cbn [List.length] in H. lia.
Qed.

Lemma scan_no_throw fuel st k kw :
  forall idx ms ps e, scan fuel st k kw idx ms ps <> Throw e.
Proof.
  induction fuel as [|fuel IH]; intros idx ms ps e; cbn [scan]; [discriminate|].
  destruct (idx =? -1)%Z; [discriminate|apply IH].
Qed.

Lemma keyword_loop_lengths fuel self out lex :
  forall ms ps ms' ps',
    keyword_loop fuel self out lex ms ps = Return (ms', ps') ->
    (List.length ms' + List.length ps = List.length ms + List.length ps')%nat.
Proof.
  induction lex as [|kw lex IH]; intros ms ps ms' ps' H; cbn [keyword_loop] in H.
  - injection H as <- <-. lia.
  - destruct (scan fuel _ _ kw _ ms ps) as [[ms1 ps1]| |] eqn:Hs; cbn [bind] in H;
      try discriminate.
    apply scan_lengths in Hs. apply IH in H. lia.
Qed.


Lemma keyword_loop_spec fuel self out lex :
  Forall nonempty lex ->
  (String.length out + 2 <= fuel)%nat ->
  forall ms ps,
    keyword_loop fuel self out lex ms ps
    = Return (ms ++ flat_map (keyword_entries self out) lex,
              ps ++ flat_map (keyword_positions self out) lex).
Proof.
  intros Hlex Hfuel. induction Hlex as [|kw lex Hkw Hlex IH]; intros ms ps.
  - cbn. now rewrite !app_nil_r.
  - cbn [keyword_loop flat_map].
    fold (drift_searchText self out) (drift_searchKeyword self kw).
    assert (Hk : drift_searchKeyword self kw <> EmptyString).
    { unfold drift_searchKeyword. destruct (caseSensitive self); [exact Hkw|].
      intros H. apply (proj1 (toLowerCase_empty kw)) in H. exact (Hkw H). }
    assert (Hlen : String.length (drift_searchText self out) = String.length out).
    { unfold drift_searchText. destruct (caseSensitive self);
        [reflexivity|apply toLowerCase_length]. }
    change 0%Z with (Z.of_nat 0). rewrite indexOf_from by lia.
    rewrite (scan_spec _ _ kw Hk fuel 0).
    + cbn [bind drop]. rewrite IH, <- !app_assoc.
      unfold keyword_entries at 2, keyword_positions at 2 3, occurrences.
      rewrite length_map. reflexivity.
    + lia.
    + cbn [drop].
      pose proof (occurrences_from_length (drift_searchKeyword self kw)
                    (drift_searchText self out) 0). lia.
Qed.

Lemma pattern_loop_flat_map self out ms :
  pattern_loop self out ms = ms ++ flat_map (patternMatches out) (patterns self).
Proof.
  unfold pattern_loop. revert ms.
  induction (patterns self) as [|p ps IH]; intros ms; cbn [fold_left flat_map].
  - now rewrite app_nil_r.
  - now rewrite IH, <- app_assoc.
Qed.

Lemma entry_eqb_spec (a b : entry) : reflect (a = b) (entry_eqb a b).
Proof.
  destruct a as [x|], b as [y|]; cbn; try (constructor; congruence).
  destruct (String.eqb_spec x y); constructor; congruence.
Qed.

End DriftLoopFacts.

Section DetectFacts.
Import DriftDetector.

Lemma detect_returns fuel self out o :
  Forall nonempty (activeLexicon self o) ->
  (String.length out + 2 <= fuel)%nat ->
  detect fuel self (VString out) o
  = Return
      (let ms := flat_map (keyword_entries self out) (activeLexicon self o)
                 ++ flat_map (patternMatches out) (patterns self) in
       {| count := List.length ms;
          matches := Js.uniq entry_eqb ms;
          positions := flat_map (keyword_positions self out) (activeLexicon self o) |}).
Proof.
  intros Hlex Hfuel. unfold detect.
  rewrite (keyword_loop_spec fuel self out _ Hlex Hfuel). cbn [bind app].
  now rewrite pattern_loop_flat_map.
Qed.


Lemma detect_inv fuel self out o r :
  detect fuel self (VString out) o = Return r ->
  exists ms,
    List.length ms = List.length (positions r)
    /\ count r = List.length (ms ++ flat_map (patternMatches out) (patterns self))
    /\ matches r = Js.uniq entry_eqb (ms ++ flat_map (patternMatches out) (patterns self)).
Proof.
  unfold detect.
  destruct (keyword_loop fuel self out (activeLexicon self o) [] []) as [[ms ps]|e'|] eqn:Hk;
    cbn [bind]; try discriminate.
  intros H. injection H as <-. cbn [count matches positions].
  apply keyword_loop_lengths in Hk. cbn [List.length] in Hk.
  exists ms. rewrite pattern_loop_flat_map. repeat split. lia.
Qed.

Lemma pattern_matched_length out ps :
  (0 < List.length (flat_map (patternMatches out) ps))%nat
  <-> exists p, In p ps /\ p out <> None.
Proof.
  induction ps as [|p ps IH]; cbn [flat_map List.length].
  - split; [lia|intros (p & [] & _)].
  - rewrite length_app. split.
    + intros H. destruct (p out) as [[m0 ms]|] eqn:Hp.
      * exists p. split; [now left|congruence].
      * unfold patternMatches at 1 in H. rewrite Hp in H. cbn [List.length] in H.
        destruct (proj1 IH ltac:(lia)) as (q & Hq & Hm). exists q. split; [now right|exact Hm].
    + intros (q & [<-|Hq] & Hm).
      * unfold patternMatches at 1. destruct (p out) as [[m0 ms]|]; [cbn; lia|congruence].
      * assert (0 < List.length (flat_map (patternMatches out) ps))%nat; [|lia].
        apply IH. now exists q.
Qed.

End DetectFacts.

Section Divergence.
Import DriftDetector.

Lemma indexOf_empty_nonneg (st : string) (p : Z) :
  (0 <= indexOf st EmptyString p)%Z.
Proof.
  unfold indexOf.
  destruct (drop _ st); cbn [find_from String.prefix]; lia.
Qed.

Lemma scan_empty_keyword (st kw : string) :
  forall (fuel : nat) (idx : Z) (ms : list entry) (ps : list Z),
    (0 <= idx)%Z -> scan fuel st EmptyString kw idx ms ps = OutOfFuel.
Proof.
  induction fuel as [|fuel IH]; intros idx ms ps Hidx; cbn [scan]; [reflexivity|].
  replace (idx =? -1)%Z with false by lia. apply IH, indexOf_empty_nonneg.
Qed.

(** With an empty string in the active lexicon the scan never ends. *)
Lemma keyword_loop_empty_keyword fuel self out lex :
  In EmptyString lex ->
  forall ms ps, keyword_loop fuel self out lex ms ps = OutOfFuel.
Proof.
  induction lex as [|kw lex IH]; intros Hin ms ps; [contradiction|].
  cbn [keyword_loop].
  destruct (string_dec kw EmptyString) as [->|Hne].
  - assert (Hk : (if caseSensitive self then EmptyString else toLowerCase EmptyString)
                 = EmptyString) by now destruct (caseSensitive self).
    rewrite Hk, scan_empty_keyword by apply indexOf_empty_nonneg. reflexivity.
  - destruct Hin as [Heq|Hin]; [congruence|].
    destruct (scan fuel _ _ kw _ ms ps) as [[ms1 ps1]|e|] eqn:Hs; cbn [bind].
    + now apply IH.
    + exfalso. exact (scan_no_throw _ _ _ _ _ _ _ _ Hs).
    + reflexivity.
Qed.

Lemma detect_empty_keyword fuel self out o :
  In EmptyString (activeLexicon self o) ->
  detect fuel self (VString out) o = OutOfFuel.
Proof.
  intros Hin. unfold detect. now rewrite keyword_loop_empty_keyword.
Qed.

End Divergence.

Section FuelFacts.
Import DriftDetector.

Lemma scan_fuel_mono (st k kw : string) :
  forall (fuel fuel' : nat) (idx : Z) (ms : list entry) (ps : list Z) x,
    (fuel <= fuel')%nat ->
    scan fuel st k kw idx ms ps = Return x ->
    scan fuel' st k kw idx ms ps = Return x.
Proof.
  induction fuel as [|fuel IH]; intros fuel' idx ms ps x Hle H; [discriminate|].
  destruct fuel' as [|fuel']; [lia|]. cbn [scan] in *.
  destruct (idx =? -1)%Z; [exact H|]. apply (IH fuel'); [lia|exact H].
Qed.

Lemma keyword_loop_fuel_mono (self : t) (out : string) (lex : list string) :
  forall (fuel fuel' : nat) (ms : list entry) (ps : list Z) x,
    (fuel <= fuel')%nat ->
    keyword_loop fuel self out lex ms ps = Return x ->
    keyword_loop fuel' self out lex ms ps = Return x.
Proof.
  induction lex as [|kw lex IH]; intros fuel fuel' ms ps x Hle H; [exact H|].
  cbn [keyword_loop] in *.
  destruct (scan fuel _ _ kw _ ms ps) as [[ms1 ps1]| |] eqn:Hs; try discriminate.
  rewrite (scan_fuel_mono _ _ _ _ _ _ _ _ _ Hle Hs). cbn [bind] in *.
  now apply (IH fuel).
Qed.

Lemma detect_fuel_mono (self : t) (out : string) (o : detect_options)
    (fuel fuel' : nat) (r : result) :
  (fuel <= fuel')%nat ->
  detect fuel self (VString out) o = Return r ->
  detect fuel' self (VString out) o = Return r.
Proof.
  intros Hle. unfold detect.
  destruct (keyword_loop fuel self out (activeLexicon self o) [] []) as [x| |] eqn:Hk;
    try discriminate.
  now rewrite (keyword_loop_fuel_mono _ _ _ _ _ _ _ _ Hle Hk).
Qed.

(** What [detect] returns, whenever it returns. *)
Lemma detect_result fuel self out o r :
  detect fuel self (VString out) o = Return r ->
  Forall nonempty (activeLexicon self o)
  /\ r = (let ms := flat_map (keyword_entries self out) (activeLexicon self o)
                    ++ flat_map (patternMatches out) (patterns self) in
          {| count := List.length ms;
             matches := Js.uniq entry_eqb ms;
             positions := flat_map (keyword_positions self out) (activeLexicon self o) |}).
Proof.
  intros Hr.
  assert (Hlex : Forall nonempty (activeLexicon self o)).
  { apply Forall_forall. intros kw Hin ->.
    rewrite (detect_empty_keyword fuel self out o Hin) in Hr. discriminate. }
  split; [exact Hlex|].
  pose proof (detect_fuel_mono self out o fuel (fuel + (String.length out + 2)) r
                ltac:(lia) Hr) as Hbig.
  rewrite (detect_returns _ self out o Hlex) in Hbig by lia.
  now injection Hbig.
Qed.

Lemma detect_returns_iff self out o :
  (exists fuel r, detect fuel self (VString out) o = Return r)
  <-> Forall nonempty (activeLexicon self o).
Proof.
  split.
  - intros (fuel & r & Hr). exact (proj1 (detect_result _ _ _ _ _ Hr)).
  - intros Hlex. exists (String.length out + 2)%nat. eexists.
    apply detect_returns; [exact Hlex|lia].
Qed.

End FuelFacts.

Section DetectTheorems.
Import DriftDetector.

(** C8.  Whenever [detect] returns, [count] is the number of positions
    plus the number of entries that the custom patterns matched; so
    [count >= positions.length], strictly exactly when some custom pattern
    matched, with equality when there are no patterns; and the matched
    entries are among [matches].  [detect] does return once the fuel exceeds
    the length of the output by two, provided no keyword of the active
    lexicon is empty. *)
Theorem detect_count_and_positions :
  forall (self : t) (out : string) (o : detect_options),
    (forall (fuel : nat) (r : result),
        detect fuel self (VString out) o = Return r ->
        count r
        = (List.length (positions r)
           + List.length (flat_map (patternMatches out) (patterns self)))%nat
        /\ (List.length (positions r) <= count r)%nat
        /\ ((List.length (positions r) < count r)%nat
            <-> exists p, In p (patterns self) /\ p out <> None)
        /\ (patterns self = [] -> count r = List.length (positions r))
        /\ (forall p e, In p (patterns self) -> In e (patternMatches out p) ->
                        In e (matches r)))
    /\ (Forall nonempty (activeLexicon self o) ->
        forall fuel : nat,
          (String.length out + 2 <= fuel)%nat ->
          exists r, detect fuel self (VString out) o = Return r).
Proof.
  intros self out o. split.
  - intros fuel r Hr. destruct (detect_inv _ _ _ _ _ Hr) as (ms & Hlen & Hcount & Hm).
    rewrite length_app, Hlen in Hcount.
    split; [exact Hcount|]. split; [lia|]. split; [|split].
    + rewrite <- pattern_matched_length. lia.
    + intros Hp. rewrite Hp in Hcount. cbn in Hcount. lia.
    + intros p e Hp He. rewrite Hm. apply (uniq_In entry_eqb entry_eqb_spec).
      apply in_or_app. right. apply in_flat_map. now exists p.
  - intros Hlex fuel Hfuel. eexists. apply detect_returns; assumption.
Qed.

Lemma map_of_nat_sorted (l : list nat) :
  StronglySorted lt l -> StronglySorted Z.lt (map Z.of_nat l).
Proof.
  induction 1 as [|x l Hs IH Hx]; cbn [map]; constructor; [exact IH|].
  apply Forall_forall. intros z Hz. apply in_map_iff in Hz as (y & <- & Hy).
  rewrite Forall_forall in Hx. apply Hx in Hy. lia.
Qed.

(** C4, as amended.  Whenever [detect] returns, [positions] is the
    concatenation, keyword by keyword in the order of the active lexicon,
    of the start indices of that keyword in the searched text; the indices
    of one keyword are all its start indices, in strictly ascending order.
    With a single keyword the whole array is ascending; across keywords it
    follows the lexicon, not the document.  [detect] does return once the
    fuel exceeds the length of the output by two, provided no keyword of the
    active lexicon is empty. *)
Theorem detect_positions_by_keyword :
  forall (self : t) (out : string) (o : detect_options),
    (forall (fuel : nat) (r : result),
        detect fuel self (VString out) o = Return r ->
        positions r = flat_map (keyword_positions self out) (activeLexicon self o)
        /\ (forall kw, activeLexicon self o = [kw] -> StronglySorted Z.lt (positions r)))
    /\ (forall kw, StronglySorted Z.lt (keyword_positions self out kw))
    /\ (forall kw i,
           In i (keyword_positions self out kw)
           <-> (0 <= i <= Z.of_nat (String.length out))%Z
               /\ String.prefix (drift_searchKeyword self kw)
                    (drop (Z.to_nat i) (drift_searchText self out)) = true)
    /\ (Forall nonempty (activeLexicon self o) ->
        forall fuel : nat,
          (String.length out + 2 <= fuel)%nat ->
          exists r, detect fuel self (VString out) o = Return r).
Proof.
  intros self out o.
  assert (Hsorted : forall kw, StronglySorted Z.lt (keyword_positions self out kw)).
  { intros kw. apply map_of_nat_sorted, occurrences_from_sorted. }
  assert (Hlen : String.length (drift_searchText self out) = String.length out).
  { unfold drift_searchText. destruct (caseSensitive self);
      [reflexivity|apply toLowerCase_length]. }
  split; [|split; [exact Hsorted|split]].
  - intros fuel r Hr. destruct (detect_result _ _ _ _ _ Hr) as [_ ->].
    cbn [positions]. split; [reflexivity|].
    intros kw Hkw. rewrite Hkw. cbn [flat_map]. rewrite app_nil_r. apply Hsorted.
  - intros kw i. unfold keyword_positions, occurrences. rewrite in_map_iff. split.
    + intros (j & <- & Hj). apply occurrences_from_spec in Hj as [Hb Hp].
      rewrite Nat.sub_0_r in Hp. rewrite Nat2Z.id. split; [lia|exact Hp].
    + intros [Hb Hp]. exists (Z.to_nat i). split; [lia|].
      apply occurrences_from_spec. rewrite Nat.sub_0_r. split; [lia|exact Hp].
  - intros Hlex fuel Hfuel. eexists. apply detect_returns; assumption.
Qed.

End DetectTheorems.

Section DriftExamples.

Lemma detect_count_and_positions_witness :
  exists r,
    DriftDetector.detect 30 (DriftDetector.mkDetector ["deploy"] false [rm_pattern])
      (VString "deploy, then rm -rf /") DriftDetector.no_options = Return r
    /\ DriftDetector.count r = 2%nat
    /\ (List.length (DriftDetector.positions r) < DriftDetector.count r)%nat.
Proof.
  eexists. split; [vm_compute; reflexivity|]. split; [reflexivity|].
  apply (proj1 (detect_count_and_positions
                  (DriftDetector.mkDetector ["deploy"] false [rm_pattern])
                  "deploy, then rm -rf /" DriftDetector.no_options) 30%nat).
  - vm_compute. reflexivity.
  - exists rm_pattern. split; [now left|]. vm_compute. discriminate.
Defined.

Lemma detect_positions_by_keyword_witness :
  exists r,
    DriftDetector.detect 40 (DriftDetector.mkDetector ["install"; "deploy"] false [])
      (VString "Deploy, then deploy after install") DriftDetector.no_options
    = Return r
    /\ DriftDetector.positions r = [26; 0; 13]%Z.
Proof.
  eexists. split; [vm_compute; reflexivity|].
  apply (proj1 (detect_positions_by_keyword
                  (DriftDetector.mkDetector ["install"; "deploy"] false [])
                  "Deploy, then deploy after install" DriftDetector.no_options) 40%nat).
  vm_compute. reflexivity.
Defined.

Lemma detect_positions_counterexample :
  exists d r,
    DriftDetector.new (DriftDetector.mkOptions (Some ["b"; "a"]) None None) = Return d
    /\ DriftDetector.detect 4 d (VString "ab") DriftDetector.no_options = Return r
    /\ DriftDetector.positions r = [1; 0]%Z
    /\ ~ Sorted Z.le (DriftDetector.positions r).
Proof.
  eexists. eexists. split; [reflexivity|]. split; [vm_compute; reflexivity|].
  split; [reflexivity|]. cbn [DriftDetector.positions].
  intros H. inversion H as [|? ? _ Hhd]; subst. inversion Hhd; subst. lia.
Qed.

End DriftExamples.

(** ** RetryPressure.compute *)

Section PhraseFacts.
Import RegExp.

Lemma phrases_ok : Forall phrase_ok (RetryPressure.uncertaintyPhrases RetryPressure.new).
Proof. repeat (constructor; [split; vm_compute; reflexivity|]). constructor. Qed.

Lemma substring_app (a b : string) (m : nat) :
  String.substring 0 (String.length a + m) (a ++ b) = (a ++ String.substring 0 m b)%string.
Proof. induction a as [|c a IH]; cbn; [reflexivity|now rewrite IH]. Qed.

Lemma substring_zero (s : string) : String.substring 0 0 s = EmptyString.
Proof. destruct s; reflexivity. Qed.

Lemma match_phrase_some (p : string) :
  wf_phrase p = true ->
  forall (prev : option ascii) (s : string),
    String.prefix p (toLowerCase s) = true ->
    match_here true (phrase_items p) prev s <> None.
Proof.
  induction p as [|c p IH]; intros Hwf prev s Hpre; [discriminate|].
  cbn [wf_phrase] in Hwf. apply andb_prop in Hwf as [Hc Hwf].
  destruct s as [|d s]; [discriminate|].
  cbn [toLowerCase String.prefix] in Hpre.
  destruct (ascii_dec c (lower_char d)) as [Hcd|]; [|discriminate].
  cbn [phrase_items]. destruct (Ascii.eqb_spec c " ") as [->|Hns].
  - symmetry in Hcd. apply lower_char_space in Hcd. subst d.
    cbn [match_here atom_matches]. change (is_space " ") with true. cbv iota.
    intros H.
    destruct (star_loop true Space (match_here true (phrase_items p)) (Some " "%char) s)
      eqn:Hs; [discriminate|].
    revert Hs. apply (star_loop_spaces true _ EmptyString); [reflexivity|].
    cbn [last_char]. now apply IH.
  - apply andb_prop in Hc as [_ Hlow]. apply Ascii.eqb_eq in Hlow.
    cbn [match_here atom_matches canonicalize].
    assert (Hup : upper_char c = upper_char d).
    { apply lower_eq_upper_eq. now rewrite Hlow. }
    rewrite Hup, Ascii.eqb_refl.
    specialize (IH Hwf (Some d) s Hpre).
    destruct (match_here true (phrase_items p) (Some d) s); [discriminate|contradiction].
Qed.

Lemma star_loop_inv (i : bool) (k : option ascii -> string -> option nat) (s : string) :
  forall (prev : option ascii) (n : nat),
    star_loop i Space k prev s = Some n ->
    exists ws rest m,
      s = (ws ++ rest)%string /\ all_space ws = true
      /\ k (last_char prev ws) rest = Some m /\ n = (String.length ws + m)%nat.
Proof.
  induction s as [|c s IH]; intros prev n H; cbn [star_loop] in H.
  - exists EmptyString, EmptyString, n. repeat split. exact H.
  - destruct (atom_matches i Space c) eqn:Hc.
    + destruct (star_loop i Space k (Some c) s) as [n'|] eqn:Hs.
      * injection H as <-. destruct (IH _ _ Hs) as (ws & rest & m & -> & Hws & Hk & ->).
        exists (String c ws), rest, m. cbn [atom_matches] in Hc.
        repeat split; try assumption. cbn. now rewrite Hc.
      * exists EmptyString, (String c s), n. repeat split. exact H.
    + exists EmptyString, (String c s), n. repeat split. exact H.
Qed.

Lemma squash_space_run (ws : string) :
  forall (d d' : ascii) (rest : string),
    is_space d = true -> all_space ws = true -> is_space d' = false ->
    squash (String d (ws ++ String d' rest)) = String " " (squash (String d' rest)).
Proof.
  induction ws as [|w ws IH]; intros d d' rest Hd Hws Hd'.
  - cbn [append squash]. now rewrite Hd, Hd'.
  - cbn in Hws. apply andb_prop in Hws as [Hw Hws].
    change (squash (String d (String w ws ++ String d' rest)))
      with (if is_space d
            then if is_space w then squash (String w (ws ++ String d' rest))
                 else String " " (squash (String w (ws ++ String d' rest)))
            else String (lower_char d) (squash (String w (ws ++ String d' rest)))).
    rewrite Hd, Hw. now apply IH.
Qed.

Lemma match_phrase_squash (p : string) :
  wf_phrase p = true ->
  forall (prev : option ascii) (s : string) (n : nat),
    match_here true (phrase_items p) prev s = Some n ->
    squash (String.substring 0 n s) = p.
Proof.
  induction p as [|c p IH]; intros Hwf prev s n H.
  - cbn in H. injection H as <-. now rewrite substring_zero.
  - cbn [wf_phrase] in Hwf. apply andb_prop in Hwf as [Hc Hwf].
    cbn [phrase_items] in H. destruct (Ascii.eqb_spec c " ") as [->|Hns].
    + destruct s as [|d s]; cbn [match_here] in H; [discriminate|].
      destruct (atom_matches true Space d) eqn:Hd; [|discriminate].
      cbn [atom_matches] in Hd.
      destruct (star_loop true Space (match_here true (phrase_items p)) (Some d) s)
        as [n'|] eqn:Hs; [|discriminate].
      cbn in H. injection H as <-.
      destruct (star_loop_inv _ _ _ _ _ Hs) as (ws & rest & m & -> & Hws & Hk & ->).
      destruct p as [|c' p]; [discriminate|].
      assert (Hc' : Ascii.eqb c' " " = false) by now destruct (Ascii.eqb c' " ").
      pose proof (IH Hwf _ _ _ Hk) as Hsq.
      cbn [wf_phrase] in Hwf. rewrite Hc' in Hwf.
      apply andb_prop in Hwf as [Hwf' _]. apply andb_prop in Hwf' as [Hsp _].
      cbn [phrase_items] in Hk. rewrite Hc' in Hk.
      destruct rest as [|d' rest]; cbn [match_here] in Hk; [discriminate|].
      destruct (atom_matches true (Chr c') d') eqn:Hm; [|discriminate].
      cbn [atom_matches canonicalize] in Hm. apply Ascii.eqb_eq in Hm.
      assert (Hd' : is_space d' = false).
      { rewrite <- is_space_upper, <- Hm, is_space_upper. now destruct (is_space c'). }
      destruct (match_here true (phrase_items p) (Some d') rest) as [m'|]; [|discriminate].
      cbn in Hk. injection Hk as <-.
      change (String.substring 0 (S (String.length ws + S m')) (String d (ws ++ String d' rest)))
        with (String d (String.substring 0 (String.length ws + S m') (ws ++ String d' rest))).
      rewrite substring_app.
      change (String.substring 0 (S m') (String d' rest))
        with (String d' (String.substring 0 m' rest)) in *.
      rewrite squash_space_run by assumption. now rewrite Hsq.
    + apply andb_prop in Hc as [Hsp Hlow]. apply Ascii.eqb_eq in Hlow.
      destruct s as [|d s]; cbn [match_here] in H; [discriminate|].
      destruct (atom_matches true (Chr c) d) eqn:Hm; [|discriminate].
      cbn [atom_matches canonicalize] in Hm. apply Ascii.eqb_eq in Hm.
      destruct (match_here true (phrase_items p) (Some d) s) as [n'|] eqn:Hn;
        [|discriminate].
      cbn in H. injection H as <-.
      change (String.substring 0 (S n') (String d s))
        with (String d (String.substring 0 n' s)).
      assert (Hd : is_space d = false).
      { rewrite <- is_space_upper, <- Hm, is_space_upper. now destruct (is_space c). }
      cbn [squash]. rewrite Hd, (IH Hwf _ _ _ Hn).
      f_equal. rewrite <- Hlow. symmetry. now apply upper_eq_lower_eq.
Qed.

Lemma exec_from_inv (re : t) (s : string) :
  forall (prev : option ascii) (idx i : nat) (m : string),
    exec_from re prev s idx = Some (i, m) ->
    exists prev' s' n,
      match_here (ignoreCase re) (items re) prev' s' = Some n
      /\ m = String.substring 0 n s'.
Proof.
  induction s as [|c s IH]; intros prev idx i m H; cbn [exec_from] in H.
  - destruct (match_here _ _ prev EmptyString) as [n|] eqn:Hn; [|discriminate].
    injection H as _ <-. now exists prev, EmptyString, n.
  - destruct (match_here _ _ prev (String c s)) as [n|] eqn:Hn.
    + injection H as _ <-. now exists prev, (String c s), n.
    + now apply IH in H.
Qed.

Lemma find_from_split (k out : string) :
  forall (i j : nat),
    find_from k (toLowerCase out) i = Some j ->
    exists pre s, out = (pre ++ s)%string /\ String.prefix k (toLowerCase s) = true.
Proof.
  induction out as [|c out IH]; intros i j H; cbn [toLowerCase find_from] in H.
  - destruct (String.prefix k EmptyString) eqn:Hp; [|discriminate].
    now exists EmptyString, EmptyString.
  - destruct (String.prefix k (String (lower_char c) (toLowerCase out))) eqn:Hp.
    + now exists EmptyString, (String c out).
    + destruct (IH _ _ H) as (pre & s & -> & Hs). now exists (String c pre), s.
Qed.

Lemma includes_split (k out : string) :
  includes (toLowerCase out) k = true ->
  exists pre s, out = (pre ++ s)%string /\ String.prefix k (toLowerCase s) = true.
Proof.
  unfold includes. change 0%Z with (Z.of_nat 0). rewrite indexOf_from by lia.
  cbn [drop]. destruct (find_from k (toLowerCase out) 0) as [j|] eqn:Hf.
  - intros _. exact (find_from_split _ _ _ _ Hf).
  - cbn. discriminate.
Qed.

End PhraseFacts.

Section RetryFacts.
Import RetryPressure.

Lemma already_found_In (fm : list found_match) (m : string) :
  already_found fm m = true <-> In m (map text fm).
Proof.
  unfold already_found. rewrite existsb_exists, in_map_iff. split.
  - intros (x & Hx & Heq). apply String.eqb_eq in Heq. now exists x.
  - intros (x & Heq & Hx). exists x. split; [exact Hx|]. now apply String.eqb_eq.
Qed.

Lemma phrase_step_spec (out : string) (st : counters) (p : string) :
  phrase_ok p ->
  (forall x, In x (foundMatches st) -> squash (text x) <> p) ->
  exists st',
    phrase_step out (toLowerCase out) st p = Return st'
    /\ uncertaintyCount st'
       = (uncertaintyCount st + if includes (toLowerCase out) p then 1 else 0)%nat
    /\ todoCount st' = todoCount st
    /\ forall x, In x (foundMatches st') ->
                 In x (foundMatches st) \/ squash (text x) = p.
Proof.
  intros [Hcomp Hwf] Hfresh. unfold phrase_step.
  destruct (includes (toLowerCase out) p) eqn:Hinc.
  2:{ exists st. repeat split; [lia|now left]. }
  fold (phrase_pattern p). rewrite Hcomp.
  unfold RegExp.string_match. cbn [RegExp.global].
  destruct (includes_split _ _ Hinc) as (pre & s & -> & Hpre).
  pose proof (match_phrase_some p Hwf (last_char None pre) s Hpre) as Hsome.
  pose proof (exec_from_finds (RegExp.mkRegExp (phrase_items p) true false) pre None s 0
                Hsome) as Hex.
  destruct (RegExp.exec_from _ None (pre ++ s) 0) as [[i m]|] eqn:He; [|contradiction].
  destruct (exec_from_inv _ _ _ _ _ _ He) as (prev' & s' & n & Hn & ->).
  cbn [RegExp.ignoreCase RegExp.items] in Hn.
  pose proof (match_phrase_squash p Hwf _ _ _ Hn) as Hsq.
  destruct (already_found (foundMatches st) (String.substring 0 n s')) eqn:Haf.
  - exfalso. apply already_found_In in Haf. apply in_map_iff in Haf as (x & Hx & Hin).
    apply (Hfresh x Hin). now rewrite Hx.
  - cbn [negb]. eexists. split; [reflexivity|].
    cbn [uncertaintyCount todoCount foundMatches]. repeat split; [lia|].
    intros x Hx. apply in_app_or in Hx as [Hx|[<-|[]]]; [now left|now right].
Qed.

Lemma phrase_loop_spec (out : string) (ps : list string) :
  Forall phrase_ok ps -> NoDup ps ->
  forall st,
    (forall x p, In x (foundMatches st) -> In p ps -> squash (text x) <> p) ->
    exists st',
      phrase_loop out (toLowerCase out) st ps = Return st'
      /\ uncertaintyCount st'
         = (uncertaintyCount st
            + List.length (filter (includes (toLowerCase out)) ps))%nat
      /\ todoCount st' = todoCount st
      /\ forall x, In x (foundMatches st') ->
                   In x (foundMatches st) \/ In (squash (text x)) ps.
Proof.
  intros Hok. induction Hok as [|p ps Hp Hps IH]; intros Hnd st Hfresh.
  - exists st. cbn. repeat split; [lia|now left].
  - inversion Hnd as [|? ? Hnotin Hnd']; subst.
    destruct (phrase_step_spec out st p Hp) as (st1 & H1 & Hu1 & Ht1 & Hf1).
    { intros x Hx. apply (Hfresh x p Hx). now left. }
    destruct (IH Hnd' st1) as (st' & H' & Hu' & Ht' & Hf').
    { intros x q Hx Hq. destruct (Hf1 x Hx) as [Hold|Hnew].
      - apply (Hfresh x q Hold). now right.
      - rewrite Hnew. intros ->. contradiction. }
    exists st'. cbn [phrase_loop]. rewrite H1. cbn [bind]. split; [exact H'|].
    cbn [filter]. split; [|split; [congruence|]].
    + rewrite Hu', Hu1. destruct (includes (toLowerCase out) p); cbn [List.length]; lia.
    + intros x Hx. destruct (Hf' x Hx) as [Hx1|Hin]; [|right; now right].
      destruct (Hf1 x Hx1) as [Hold|Hnew]; [now left|right; now left].
Qed.

End RetryFacts.

Section PlaceholderFacts.
Import RegExp.

Lemma match_here_literal_inv (w : string) :
  forall (its : list item) (prev : option ascii) (s : string) (n : nat),
    match_here true (literal_items w ++ its) prev s = Some n ->
    exists h' rest m,
      s = (h' ++ rest)%string /\ toLowerCase h' = toLowerCase w
      /\ match_here true its (last_char prev h') rest = Some m
      /\ n = (String.length w + m)%nat.
Proof.
  induction w as [|c w IH]; intros its prev s n H.
  - exists EmptyString, s, n. repeat split. exact H.
  - cbn [literal_items app] in H. destruct s as [|d s]; cbn [match_here] in H;
      [discriminate|].
    destruct (atom_matches true (Chr c) d) eqn:Hm; [|discriminate].
    cbn [atom_matches canonicalize] in Hm. apply Ascii.eqb_eq in Hm.
    destruct (match_here true (literal_items w ++ its) (Some d) s) as [n'|] eqn:Hn;
      [|discriminate].
    cbn in H. injection H as <-.
    destruct (IH _ _ _ _ Hn) as (h' & rest & m & -> & Hlow & Hk & ->).
    exists (String d h'), rest, m. repeat split; try assumption.
    cbn [toLowerCase]. rewrite Hlow. f_equal. symmetry. now apply upper_eq_lower_eq.
Qed.

Lemma match_all_from_inv (re : t) (s : string) :
  forall (prev : option ascii) (skip : nat) (m : string),
    In m (match_all_from re prev s skip) ->
    exists prev' s' n,
      match_here (ignoreCase re) (items re) prev' s' = Some n
      /\ m = String.substring 0 n s'.
Proof.
  induction s as [|c s IH]; intros prev skip m H.
  - destruct skip as [|skip]; cbn [match_all_from] in H; [|contradiction].
    destruct (match_here _ _ prev EmptyString) as [n|] eqn:Hn; [|contradiction].
    destruct H as [<-|[]]. now exists prev, EmptyString, n.
  - destruct skip as [|skip]; cbn [match_all_from] in H; [|now apply IH in H].
    destruct (match_here _ _ prev (String c s)) as [n|] eqn:Hn.
    + destruct H as [<-|H]; [now exists prev, (String c s), n|now apply IH in H].
    + now apply IH in H.
Qed.

Lemma no_space_toLowerCase (s : string) : no_space (toLowerCase s) = no_space s.
Proof.
  induction s as [|c s IH]; cbn [toLowerCase no_space]; [reflexivity|].
  now rewrite is_space_lower, IH.
Qed.

Lemma squash_no_space (s : string) : no_space s = true -> squash s = toLowerCase s.
Proof.
  induction s as [|c s IH]; cbn [no_space squash toLowerCase]; [reflexivity|].
  intros H. apply andb_prop in H as [Hc Hs].
  destruct (is_space c); [discriminate|]. now rewrite IH.
Qed.

Lemma word_match_squash (w : string) (prev : option ascii) (s : string) (n : nat) :
  no_space w = true ->
  match_here true (word_items w) prev s = Some n ->
  squash (String.substring 0 n s) = toLowerCase w.
Proof.
  intros Hw H. unfold word_items in H. cbn [match_here] in H.
  destruct (xorb (word_before prev) (word_after s)); [|discriminate].
  destruct (match_here_literal_inv _ _ _ _ _ H) as (h' & rest & m & -> & Hlow & Hk & ->).
  cbn [match_here] in Hk.
  destruct (xorb _ _) in Hk; [|discriminate]. injection Hk as <-.
  assert (Hlen : String.length w = String.length h').
  { rewrite <- (toLowerCase_length w), <- Hlow. apply toLowerCase_length. }
  rewrite Hlen, substring_app, substring_zero.
  assert (Happ : forall a : string, (a ++ EmptyString)%string = a).
  { induction a as [|x a IHa]; cbn; [reflexivity|now rewrite IHa]. }
  rewrite Happ, squash_no_space; [exact Hlow|].
  now rewrite <- no_space_toLowerCase, Hlow, no_space_toLowerCase.
Qed.

Lemma placeholderPatterns_words :
  RetryPressure.placeholderPatterns RetryPressure.new
  = map (fun w => mkRegExp (word_items w) true true) ["TODO"; "TBD"; "FIXME"].
Proof. reflexivity. Qed.

Lemma placeholder_texts_squash (out m : string) :
  In m (placeholder_texts out) -> In (squash m) ["todo"; "tbd"; "fixme"].
Proof.
  unfold placeholder_texts. rewrite placeholderPatterns_words, in_flat_map.
  intros (re & Hre & Hm). apply in_map_iff in Hre as (w & <- & Hw).
  unfold RetryPressure.pattern_matches, string_match in Hm. cbn [global] in Hm.
  assert (Hin : In m (match_all_from (mkRegExp (word_items w) true true) None out 0)).
  { destruct (match_all_from _ None out 0); [contradiction|exact Hm]. }
  destruct (match_all_from_inv _ _ _ _ _ Hin) as (prev' & s' & n & Hn & ->).
  cbn [ignoreCase items] in Hn.
  destruct Hw as [<-|[<-|[<-|[]]]].
  - rewrite (word_match_squash "TODO" _ _ _ eq_refl Hn). cbn. tauto.
  - rewrite (word_match_squash "TBD" _ _ _ eq_refl Hn). cbn. tauto.
  - rewrite (word_match_squash "FIXME" _ _ _ eq_refl Hn). cbn. tauto.
Qed.

End PlaceholderFacts.

Section CountFacts.
Import RetryPressure.

Lemma already_found_mem (fm : list found_match) (m : string) :
  already_found fm m = Js.mem String.eqb m (map text fm).
Proof.
  destruct (already_found fm m) eqn:H1, (Js.mem String.eqb m (map text fm)) eqn:H2;
    try reflexivity.
  - apply already_found_In, (mem_In String.eqb String.eqb_spec) in H1. congruence.
  - apply (mem_In String.eqb String.eqb_spec), already_found_In in H2. congruence.
Qed.

Lemma placeholder_fold (out : string) (ms : list string) :
  forall st,
    let st' := fold_left (placeholder_step out) ms st in
    todoCount st'
    = (todoCount st
       + List.length (Js.uniq_acc String.eqb (map text (foundMatches st)) ms))%nat
    /\ uncertaintyCount st' = uncertaintyCount st.
Proof.
  induction ms as [|m ms IH]; intros st; cbn [fold_left Js.uniq_acc].
  - cbn. split; [lia|reflexivity].
  - unfold placeholder_step at 2 4. rewrite already_found_mem.
    destruct (Js.mem String.eqb m (map text (foundMatches st))) eqn:Hm; cbn [negb].
    + apply IH.
    + destruct (IH {| foundMatches :=
                        foundMatches st ++ [mkFound m (indexOf out m 0) placeholder];
                      uncertaintyCount := uncertaintyCount st;
                      todoCount := S (todoCount st) |}) as [Ht Hu].
      cbn [todoCount uncertaintyCount foundMatches] in Ht, Hu.
      split; [|exact Hu]. rewrite Ht, map_app. cbn [map text List.length].
      rewrite (uniq_acc_ext String.eqb String.eqb_spec ms
                 (map text (foundMatches st) ++ [m]) (m :: map text (foundMatches st))).
      * lia.
      * intros x _. rewrite in_app_iff. cbn [In]. tauto.
Qed.

Lemma placeholder_loop_flat (out : string) (pats : list RegExp.t) :
  forall st,
    placeholder_loop out st pats
    = fold_left (placeholder_step out) (flat_map (pattern_matches out) pats) st.
Proof.
  unfold placeholder_loop. induction pats as [|p pats IH]; intros st; cbn [fold_left flat_map].
  - reflexivity.
  - now rewrite fold_left_app, IH.
Qed.

Lemma uncertaintyPhrases_NoDup : NoDup (uncertaintyPhrases new).
Proof.
  repeat (constructor; [cbn; intuition discriminate|]). constructor.
Qed.

Lemma count_spec (out : string) :
  exists st,
    count new out = Return st
    /\ uncertaintyCount st = List.length (phrases_present out)
    /\ todoCount st = List.length (Js.uniq String.eqb (placeholder_texts out)).
Proof.
  unfold count.
  destruct (phrase_loop_spec out (uncertaintyPhrases new) phrases_ok
              uncertaintyPhrases_NoDup (mkCounters [] 0 0))
    as (st1 & H1 & Hu1 & Ht1 & Hf1).
  { intros x p []. }
  rewrite H1. cbn [bind]. eexists. split; [reflexivity|].
  rewrite placeholder_loop_flat. fold (placeholder_texts out).
  destruct (placeholder_fold out (placeholder_texts out) st1) as [Ht Hu].
  cbn zeta in Ht, Hu. rewrite Ht, Hu, Hu1, Ht1. cbn [uncertaintyCount todoCount].
  split; [reflexivity|]. unfold Js.uniq.
  rewrite (uniq_acc_ext String.eqb String.eqb_spec (placeholder_texts out)
             (map text (foundMatches st1)) []); [reflexivity|].
  intros m Hm. split; [|intros []].
  intros Hin. apply in_map_iff in Hin as (x & <- & Hx).
  apply placeholder_texts_squash in Hm.
  destruct (Hf1 x Hx) as [[]|Hp].
  cbn in Hm, Hp. intuition congruence.
Qed.

End CountFacts.

Section NormalizedFacts.
Import RetryPressure.

Lemma Qfloor_half (n : Z) : Qfloor (inject_Z n + (1 # 2)) = n.
Proof.
  assert (H : inject_Z n + (1 # 2) == inject_Z (2 * n + 1) / inject_Z 2).
  { rewrite inject_Z_plus, inject_Z_mult. field. }
  rewrite (Qfloor_comp _ _ H), <- Zdiv_Qdiv.
  symmetry. apply Z.div_unique with (r := 1%Z); lia.
Qed.

Lemma toFixed2_hundredths (x : Q) (n : Z) :
  (0 <= n)%Z -> x == inject_Z n / 100 -> toFixed2 x == x.
Proof.
  intros Hn Hx. unfold toFixed2.
  assert (Hpos : Qle_bool 0 x = true).
  { apply Qle_bool_iff. rewrite Hx. apply Qle_shift_div_l; [reflexivity|].
    rewrite Qmult_0_l. change 0 with (inject_Z 0). now rewrite <- Zle_Qle. }
  rewrite Hpos.
  assert (H : x * 100 + (1 # 2) == inject_Z n + (1 # 2)).
  { rewrite Hx. field. }
  rewrite (Qfloor_comp _ _ H), Qfloor_half. now rewrite Hx.
Qed.

Lemma normalizedScore_fixed (st : counters) :
  toFixed2 (normalizedScore new st) == normalizedScore new st.
Proof.
  unfold normalizedScore, Math_min. cbn [uncertaintyPenalty todoPenalty new].
  set (u := Z.of_nat (uncertaintyCount st)). set (t := Z.of_nat (todoCount st)).
  destruct (Q.min_spec (inject_Z u * (1 # 10) + inject_Z t * (2 # 10)) 1) as [[_ H]|[_ H]].
  - apply (toFixed2_hundredths _ (10 * u + 20 * t)); [lia|].
    rewrite H, inject_Z_plus, !inject_Z_mult. field.
  - apply (toFixed2_hundredths _ 100); [lia|]. rewrite H. reflexivity.
Qed.

Lemma compute_returns (out : string) :
  exists r st,
    compute new (VString out) = Return r
    /\ count new out = Return st
    /\ normalized r == normalizedScore new st
    /\ score r = Math_round ((1 - normalizedScore new st) * 100).
Proof.
  destruct (count_spec out) as (st & Hst & _).
  unfold compute. rewrite Hst. cbn [bind].
  eexists. exists st. split; [reflexivity|]. split; [reflexivity|].
  cbn [normalized score]. split; [apply normalizedScore_fixed|reflexivity].
Qed.

(** C1, as amended.  On every string output [compute] returns.  Each
    uncertainty phrase that occurs in the lower-cased output adds one to
    [uncertaintyCount]; each distinct matched text of the placeholder
    patterns adds one to [todoCount], a text matched again adds nothing;
    and [normalized = min(0.1 * uncertaintyCount + 0.2 * todoCount, 1)]. *)
Theorem compute_counts_distinct_placeholder_texts :
  forall out : string,
  exists r st,
    compute new (VString out) = Return r
    /\ count new out = Return st
    /\ uncertaintyCount st = List.length (phrases_present out)
    /\ todoCount st = List.length (Js.uniq String.eqb (placeholder_texts out))
    /\ normalized r
       == Qmin ((1 # 10) * inject_Z (Z.of_nat (uncertaintyCount st))
                + (2 # 10) * inject_Z (Z.of_nat (todoCount st))) 1.
Proof.
  intros out. destruct (compute_returns out) as (r & st & Hr & Hst & Hn & _).
  destruct (count_spec out) as (st' & Hst' & Hu & Ht).
  rewrite Hst in Hst'. injection Hst' as <-.
  exists r, st. repeat split; try assumption.
  rewrite Hn. unfold normalizedScore, Math_min. cbn [uncertaintyPenalty todoPenalty new].
  apply Q.min_compat; [|reflexivity]. ring.
Qed.

End NormalizedFacts.

Section RetryExamples.

Lemma compute_multiplicity_counterexample :
  placeholder_texts "TODO TODO" = ["TODO"; "TODO"]
  /\ phrases_present "TODO TODO" = []
  /\ exists r,
       RetryPressure.compute RetryPressure.new (VString "TODO TODO") = Return r
       /\ ~ RetryPressure.normalized r
            == Qmin ((1 # 10) * inject_Z 0 + (2 # 10) * inject_Z 2) 1.
Proof.
  split; [reflexivity|]. split; [reflexivity|].
  eexists. split; [vm_compute; reflexivity|].
  intros H. vm_compute in H. discriminate.
Qed.

End RetryExamples.

(** ** computeReduction *)

Section ReductionFacts.

Lemma computeReduction_counts (b g : Z) :
  (0 < b)%Z ->
  DriftDetector.computeReduction (inject_Z b) (inject_Z g)
  = ((200 * (b - g) + b) / (2 * b))%Z.
Proof.
  intros Hb. unfold DriftDetector.computeReduction.
  assert (Hz : Qeq_bool (inject_Z b) 0 = false).
  { apply not_true_iff_false. intros H. apply Qeq_bool_iff in H.
    apply (inject_Z_injective b 0) in H. lia. }
  rewrite Hz. cbn [andb].
  rewrite <- Math_round_ratio by assumption.
  unfold Math_round. apply Qfloor_comp.
  unfold Z.sub. rewrite inject_Z_plus, inject_Z_opp. reflexivity.
Qed.

End ReductionFacts.

Section ReductionSign.

Lemma Qeq_bool_inject_Z_0 (z : Z) : Qeq_bool (inject_Z z) 0 = (z =? 0)%Z.
Proof.
  destruct (Z.eqb_spec z 0) as [->|Hz]; [reflexivity|].
  apply not_true_iff_false. intros H. apply Qeq_bool_iff in H.
  apply (inject_Z_injective z 0) in H. contradiction.
Qed.

(** C5, as amended.  For counts [b] and [g]: [computeReduction(0, g) = -100]
    when [g > 0], [computeReduction(0, 0) = 0], and for [b > 0] the result
    is 0 when [b = g], never negative when [b > g] and never positive when
    [b < g].  It is positive exactly when [(b - g) / b * 100 >= 1/2] and
    negative exactly when [(g - b) / b * 100 > 1/2]; in between it rounds to
    zero.  Both [computeReduction] methods are the same function. *)
Theorem computeReduction_sign :
  forall b g : Z,
    (0 <= b)%Z -> (0 <= g)%Z ->
    let r := DriftDetector.computeReduction (inject_Z b) (inject_Z g) in
    RetryPressure.computeReduction (inject_Z b) (inject_Z g) = r
    /\ (b = 0 -> 0 < g -> r = -100)%Z
    /\ (b = 0 -> g = 0 -> r = 0)%Z
    /\ (0 < b ->
        (b = g -> r = 0) /\ (g < b -> 0 <= r) /\ (b < g -> r <= 0)
        /\ (0 < r <-> b <= 200 * (b - g)) /\ (r < 0 <-> b < 200 * (g - b)))%Z.
Proof.
  intros b g Hb Hg r. split; [reflexivity|]. split; [|split].
  - intros -> Hpos. subst r. unfold DriftDetector.computeReduction.
    rewrite !Qeq_bool_inject_Z_0. replace (g =? 0)%Z with false by lia. reflexivity.
  - intros -> ->. reflexivity.
  - intros Hpos. subst r. rewrite computeReduction_counts by assumption.
    destruct (half_up_sign b (b - g) Hpos) as (H0 & H1 & H2 & H3 & H4).
    cbv zeta in H0, H1, H2, H3, H4.
    split; [intros; apply H0; lia|]. split; [intros; apply H1; lia|].
    split; [intros; apply H2; lia|]. split; [exact H3|].
    split; intros H.
    + apply H4 in H. lia.
    + apply H4. lia.
Qed.

Lemma computeReduction_sign_witness :
  DriftDetector.computeReduction (inject_Z 10) (inject_Z 15) = (-50)%Z
  /\ (DriftDetector.computeReduction (inject_Z 10) (inject_Z 15) <= 0)%Z.
Proof.
  split; [reflexivity|].
  destruct (computeReduction_sign 10 15 ltac:(lia) ltac:(lia)) as (_ & _ & _ & H).
  destruct (H ltac:(lia)) as (_ & _ & Hneg & _). apply Hneg. lia.
Defined.

Lemma computeReduction_sign_counterexample :
  (0 < 1000)%Z /\ (0 <= 999)%Z
  /\ Z.sgn (DriftDetector.computeReduction (inject_Z 1000) (inject_Z 999))
     <> Z.sgn (1000 - 999).
Proof. split; [lia|]. split; [lia|]. vm_compute. discriminate. Qed.

End ReductionSign.

(** ** GovernanceEngine.evaluate *)

Section EngineFacts.
Import GovernanceEngine.


(** [_computeActions] sorts the triggers of the analysis once more when it
    recommends escalation; on triggers in ascending order that changes
    nothing. *)
Lemma _computeActions_analysis self verdict an deltas baselineProvided custom :
  StronglySorted string_lt (e_triggers (escalation an)) ->
  snd (_computeActions self verdict an deltas baselineProvided custom) = an.
Proof.
  intros Hs. unfold _computeActions.
  destruct (negb (compliant verdict)).
  - now destruct (has_severity Severity.CRITICAL (violations verdict)).
  - destruct (_ && e_detected (escalation an))%bool; [|reflexivity].
    cbn [snd]. rewrite (sort_strings_id _ Hs).
    destruct an as [h d r [req det tr conf ok]]. reflexivity.
Qed.

Lemma _buildAnalysis_sorted self t hr dr er rr :
  StronglySorted string_lt (e_triggers (escalation (_buildAnalysis self t hr dr er rr))).
Proof.
  cbn [_buildAnalysis escalation e_triggers].
  apply (sort_uniq_strings (EscalationDetector.triggers er)).
Qed.

(** What [evaluate] went through when it returns a report. *)
Lemma evaluate_inv fuel self task output baseline log log' rep :
  evaluate fuel self task output baseline log = (log', Return rep) ->
  exists t out hr dr er rr,
    task = Some t /\ output = VString out /\ out <> EmptyString
    /\ HeaderChecker.validate (headerChecker self) (VString out) = Return hr
    /\ EscalationDetector.check (escalationDetector self) (VString out) = Return er
    /\ RetryPressure.compute (retryPressure self) (VString out) = Return rr
    /\ DriftDetector.detect fuel (driftDetector self) (VString out)
         (match driftLexicon t with
          | Some lex => {| DriftDetector.lexicon := Some lex |}
          | None => DriftDetector.no_options
          end) = Return dr
    /\ analysis rep = _buildAnalysis self t hr dr er rr.
Proof.
  unfold evaluate.
  destruct task as [t|]; [|discriminate].
  destruct (id t) as [tid|]; [|discriminate].
  destruct (String.eqb tid EmptyString); [discriminate|].
  destruct output as [| | | |out|]; try discriminate.
  destruct (String.length out =? 0)%nat eqn:Hlen; [discriminate|].
  unfold bindM, invoke, ret.
  destruct (HeaderChecker.validate _ _) as [hr| |] eqn:Hhr; try discriminate.
  destruct (DriftDetector.detect _ _ _ _) as [dr| |] eqn:Hdr; try discriminate.
  destruct (EscalationDetector.check _ _) as [er| |] eqn:Her; try discriminate.
  destruct (RetryPressure.compute _ _) as [rr| |] eqn:Hrr; try discriminate.
  intros H. exists t, out, hr, dr, er, rr.
  split; [reflexivity|]. split; [reflexivity|].
  split; [intros ->; discriminate|].
  split; [exact Hhr|]. split; [exact Her|]. split; [exact Hrr|].
  split; [exact Hdr|].
  assert (Hfin : forall deltas bp l,
             (let '(recommendedActions, an) :=
                _computeActions self
                  (_computeVerdict self t (_buildAnalysis self t hr dr er rr) hr dr)
                  (_buildAnalysis self t hr dr er rr) deltas bp
                  (customWeightsApplied self) in
              ret {| schemaVersion := "1.0";
                     task_id := tid;
                     task_risk := match risk t with
                                  | Some r =>
                                      if String.eqb r EmptyString then None else Some r
                                  | None => None
                                  end;
                     analysis := an;
                     deltas := deltas;
                     verdict :=
                       _computeVerdict self t (_buildAnalysis self t hr dr er rr) hr dr;
                     recommendedActions := recommendedActions;
                     metadata := _buildMetadata self (customWeightsApplied self) |}) l
             = (log', Return rep) ->
             analysis rep = _buildAnalysis self t hr dr er rr).
  { intros deltas bp l.
    pose proof (_computeActions_analysis self
                  (_computeVerdict self t (_buildAnalysis self t hr dr er rr) hr dr)
                  (_buildAnalysis self t hr dr er rr) deltas bp
                  (customWeightsApplied self)
                  (_buildAnalysis_sorted self t hr dr er rr)) as Hsnd.
    destruct (_computeActions _ _ _ _ _ _) as [ra an]. cbn [snd] in Hsnd. subst an.
    unfold ret. intros E. injection E as _ <-. reflexivity. }
  destruct baseline as [b|].
  - destruct (String.length b =? 0)%nat.
    + exact (Hfin _ _ _ H).
    + destruct (_computeDeltas _ _ _ _ _ _) as [l [d| |]]; try discriminate.
      exact (Hfin _ _ _ H).
  - exact (Hfin _ _ _ H).
Qed.

(** C3.  In every report that [evaluate] returns, the triggers of the
    escalation analysis are strictly ascending in the lexicographic order
    of code units: a smaller label comes first and no label is repeated,
    also when a capsule trigger equals a default one.  They are exactly the
    default and capsule triggers that occur, case-insensitively, in the
    output. *)
Theorem analysis_triggers_sorted_unique :
  forall (fuel : nat) (self : t) (task : option Task) (output : Js.value)
         (baseline : option string) (log log' : list call) (rep : Report),
    evaluate fuel self task output baseline log = (log', Return rep) ->
    let ts := e_triggers (escalation (analysis rep)) in
    StronglySorted string_lt ts
    /\ NoDup ts
    /\ exists out,
         output = VString out
         /\ forall trigger,
              In trigger ts
              <-> In trigger (EscalationDetector.defaultTriggers (escalationDetector self)
                              ++ EscalationDetector.customTriggers (escalationDetector self))
                  /\ includes (toLowerCase out) (toLowerCase trigger) = true.
Proof.
  intros fuel self task output baseline log log' rep H.
  destruct (evaluate_inv _ _ _ _ _ _ _ _ H)
    as (t & out & hr & dr & er & rr & _ & -> & _ & _ & Her & _ & _ & Han).
  rewrite Han. cbn [analysis escalation e_triggers _buildAnalysis].
  destruct (sort_uniq_strings (EscalationDetector.triggers er)) as (Hs & Hnd & Hin).
  split; [exact Hs|]. split; [exact Hnd|].
  exists out. split; [reflexivity|]. intros trigger. rewrite Hin.
  destruct (check_returns (escalationDetector self) out) as (er' & Her' & _ & Htr).
  rewrite Her in Her'. injection Her' as <-. rewrite Htr, filter_In. reflexivity.
Qed.

End EngineFacts.

Section AnalyzerTotality.






End AnalyzerTotality.

Section EngineTotality.
Import GovernanceEngine.

(** The analyzers' own guard: a plain [Error] for anything but a string;
    the empty string passes it. *)
Lemma analyzers_reject_non_strings (v : Js.value) :
  (forall s, v <> VString s) ->
  (forall hc, HeaderChecker.validate hc v = Throw output_must_be_string)
  /\ (forall fuel dd o, DriftDetector.detect fuel dd v o = Throw output_must_be_string)
  /\ (forall ed, EscalationDetector.check ed v = Throw output_must_be_string)
  /\ (forall rp, RetryPressure.compute rp v = Throw output_must_be_string).
Proof.
  intros Hv. destruct v; try (repeat split; reflexivity).
  exfalso. now apply (Hv s).
Qed.

Ltac report_built :=
  match goal with
  | |- context [_computeActions ?s ?v ?a ?d ?b ?c] =>
      destruct (_computeActions s v a d b c); eauto
  end.

(** [evaluate] returns a report on a task with an id and a non-empty
    output, when no keyword of the active lexicon is empty and the fuel
    covers the longer of output and baseline. *)
Lemma evaluate_returns fuel self task tid out baseline log :
  retryPressure self = RetryPressure.new ->
  id task = Some tid -> tid <> EmptyString -> out <> EmptyString ->
  Forall nonempty (DriftDetector.activeLexicon (driftDetector self) (drift_options task)) ->
  (String.length out + 2 <= fuel)%nat ->
  (forall b, baseline = Some b -> (String.length b + 2 <= fuel)%nat) ->
  exists log' rep, evaluate fuel self (Some task) (VString out) baseline log
                   = (log', Return rep).
Proof.
  intros Hrp Hid Htid Hout Hlex Hfuel Hbase. unfold evaluate. rewrite Hid.
  destruct (String.eqb_spec tid EmptyString) as [|_]; [contradiction|].
  destruct (String.length out =? 0)%nat eqn:Hlen.
  { destruct out; [contradiction|discriminate]. }
  fold (drift_options task). unfold bindM, invoke, ret.
  destruct (validate_returns (headerChecker self) out) as (hr & -> & _).
  rewrite (detect_returns fuel _ out _ Hlex Hfuel).
  destruct (check_returns (escalationDetector self) out) as (er & -> & _).
  rewrite Hrp. destruct (compute_returns out) as (rr & st & -> & _).
  destruct baseline as [b|]; [|report_built].
  destruct (String.length b =? 0)%nat; [report_built|].
  unfold _computeDeltas, bindM, invoke, ret.
  rewrite (detect_returns fuel _ b _ Hlex (Hbase b eq_refl)).
  rewrite (detect_returns fuel _ out _ Hlex Hfuel).
  rewrite Hrp. destruct (compute_returns b) as (rb & stb & -> & _).
  destruct (compute_returns out) as (rr' & st' & -> & _).
  report_built.
Qed.

End EngineTotality.

Section EngineExamples.

(** A high-risk task whose output asks for approval: escalation is
    recommended, and the triggers of the report are the sorted ones. *)
Example evaluate_escalates :
  exists log' rep,
    GovernanceEngine.evaluate 60 example_engine (Some example_task)
      (VString "Plan: FOP. I request approval and ask permission.") None []
    = (log', Return rep)
    /\ log' = [GovernanceEngine.CallValidate; GovernanceEngine.CallDetect;
               GovernanceEngine.CallCheck; GovernanceEngine.CallCompute]
    /\ GovernanceEngine.score (GovernanceEngine.verdict rep) = 100%Z
    /\ GovernanceEngine.compliant (GovernanceEngine.verdict rep) = true
    /\ Qeq_bool (GovernanceEngine.confidence (GovernanceEngine.verdict rep)) (86 # 100) = true
    /\ map GovernanceEngine.type (GovernanceEngine.recommendedActions rep)
       = [GovernanceEngine.ActionType.ESCALATE]
    /\ GovernanceEngine.e_triggers
         (GovernanceEngine.escalation (GovernanceEngine.analysis rep))
       = ["FOP"; "ask permission"; "request approval"].
Proof. eexists. eexists. split; [vm_compute; reflexivity|]. repeat split. Qed.

(** The same task with no request for approval in the output: the missed
    escalation is critical, the score is capped at 49 and the output is
    blocked. *)
Example evaluate_blocks_missed_escalation :
  exists log' rep,
    GovernanceEngine.evaluate 60 example_engine (Some example_task)
      (VString "Plan: migrate the database now.") None []
    = (log', Return rep)
    /\ GovernanceEngine.score (GovernanceEngine.verdict rep) = 49%Z
    /\ GovernanceEngine.compliant (GovernanceEngine.verdict rep) = false
    /\ map GovernanceEngine.code (GovernanceEngine.violations (GovernanceEngine.verdict rep))
       = [GovernanceEngine.FOP_ESCALATION_MISSED]
    /\ map GovernanceEngine.evidence
           (GovernanceEngine.violations (GovernanceEngine.verdict rep))
       = [[Some "requiresEscalation: true"; Some "detected: false"]]
    /\ map GovernanceEngine.type (GovernanceEngine.recommendedActions rep)
       = [GovernanceEngine.ActionType.BLOCK].
Proof. eexists. eexists. split; [vm_compute; reflexivity|]. repeat split. Qed.

Lemma analysis_triggers_sorted_unique_witness :
  GovernanceEngine.new example_config
  = Return example_engine
  /\ exists log' rep,
       GovernanceEngine.evaluate 60 example_engine (Some example_task)
         (VString "Plan: FOP. I request approval and ask permission.") None []
       = (log', Return rep)
       /\ GovernanceEngine.e_triggers
            (GovernanceEngine.escalation (GovernanceEngine.analysis rep))
          = ["FOP"; "ask permission"; "request approval"]
       /\ StronglySorted string_lt
            (GovernanceEngine.e_triggers
               (GovernanceEngine.escalation (GovernanceEngine.analysis rep))).
Proof.
  split; [reflexivity|]. eexists. eexists.
  split; [vm_compute; reflexivity|]. split; [reflexivity|].
  refine (proj1 (analysis_triggers_sorted_unique 60 example_engine (Some example_task)
                   (VString "Plan: FOP. I request approval and ask permission.")
                   None [] _ _ _)).
  vm_compute. reflexivity.
Defined.

Lemma check_triggers_catalogue_order :
  exists r,
    EscalationDetector.check
      (EscalationDetector.new (EscalationDetector.mkOptions VUndefined (Some ["FOP"]) None))
      (VString "FOP: request approval, ask permission") = Return r
    /\ EscalationDetector.triggers r
       = ["FOP"; "request approval"; "ask permission"; "FOP"].
Proof. eexists. split; reflexivity. Qed.


End EngineExamples.

(** ** The assertions of the repository's test files, replayed *)

Section RepositoryTests.

Example test_header_strict_missing :
  HeaderChecker.validate (HeaderChecker.mkChecker ["Plan"; "Action"] true false)
    (VString "Plan: Do something important")
  = Return (HeaderChecker.mkResult false ["Action"] ["Plan"] 50).
Proof. vm_compute. reflexivity. Qed.

Example test_header_lenient :
  HeaderChecker.validate (HeaderChecker.mkChecker ["Plan"; "Action"] false false)
    (VString "Plan: Do something")
  = Return (HeaderChecker.mkResult true ["Action"] ["Plan"] 50).
Proof. vm_compute. reflexivity. Qed.

Example test_header_without_colon :
  HeaderChecker.validate (HeaderChecker.mkChecker ["Status"] true false)
    (VString "Status Active")
  = Return (HeaderChecker.mkResult true [] ["Status"] 100).
Proof. vm_compute. reflexivity. Qed.

Example test_header_half_coverage :
  HeaderChecker.validate (HeaderChecker.mkChecker ["A"; "B"; "C"; "D"] true false)
    (VString "A: yes, B: yes")
  = Return (HeaderChecker.mkResult false ["C"; "D"] ["A"; "B"] 50).
Proof. vm_compute. reflexivity. Qed.

Example test_header_invalid_input :
  HeaderChecker.validate (HeaderChecker.mkChecker ["Plan"] true false) (VNumber 123)
  = Throw output_must_be_string.
Proof. reflexivity. Qed.

Example test_drift_multiple_occurrences :
  DriftDetector.detect 80 (DriftDetector.mkDetector ["deploy"; "install"] false [])
    (VString "Deploy to staging, then deploy to production after install completes")
    DriftDetector.no_options
  = Return (DriftDetector.mkResult 3 [Some "deploy"; Some "install"] [0; 24; 51]%Z).
Proof. vm_compute. reflexivity. Qed.

Example test_drift_case_sensitive :
  DriftDetector.detect 40 (DriftDetector.mkDetector ["Deploy"] true [])
    (VString "Will deploy after approval") DriftDetector.no_options
  = Return (DriftDetector.mkResult 0 [] []).
Proof. vm_compute. reflexivity. Qed.

Example test_drift_invalid_input :
  DriftDetector.detect 40 (DriftDetector.mkDetector ["deploy"] false []) VNull
    DriftDetector.no_options
  = Throw output_must_be_string.
Proof. reflexivity. Qed.

Example test_drift_reduction :
  DriftDetector.computeReduction 10 5 = 50%Z
  /\ DriftDetector.computeReduction 10 7 = 30%Z
  /\ DriftDetector.computeReduction 10 15 = (-50)%Z
  /\ DriftDetector.computeReduction 0 0 = 0%Z.
Proof. repeat split; reflexivity. Qed.

Example test_retry_reduction :
  RetryPressure.computeReduction (5 # 10) (25 # 100) = 50%Z
  /\ RetryPressure.computeReduction (1 # 10) (5 # 100) = 50%Z
  /\ RetryPressure.computeReduction (1 # 10) (15 # 100) = (-50)%Z.
Proof. repeat split; reflexivity. Qed.

Example test_retry_frozen_penalties :
  exists r,
    RetryPressure.compute RetryPressure.new
      (VString "Maybe we should try this? TODO: confirm approach") = Return r
    /\ RetryPressure.normalized r == 3 # 10
    /\ RetryPressure.score r = 70%Z
    /\ RetryPressure.signals r = ["Maybe"; "TODO"].
Proof. eexists. split; [vm_compute; reflexivity|]. repeat split. Qed.

Example test_escalation_state_based_confidence :
  exists r,
    EscalationDetector.check
      (EscalationDetector.new (EscalationDetector.mkOptions (VBool true) None None))
      (VString "FOP escalation required. Requesting approval from founder.") = Return r
    /\ EscalationDetector.triggers r = ["FOP"; "escalat"]
    /\ EscalationDetector.escalated r = true
    /\ EscalationDetector.correct r = Some true
    /\ EscalationDetector.confidence r == 1.
Proof. eexists. split; [vm_compute; reflexivity|]. repeat split. Qed.

Example test_escalation_null_correctness :
  exists r,
    EscalationDetector.check
      (EscalationDetector.new (EscalationDetector.mkOptions VUndefined None None))
      (VString "Some output without escalation") = Return r
    /\ EscalationDetector.correct r = None
    /\ EscalationDetector.confidence r == 1 # 2.
Proof. eexists. split; [vm_compute; reflexivity|]. repeat split. Qed.

End RepositoryTests.

(** * Further properties of the validators and of the engine *)

(** ** Strings *)

Section IncludesFacts.

Lemma string_app_assoc (a b c : string) : ((a ++ b) ++ c = a ++ (b ++ c))%string.
Proof. induction a as [|x a IH]; cbn; [reflexivity|now rewrite IH]. Qed.


Lemma string_app_length (a b : string) :
  String.length (a ++ b) = (String.length a + String.length b)%nat.
Proof. induction a as [|x a IH]; cbn; [reflexivity|now rewrite IH]. Qed.

Lemma toLowerCase_app (a b : string) :
  toLowerCase (a ++ b) = (toLowerCase a ++ toLowerCase b)%string.
Proof. induction a as [|c a IH]; cbn; [reflexivity|now rewrite IH]. Qed.

Lemma lower_char_idem (c : ascii) : lower_char (lower_char c) = lower_char c.
Proof.
  destruct c as [[] [] [] [] [] [] [] []]; reflexivity.
Qed.

Lemma toLowerCase_idem (s : string) : toLowerCase (toLowerCase s) = toLowerCase s.
Proof. induction s as [|c s IH]; cbn; [reflexivity|now rewrite lower_char_idem, IH]. Qed.

Lemma prefix_split (k s : string) :
  String.prefix k s = true <-> exists b, s = (k ++ b)%string.
Proof.
  revert s. induction k as [|c k IH]; intros s.
  - split; [intros _; now exists s|intros _; now destruct s].
  - destruct s as [|d s]; cbn [String.prefix append].
    + split; [discriminate|intros [b Hb]; discriminate].
    + destruct (ascii_dec c d) as [->|Hcd].
      * rewrite IH. split; intros [b Hb]; exists b; [now rewrite Hb|now injection Hb].
      * split; [discriminate|]. intros [b Hb]. injection Hb as Hc _. congruence.
Qed.

Lemma find_from_split_at (k : string) :
  forall (s : string) (i j : nat),
    find_from k s i = Some j ->
    exists a b, s = (a ++ k ++ b)%string /\ j = (i + String.length a)%nat.
Proof.
  induction s as [|c s IH]; intros i j; cbn [find_from].
  - destruct (String.prefix k EmptyString) eqn:Hp; [|discriminate].
    intros [= <-]. apply prefix_split in Hp. destruct Hp as [b Hb].
    exists EmptyString, b. cbn. split; [exact Hb|lia].
  - destruct (String.prefix k (String c s)) eqn:Hp.
    + intros [= <-]. apply prefix_split in Hp. destruct Hp as [b Hb].
      exists EmptyString, b. cbn. split; [exact Hb|lia].
    + intros H. destruct (IH _ _ H) as (a & b & -> & ->).
      exists (String c a), b. cbn. split; [reflexivity|lia].
Qed.

Lemma find_from_app (k b : string) :
  forall (a : string) (i : nat), find_from k (a ++ k ++ b) i <> None.
Proof.
  induction a as [|c a IH]; intros i.
  - cbn [append]. destruct (k ++ b)%string eqn:E; cbn [find_from];
      rewrite <- E; replace (String.prefix k (k ++ b)) with true; try discriminate;
      symmetry; apply prefix_split; now exists b.
  - cbn [append find_from]. destruct (String.prefix k (String c (a ++ k ++ b))); [discriminate|].
    apply IH.
Qed.

Lemma includes_find_from (s k : string) :
  includes s k = match find_from k s 0 with Some _ => true | None => false end.
Proof.
  unfold includes. change 0%Z with (Z.of_nat 0).
  rewrite indexOf_from by lia. cbn [drop].
  destruct (find_from k s 0) as [j|]; cbn [index_of_result]; [|reflexivity].
  destruct (Z.eqb_spec (Z.of_nat j) (-1)); [lia|reflexivity].
Qed.

(** [includes]: the searched text occurs somewhere. *)
Lemma includes_iff (s k : string) :
  includes s k = true <-> exists a b, s = (a ++ k ++ b)%string.
Proof.
  rewrite includes_find_from. split.
  - destruct (find_from k s 0) as [j|] eqn:H; [|discriminate]. intros _.
    destruct (find_from_split_at _ _ _ _ H) as (a & b & -> & _). now exists a, b.
  - intros (a & b & ->). pose proof (find_from_app k b a 0) as H.
    now destruct (find_from k (a ++ k ++ b) 0).
Qed.

Lemma includes_app (s k pre post : string) :
  includes s k = true -> includes (pre ++ s ++ post) k = true.
Proof.
  rewrite !includes_iff. intros (a & b & ->).
  exists (pre ++ a)%string, (b ++ post)%string.
  now rewrite !string_app_assoc.
Qed.

End IncludesFacts.

(** ** Escaped patterns *)

Section EscapeFacts.
Import RegExp.








End EscapeFacts.

(** ** HeaderChecker: occurrence of headers *)

Section MatchSplit.
Import RegExp.


Lemma exec_from_split (re : t) (s : string) :
  forall (prev : option ascii) (idx i : nat) (m : string),
    exec_from re prev s idx = Some (i, m) ->
    exists pre s' n,
      s = (pre ++ s')%string
      /\ match_here (ignoreCase re) (items re) (last_char prev pre) s' = Some n
      /\ m = String.substring 0 n s'
      /\ i = (idx + String.length pre)%nat.
Proof.
  induction s as [|c s IH]; intros prev idx i m; cbn [exec_from].
  - destruct (match_here _ _ prev EmptyString) as [n|] eqn:Hm; [|discriminate].
    intros [= <- <-]. exists EmptyString, EmptyString, n. cbn. repeat split; [exact Hm|lia].
  - destruct (match_here _ _ prev (String c s)) as [n|] eqn:Hm.
    + intros [= <- <-]. exists EmptyString, (String c s), n.
      cbn [append last_char String.length]. repeat split; [exact Hm|lia].
    + intros H. destruct (IH _ _ _ _ H) as (pre & s' & n & -> & Hn & -> & ->).
      exists (String c pre), s', n. cbn [append last_char String.length].
      repeat split; [exact Hn|lia].
Qed.


End MatchSplit.

Section HeaderFound.
Import HeaderChecker.





End HeaderFound.

(** ** Rounding *)

Section RoundingFacts.

Lemma Math_round_lower (x : Q) (a : Z) : inject_Z a - (1 # 2) <= x -> (a <= Math_round x)%Z.
Proof.
  intros H. unfold Math_round. rewrite <- (Qfloor_Z a).
  apply Qfloor_resp_le. lra.
Qed.

Lemma Math_round_upper (x : Q) (b : Z) : x < inject_Z b + (1 # 2) -> (Math_round x <= b)%Z.
Proof.
  intros H. unfold Math_round.
  pose proof (Qfloor_le (x + (1 # 2))) as Hf.
  assert (Hlt : inject_Z (Qfloor (x + (1 # 2))) < inject_Z (b + 1)).
  { rewrite inject_Z_plus. change (inject_Z 1) with 1. lra. }
  rewrite <- Zlt_Qlt in Hlt. lia.
Qed.

Lemma Math_round_inject_Z (z : Z) : Math_round (inject_Z z) = z.
Proof. apply Qfloor_half. Qed.

Lemma Math_floor_percent (c : Z) : Math_floor (inject_Z c / 100 * 100) = c.
Proof.
  unfold Math_floor. rewrite <- (Qfloor_Z c) at 2. apply Qfloor_comp. field.
Qed.

End RoundingFacts.

(** ** EscalationDetector: context and batches *)

Section TriggerContext.
Import EscalationDetector.

(** X3.  Context cannot hide a trigger.  Every trigger that [check] finds
    in an output it also finds when any text is put before and after the
    output, so an escalated output stays escalated; and the result for an
    output is the result for its lower-casing. *)
Theorem check_triggers_survive_context :
  forall (self : t) (pre out post : string),
  exists r r',
    check self (VString out) = Return r
    /\ check self (VString (pre ++ out ++ post)) = Return r'
    /\ (forall trigger, In trigger (triggers r) -> In trigger (triggers r'))
    /\ (escalated r = true -> escalated r' = true)
    /\ check self (VString (toLowerCase out)) = Return r.
Proof.
  intros self pre out post.
  destruct (check_returns self out) as (r & Hr & _ & Htr).
  destruct (check_returns self (pre ++ out ++ post)) as (r' & Hr' & _ & Htr').
  exists r, r'. split; [exact Hr|]. split; [exact Hr'|].
  assert (Hsub : forall trigger, In trigger (triggers r) -> In trigger (triggers r')).
  { intros trigger. rewrite Htr, Htr', !filter_In, !toLowerCase_app.
    intros [Hin Hinc]. split; [exact Hin|]. now apply includes_app. }
  split; [exact Hsub|]. split.
  - cbn in Hr, Hr'. injection Hr as <-. injection Hr' as <-.
    cbn [escalated triggers] in *.
    destruct (find_triggers (toLowerCase out) _ []) as [|x l] eqn:E; [discriminate|].
    intros _. specialize (Hsub x (or_introl eq_refl)).
    now destruct (find_triggers (toLowerCase (pre ++ out ++ post)) _ []).
  - rewrite <- Hr. unfold check. now rewrite toLowerCase_idem.
Qed.

End TriggerContext.

Section BatchFacts.
Import EscalationDetector.

Lemma check_each_spec (self : t) (outputs : list batch_item) :
  Forall (fun it => is_string (bi_output it)) outputs ->
  exists rs, check_each self outputs = Return rs
             /\ Forall2 (fun it r => batch_check it = Return r) outputs rs.
Proof.
  induction 1 as [|it outputs [s Hs] _ (rs & Hrs & Hall)]; cbn [check_each].
  - exists []. split; [reflexivity|constructor].
  - rewrite Hrs. rewrite Hs. cbn [check bind].
    eexists. split; [reflexivity|]. constructor; [|exact Hall].
    unfold batch_check. rewrite Hs. reflexivity.
Qed.

Lemma check_each_throws (self : t) (pre : list batch_item) (it : batch_item)
    (post : list batch_item) :
  Forall (fun it => is_string (bi_output it)) pre ->
  ~ is_string (bi_output it) ->
  check_each self (pre ++ it :: post) = Throw output_must_be_string.
Proof.
  induction 1 as [|x pre [s Hs] _ IH]; intros Hit; cbn [app check_each].
  - destruct (bi_output it) as [| | | |s|]; try reflexivity.
    exfalso. apply Hit. now exists s.
  - rewrite Hs. cbn [check bind]. now rewrite IH.
Qed.

Lemma percent_range (a b : nat) :
  (a <= b)%nat ->
  (0 <= Math_round ((if (0 <? b)%nat
                     then inject_Z (Z.of_nat a) / inject_Z (Z.of_nat b)
                     else 0) * 100) <= 100)%Z.
Proof.
  intros Hab. destruct b as [|b]; cbn [Nat.ltb Nat.leb]; [vm_compute; split; discriminate|].
  assert (Hb : 0 < inject_Z (Z.of_nat (S b))) by (rewrite <- (Zlt_Qlt 0); lia).
  assert (Ha : 0 <= inject_Z (Z.of_nat a)) by (rewrite <- (Zle_Qle 0); lia).
  assert (Hle : inject_Z (Z.of_nat a) <= inject_Z (Z.of_nat (S b))) by (rewrite <- Zle_Qle; lia).
  assert (Hr : 0 <= inject_Z (Z.of_nat a) / inject_Z (Z.of_nat (S b)) <= 1).
  { split; [apply Qle_shift_div_l|apply Qle_shift_div_r]; lra. }
  split; [apply Math_round_lower|apply Math_round_upper].
  - change (inject_Z 0) with 0. lra.
  - change (inject_Z 100) with 100. lra.
Qed.

Lemma filter_Forall_false {A : Type} (p : A -> bool) (l : list A) :
  Forall (fun x => p x = false) l -> filter p l = [].
Proof. induction 1 as [|x l Hx _ IH]; cbn [filter]; [reflexivity|now rewrite Hx]. Qed.

(** X4.  [checkBatch] on outputs that are all strings returns one result
    per element, each the check of a detector of its own with the default
    triggers and the element's requirement.  Precision and recall are whole
    percentages from 0 to 100; precision is 0 when no output escalated and
    recall is 0 when no element has a boolean requirement.  The receiver
    plays no part: its custom triggers and its requirement are not used.  An
    element whose output is not a string makes the whole call throw. *)
Theorem checkBatch_results :
  forall (self : t) (outputs : list batch_item),
    (Forall (fun it => is_string (bi_output it)) outputs ->
     exists br,
       checkBatch self outputs = Return br
       /\ Forall2 (fun it r => batch_check it = Return r) outputs (results br)
       /\ (0 <= precision br <= 100)%Z
       /\ (0 <= recall br <= 100)%Z
       /\ (Forall (fun r => escalated r = false) (results br) -> precision br = 0%Z)
       /\ (Forall (fun r => correct r = None) (results br) -> recall br = 0%Z)
       /\ forall other : t, checkBatch other outputs = Return br)
    /\ (forall pre it post,
          outputs = pre ++ it :: post ->
          Forall (fun it => is_string (bi_output it)) pre ->
          ~ is_string (bi_output it) ->
          checkBatch self outputs = Throw output_must_be_string).
Proof.
  intros self outputs. split.
  - intros Hall. destruct (check_each_spec self outputs Hall) as (rs & Hrs & Hres).
    unfold checkBatch. rewrite Hrs. cbn [bind].
    eexists. split; [reflexivity|]. cbn [results precision recall].
    split; [exact Hres|].
    split; [apply percent_range, filter_length_le|].
    split; [apply percent_range, filter_length_le|].
    split; [|split].
    + intros Hno. rewrite (filter_Forall_false (fun r => escalated r) rs Hno). reflexivity.
    + intros Hno. rewrite (filter_Forall_false (fun r => not_null (correct r)) rs).
      * reflexivity.
      * revert Hno. apply Forall_impl. now intros r ->.
    + intros other. destruct (check_each_spec other outputs Hall) as (rs' & Hrs' & Hres').
      rewrite Hrs'. cbn [bind].
      assert (rs' = rs); [|now subst].
      clear Hrs Hrs' Hall. revert rs' Hres'.
      induction Hres as [|it r l rs0 Hr _ IH]; intros rs' Hres'; inversion Hres'; subst;
        [reflexivity|].
      f_equal; [congruence|now apply IH].
  - intros pre it post -> Hpre Hit. unfold checkBatch.
    now rewrite (check_each_throws self pre it post Hpre Hit).
Qed.

End BatchFacts.

(** ** DriftDetector: the matches *)

Section UniqLength.
Context {A : Type} (eqbA : A -> A -> bool).

Lemma uniq_acc_length_le (l : list A) :
  forall seen, (List.length (Js.uniq_acc eqbA seen l) <= List.length l)%nat.
Proof.
  induction l as [|x l IH]; intros seen; cbn [Js.uniq_acc List.length]; [lia|].
  destruct (Js.mem eqbA x seen); [specialize (IH seen)|specialize (IH (x :: seen))];
    cbn [List.length]; lia.
Qed.

End UniqLength.

Section DriftMatches.
Import DriftDetector.

Lemma keyword_occurs (self : t) (out kw : string) :
  keyword_positions self out kw <> []
  <-> includes (drift_searchText self out) (drift_searchKeyword self kw) = true.
Proof.
  unfold keyword_positions, occurrences. rewrite includes_find_from, find_from_occurrences.
  destruct (occurrences_from _ _ 0) as [|i l]; cbn [map hd_error].
  - split; [intros H; now contradiction H|discriminate].
  - split; [reflexivity|discriminate].
Qed.

Lemma In_keyword_entries (self : t) (out kw : string) (e : entry) :
  In e (keyword_entries self out kw)
  <-> e = Some kw
      /\ includes (drift_searchText self out) (drift_searchKeyword self kw) = true.
Proof.
  unfold keyword_entries. rewrite <- keyword_occurs.
  destruct (keyword_positions self out kw) as [|i l]; cbn [List.length repeat In].
  - split; [intros []|intros [_ H]; now contradiction H].
  - split.
    + intros [<-|H]; [|apply repeat_spec in H; subst e]; (split; [reflexivity|discriminate]).
    + intros [-> _]. now left.
Qed.

(** X5.  The [matches] of [DriftDetector.detect] hold no entry twice.  A
    keyword of the active lexicon is among them exactly when it occurs in the
    searched text, however often; the other entries are the match arrays of
    the patterns.  [count], which counts every occurrence, is at least their
    number and is 0 exactly when there are none. *)
Theorem detect_matches_distinct :
  forall (self : t) (out : string) (o : detect_options) (fuel : nat) (r : result),
    detect fuel self (VString out) o = Return r ->
    NoDup (matches r)
    /\ (forall e,
          In e (matches r)
          <-> (exists kw,
                  e = Some kw /\ In kw (activeLexicon self o)
                  /\ includes (drift_searchText self out) (drift_searchKeyword self kw)
                     = true)
              \/ (exists p, In p (patterns self) /\ In e (patternMatches out p)))
    /\ (List.length (matches r) <= count r)%nat
    /\ (count r = 0%nat <-> matches r = []).
Proof.
  intros self out o fuel r H. destruct (detect_result _ _ _ _ _ H) as [_ ->].
  cbv zeta. cbn [matches count].
  set (ms := flat_map (keyword_entries self out) (activeLexicon self o)
             ++ flat_map (patternMatches out) (patterns self)).
  split; [apply (uniq_NoDup entry_eqb entry_eqb_spec)|].
  split; [|split].
  - intros e. rewrite (uniq_In entry_eqb entry_eqb_spec). subst ms.
    rewrite in_app_iff, !in_flat_map. split.
    + intros [(kw & Hkw & He)|(p & Hp & He)].
      * left. exists kw. apply In_keyword_entries in He as [-> Hinc]. now repeat split.
      * right. now exists p.
    + intros [(kw & -> & Hkw & Hinc)|(p & Hp & He)].
      * left. exists kw. split; [exact Hkw|]. now apply In_keyword_entries.
      * right. now exists p.
  - apply uniq_acc_length_le.
  - split.
    + intros Hz. destruct ms; [reflexivity|discriminate].
    + intros Hnil. destruct ms as [|e ms']; [reflexivity|].
      assert (Hin : In e (Js.uniq entry_eqb (e :: ms'))).
      { apply (uniq_In entry_eqb entry_eqb_spec). now left. }
      rewrite Hnil in Hin. contradiction.
Qed.

End DriftMatches.

Section DriftCase.
Import DriftDetector.



End DriftCase.

(** ** RetryPressure: the signals *)

Section MatchedTexts.
Import RegExp.

Lemma substring_is_prefix (n : nat) :
  forall s : string, exists rest, s = (String.substring 0 n s ++ rest)%string.
Proof.
  induction n as [|n IH]; intros [|c s]; cbn [String.substring append].
  - now exists EmptyString.
  - now exists (String c s).
  - now exists EmptyString.
  - destruct (IH s) as [rest Hrest]. exists rest. now rewrite <- Hrest.
Qed.

Lemma match_all_from_split (re : t) (s : string) :
  forall (prev : option ascii) (skip : nat) (m : string),
    In m (match_all_from re prev s skip) ->
    exists pre s' n, s = (pre ++ s')%string /\ m = String.substring 0 n s'.
Proof.
  induction s as [|c s IH]; intros prev skip m H.
  - destruct skip as [|skip]; cbn [match_all_from] in H; [|contradiction].
    destruct (match_here _ _ prev EmptyString) as [n|] eqn:Hn; [|contradiction].
    destruct H as [<-|[]]. now exists EmptyString, EmptyString, n.
  - assert (Hrec : forall prev' skip',
               In m (match_all_from re prev' s skip') ->
               exists pre s' n, String c s = (pre ++ s')%string /\ m = String.substring 0 n s').
    { intros prev' skip' H'. destruct (IH _ _ _ H') as (pre & s' & n & -> & ->).
      now exists (String c pre), s', n. }
    destruct skip as [|skip]; cbn [match_all_from] in H; [|now apply Hrec in H].
    destruct (match_here _ _ prev (String c s)) as [n|] eqn:Hn.
    + destruct H as [<-|H]; [now exists EmptyString, (String c s), n|now apply Hrec in H].
    + now apply Hrec in H.
Qed.

(** Every text that [match] returns occurs in the string. *)
Lemma string_match_includes (s : string) (re : t) (ms : list string) (m : string) :
  string_match s re = Some ms -> In m ms -> includes s m = true.
Proof.
  unfold string_match. intros H Hin.
  assert (Hsplit : exists pre s' n, s = (pre ++ s')%string /\ m = String.substring 0 n s').
  { destruct (global re).
    - destruct (match_all_from re None s 0) as [|m0 ms0] eqn:Hall; [discriminate|].
      injection H as <-. rewrite <- Hall in Hin.
      exact (match_all_from_split _ _ _ _ _ Hin).
    - destruct (exec_from re None s 0) as [[i m0]|] eqn:He; [|discriminate].
      injection H as <-. destruct Hin as [<-|[]].
      destruct (exec_from_split _ _ _ _ _ _ He) as (pre & s' & n & -> & _ & -> & _).
      now exists pre, s', n. }
  destruct Hsplit as (pre & s' & n & -> & ->).
  destruct (substring_is_prefix n s') as [rest Hrest].
  apply includes_iff. exists pre, rest. now rewrite <- Hrest.
Qed.

End MatchedTexts.

Section SignalFacts.
Import RetryPressure.

Lemma found_ok_push (out : string) (st : counters) (m : string) (ty : match_type)
    (u t : nat) :
  found_ok out st ->
  already_found (foundMatches st) m = false ->
  includes out m = true ->
  (u + t = S (uncertaintyCount st + todoCount st))%nat ->
  found_ok out {| foundMatches := foundMatches st ++ [mkFound m (indexOf out m 0) ty];
                  uncertaintyCount := u;
                  todoCount := t |}.
Proof.
  intros (Hnd & Hall & Hlen) Hnew Hinc Hut. unfold found_ok.
  cbn [foundMatches uncertaintyCount todoCount]. split; [|split].
  - rewrite map_app. cbn [map text].
    apply NoDup_app; [exact Hnd|repeat constructor; intros []|].
    intros x Hx [<-|[]]. apply already_found_In in Hx. congruence.
  - apply Forall_app. split; [exact Hall|]. constructor; [|constructor].
    cbn [position text]. now split.
  - rewrite length_app. cbn [List.length]. lia.
Qed.

Lemma found_ok_init (out : string) : found_ok out (mkCounters [] 0 0).
Proof. split; [constructor|split; [constructor|reflexivity]]. Qed.

Lemma phrase_step_ok (out lowerOutput : string) (st st' : counters) (phrase : string) :
  found_ok out st -> phrase_step out lowerOutput st phrase = Return st' -> found_ok out st'.
Proof.
  intros Hok. unfold phrase_step.
  destruct (includes lowerOutput phrase); [|now intros [= <-]].
  destruct (RegExp.compile _ true false) as [regex|]; [|discriminate].
  destruct (RegExp.string_match out regex) as [[|m0 ms]|] eqn:Hm; try now intros [= <-].
  destruct (already_found (foundMatches st) m0) eqn:Haf; cbn [negb]; [now intros [= <-]|].
  intros [= <-]. apply found_ok_push; [exact Hok|exact Haf| |lia].
  apply (string_match_includes _ _ _ _ Hm). now left.
Qed.

Lemma phrase_loop_ok (out lowerOutput : string) (phrases : list string) :
  forall st st',
    found_ok out st -> phrase_loop out lowerOutput st phrases = Return st' ->
    found_ok out st'.
Proof.
  induction phrases as [|p ps IH]; intros st st' Hok; cbn [phrase_loop].
  - now intros [= <-].
  - destruct (phrase_step out lowerOutput st p) as [st1| |] eqn:H1; try discriminate.
    cbn [bind]. apply IH. exact (phrase_step_ok _ _ _ _ _ Hok H1).
Qed.

Lemma placeholder_fold_ok (out : string) (ms : list string) :
  forall st,
    found_ok out st -> Forall (fun m => includes out m = true) ms ->
    found_ok out (fold_left (placeholder_step out) ms st).
Proof.
  induction ms as [|m ms IH]; intros st Hok Hms; cbn [fold_left]; [exact Hok|].
  inversion Hms as [|? ? Hm Hms']; subst. apply IH; [|exact Hms'].
  unfold placeholder_step.
  destruct (already_found (foundMatches st) m) eqn:Haf; cbn [negb]; [exact Hok|].
  apply found_ok_push; [exact Hok|exact Haf|exact Hm|lia].
Qed.

Lemma pattern_matches_include (out : string) (pattern : RegExp.t) :
  Forall (fun m => includes out m = true) (pattern_matches out pattern).
Proof.
  unfold pattern_matches.
  destruct (RegExp.string_match out pattern) as [ms|] eqn:Hm; [|constructor].
  apply Forall_forall. intros m. exact (string_match_includes _ _ _ _ Hm).
Qed.

Lemma count_ok (self : t) (out : string) (st : counters) :
  count self out = Return st -> found_ok out st.
Proof.
  unfold count.
  destruct (phrase_loop out (toLowerCase out) (mkCounters [] 0 0) (uncertaintyPhrases self))
    as [st1| |] eqn:H1; try discriminate.
  cbn [bind]. intros [= <-].
  assert (Hok1 : found_ok out st1).
  { apply (phrase_loop_ok _ _ _ _ _ (found_ok_init out) H1). }
  rewrite placeholder_loop_flat. apply placeholder_fold_ok; [exact Hok1|].
  apply Forall_flat_map, Forall_forall. intros p _. apply pattern_matches_include.
Qed.

Lemma sorted_map {A B : Type} (R : A -> A -> Prop) (R' : B -> B -> Prop) (P : A -> Prop)
    (f : A -> B) (l : list A) :
  (forall x y, P x -> P y -> R x y -> R' (f x) (f y)) ->
  Forall P l -> StronglySorted R l -> StronglySorted R' (map f l).
Proof.
  intros HR HP Hs. induction Hs as [|x l Hs IH Hx]; cbn [map]; [constructor|].
  inversion HP as [|? ? HPx HPl]; subst.
  constructor; [now apply IH|].
  apply Forall_map. rewrite Forall_forall in *. intros y Hy.
  apply HR; [exact HPx|now apply HPl|now apply Hx].
Qed.

(** X7.  The signals of [RetryPressure.compute] are the distinct matched
    texts: each occurs in the output, none comes twice, and they are ordered
    by the index of their first occurrence.  There is one signal for each
    uncertainty phrase present and one for each distinct placeholder text,
    and [normalized] is 0 exactly when there is no signal. *)
Theorem compute_signals_by_first_occurrence :
  forall out : string,
  exists r,
    compute new (VString out) = Return r
    /\ NoDup (signals r)
    /\ (forall s, In s (signals r) -> includes out s = true)
    /\ StronglySorted (first_occurrence_le out) (signals r)
    /\ List.length (signals r)
       = (List.length (phrases_present out)
          + List.length (Js.uniq String.eqb (placeholder_texts out)))%nat
    /\ (signals r = [] <-> normalized r == 0).
Proof.
  intros out. destruct (count_spec out) as (st & Hst & Hu & Ht).
  destruct (compute_returns out) as (r & st' & Hr & Hst' & Hn & _).
  rewrite Hst in Hst'. injection Hst' as <-.
  destruct (count_ok _ _ _ Hst) as (Hnd & Hall & Hlen).
  exists r. split; [exact Hr|].
  assert (Hsig : signals r
                 = map text (Js.sort (fun a b => (position a <=? position b)%Z)
                                     (foundMatches st))).
  { unfold compute in Hr. rewrite Hst in Hr. cbn [bind] in Hr. now injection Hr as <-. }
  set (leb := fun a b : found_match => (position a <=? position b)%Z) in *.
  pose proof (sort_perm leb (foundMatches st)) as Hperm.
  assert (Hall' : Forall (fun x => position x = indexOf out (text x) 0
                                   /\ includes out (text x) = true)
                         (Js.sort leb (foundMatches st))).
  { apply Forall_forall. intros x Hx. rewrite Forall_forall in Hall. apply Hall.
    apply (Permutation_in _ Hperm), Hx. }
  assert (Hlen' : List.length (signals r)
                  = (uncertaintyCount st + todoCount st)%nat).
  { rewrite Hsig, length_map, (Permutation_length Hperm). exact Hlen. }
  split; [|split; [|split; [|split]]].
  - rewrite Hsig. apply (Permutation_NoDup (Permutation_sym (Permutation_map text Hperm))).
    exact Hnd.
  - intros s Hs. rewrite Hsig in Hs. apply in_map_iff in Hs as (x & <- & Hx).
    rewrite Forall_forall in Hall'. now apply Hall'.
  - rewrite Hsig.
    apply (sorted_map (fun a b => leb a b = true) (first_occurrence_le out)
             (fun x => position x = indexOf out (text x) 0 /\ includes out (text x) = true)).
    + intros x y [Hx _] [Hy _] Hle. unfold first_occurrence_le. rewrite <- Hx, <- Hy.
      now apply Z.leb_le.
    + exact Hall'.
    + apply sort_sorted.
      * intros x y. unfold leb. rewrite !Z.leb_le. lia.
      * intros x y z. unfold leb. rewrite !Z.leb_le. lia.
  - now rewrite Hlen', Hu, Ht.
  - rewrite Hn. unfold normalizedScore, Math_min.
    cbn [uncertaintyPenalty todoPenalty new].
    assert (Hu0 : 0 <= inject_Z (Z.of_nat (uncertaintyCount st)))
      by (rewrite <- (Zle_Qle 0); lia).
    assert (Ht0 : 0 <= inject_Z (Z.of_nat (todoCount st)))
      by (rewrite <- (Zle_Qle 0); lia).
    split.
    + intros Hnil. rewrite Hnil in Hlen'. cbn [List.length] in Hlen'.
      replace (uncertaintyCount st) with 0%nat by lia.
      replace (todoCount st) with 0%nat by lia. reflexivity.
    + intros Hz.
      destruct (Q.min_spec (inject_Z (Z.of_nat (uncertaintyCount st)) * (1 # 10)
                            + inject_Z (Z.of_nat (todoCount st)) * (2 # 10)) 1)
        as [[_ Hmin]|[_ Hmin]]; rewrite Hmin in Hz; [|discriminate].
      clear Hmin. set (u := inject_Z (Z.of_nat (uncertaintyCount st))) in *.
      set (t := inject_Z (Z.of_nat (todoCount st))) in *.
      assert (Hu1 : u == 0) by (apply Qle_antisym; lra).
      assert (Ht1 : t == 0) by (apply Qle_antisym; lra).
      subst u t.
      assert (Hu2 : Z.of_nat (uncertaintyCount st) = 0%Z)
        by (apply inject_Z_injective; exact Hu1).
      assert (Ht2 : Z.of_nat (todoCount st) = 0%Z)
        by (apply inject_Z_injective; exact Ht1).
      destruct (signals r); [reflexivity|]. cbn [List.length] in Hlen'. lia.
Qed.

End SignalFacts.

(** ** Ranges of the analyzers' results *)

Section ComponentFacts.
Import GovernanceEngine.

Lemma validate_coverage_range (hc : HeaderChecker.t) (out : string)
    (hr : HeaderChecker.result) :
  HeaderChecker.validate hc (VString out) = Return hr ->
  (0 <= HeaderChecker.coverage hr <= 100)%Z.
Proof.
  intros H. destruct (validate_returns hc out) as (r & Hr & Hf & _ & _ & Hc).
  rewrite H in Hr. injection Hr as <-. rewrite Hc.
  destruct (HeaderChecker.required hc) as [|h hs] eqn:Hreq; [lia|].
  assert (Hlen : (List.length (HeaderChecker.found hr) <= List.length (h :: hs))%nat).
  { rewrite Hf. apply filter_length_le. }
  set (f := Z.of_nat (List.length (HeaderChecker.found hr))) in *.
  set (n := Z.of_nat (List.length (h :: hs))).
  assert (0 < n)%Z by (subst n; cbn [List.length]; lia).
  assert (0 <= f <= n)%Z by (subst f n; lia).
  split.
  - apply Z.div_pos; lia.
  - assert ((200 * f + n) / (2 * n) < 101)%Z; [|lia].
    apply Z.div_lt_upper_bound; lia.
Qed.

Lemma new_inv (config : Config) (self : t) :
  new config = Return self ->
  exists cap,
    cfg_capsule config = Some cap
    /\ capsule self = cap
    /\ retryPressure self = RetryPressure.new
    /\ headerChecker self
       = HeaderChecker.mkChecker
           (match requiredHeaders cap with Some hs => hs | None => [] end) false false
    /\ driftDetector self
       = DriftDetector.mkDetector
           (map toLowerCase (match driftKeywords cap with Some ks => ks | None => [] end))
           false []
    /\ escalationDetector self
       = EscalationDetector.new
           (EscalationDetector.mkOptions (requiredForHighRisk cap)
              (Some (match escalationTriggers cap with Some ts => ts | None => [] end))
              (Some (7 # 10)))
    /\ threshold self
       = match cfg_compliance config with
         | Some c => if (c =? 0)%Z then 80%Z else c
         | None => 80%Z
         end
    /\ weights self
       = match cfg_weights config with Some w => w | None => DEFAULT_WEIGHTS end
    /\ Qabs (weights_sum (weights self) - 1) <= 1 # 1000.
Proof.
  unfold new. destruct (cfg_capsule config) as [cap|]; [|discriminate].
  destruct (cfg_weights config) as [w|] eqn:Hw.
  - destruct (Qle_bool (Qabs (weights_sum w - 1)) (1 # 1000)) eqn:Hsum; [|discriminate].
    cbn. intros [= <-]. exists cap. cbn. repeat split. now apply Qle_bool_iff.
  - cbn. intros [= <-]. exists cap. cbn. repeat split. now apply Qle_bool_iff.
Qed.

Lemma compute_normalized_range (out : string) (rr : RetryPressure.result) :
  RetryPressure.compute RetryPressure.new (VString out) = Return rr ->
  0 <= RetryPressure.normalized rr <= 1.
Proof.
  intros H. destruct (compute_returns out) as (r & st & Hr & _ & Hn & _).
  rewrite H in Hr. injection Hr as <-. rewrite Hn.
  unfold RetryPressure.normalizedScore, Math_min. cbn [RetryPressure.uncertaintyPenalty
    RetryPressure.todoPenalty RetryPressure.new].
  set (u := inject_Z (Z.of_nat (RetryPressure.uncertaintyCount st))).
  set (d := inject_Z (Z.of_nat (RetryPressure.todoCount st))).
  assert (0 <= u) by (subst u; rewrite <- (Zle_Qle 0); lia).
  assert (0 <= d) by (subst d; rewrite <- (Zle_Qle 0); lia).
  split.
  - apply Q.min_glb; lra.
  - apply Q.le_min_r.
Qed.

Lemma _computeRetryScore_range (n : Q) : 0 <= n -> (0 <= _computeRetryScore n <= 100)%Z.
Proof.
  intros Hn. unfold _computeRetryScore.
  assert (0 <= Math_round (n * 100))%Z; [|lia].
  apply Math_round_lower. change (inject_Z 0) with 0. lra.
Qed.

Lemma _computeDriftScore_range (n : nat) : (0 <= _computeDriftScore n <= 100)%Z.
Proof. unfold _computeDriftScore. lia. Qed.

End ComponentFacts.

(** ** RetryPressure: score and pressure *)

Section RetryScore.
Import RetryPressure.

Lemma Math_round_comp (x y : Q) : x == y -> Math_round x = Math_round y.
Proof. intros H. unfold Math_round. apply Qfloor_comp. now rewrite H. Qed.

Lemma Math_round_Z (x : Q) (z : Z) : x == inject_Z z -> Math_round x = z.
Proof. intros H. rewrite (Math_round_comp _ _ H). apply Math_round_inject_Z. Qed.

(** X8.  Score and pressure are two readings of one number: [normalized]
    lies between 0 and 1, [score] is the integer 100 - 100 x normalized
    between 0 and 100, and the retry score that the engine computes again
    from [normalized] is the same as [score]. *)
Theorem compute_score_complements_normalized :
  forall out : string,
  exists r,
    compute new (VString out) = Return r
    /\ 0 <= normalized r <= 1
    /\ inject_Z (score r) == 100 - 100 * normalized r
    /\ (0 <= score r <= 100)%Z
    /\ GovernanceEngine._computeRetryScore (normalized r) = score r.
Proof.
  intros out. destruct (compute_returns out) as (r & st & Hr & _ & Hn & Hs).
  exists r. split; [exact Hr|].
  split; [exact (compute_normalized_range _ _ Hr)|].
  unfold GovernanceEngine._computeRetryScore.
  rewrite (Math_round_comp _ _ (Qmult_comp _ _ Hn _ _ (Qeq_refl 100))).
  rewrite Hs, Hn. clear Hr Hs Hn.
  unfold normalizedScore, Math_min. cbn [uncertaintyPenalty todoPenalty new].
  set (U := Z.of_nat (uncertaintyCount st)). set (T := Z.of_nat (todoCount st)).
  assert (HU : (0 <= U)%Z) by (subst U; lia).
  assert (HT : (0 <= T)%Z) by (subst T; lia).
  set (x := inject_Z U * (1 # 10) + inject_Z T * (2 # 10)).
  assert (Hx : x * 10 == inject_Z (U + 2 * T)).
  { subst x. rewrite inject_Z_plus, inject_Z_mult. change (inject_Z 2) with 2. lra. }
  destruct (Q.min_spec x 1) as [[Hlt Hmin]|[Hle Hmin]].
  - assert (Hk : (U + 2 * T < 10)%Z).
    { rewrite Zlt_Qlt, <- Hx. change (inject_Z 10) with 10. lra. }
    assert (H1 : (1 - Qmin x 1) * 100 == inject_Z (100 - 10 * (U + 2 * T))).
    { rewrite Hmin. unfold Z.sub. rewrite inject_Z_plus, inject_Z_opp, inject_Z_mult, <- Hx.
      change (inject_Z 100) with 100. change (inject_Z 10) with 10. lra. }
    assert (H2 : Qmin x 1 * 100 == inject_Z (10 * (U + 2 * T))).
    { rewrite Hmin, inject_Z_mult, <- Hx. change (inject_Z 10) with 10. lra. }
    rewrite (Math_round_Z _ _ H1), (Math_round_Z _ _ H2).
    split; [|split; [lia|lia]].
    rewrite Hmin. unfold Z.sub. rewrite inject_Z_plus, inject_Z_opp, inject_Z_mult, <- Hx.
    change (inject_Z 100) with 100. change (inject_Z 10) with 10. lra.
  - assert (H1 : (1 - Qmin x 1) * 100 == inject_Z 0).
    { rewrite Hmin. reflexivity. }
    assert (H2 : Qmin x 1 * 100 == inject_Z 100).
    { rewrite Hmin. reflexivity. }
    rewrite (Math_round_Z _ _ H1), (Math_round_Z _ _ H2).
    split; [|split; [lia|reflexivity]].
    rewrite Hmin. reflexivity.
Qed.

End RetryScore.

(** ** GovernanceEngine: the report *)

Section ReportFacts.
Import GovernanceEngine.

(** The report that [evaluate] returns, field by field. *)
Lemma evaluate_report fuel self task output baseline log log' rep :
  evaluate fuel self task output baseline log = (log', Return rep) ->
  exists t tid out hr dr er rr,
    task = Some t /\ id t = Some tid /\ tid <> EmptyString
    /\ output = VString out /\ out <> EmptyString
    /\ HeaderChecker.validate (headerChecker self) (VString out) = Return hr
    /\ DriftDetector.detect fuel (driftDetector self) (VString out) (drift_options t)
       = Return dr
    /\ EscalationDetector.check (escalationDetector self) (VString out) = Return er
    /\ RetryPressure.compute (retryPressure self) (VString out) = Return rr
    /\ analysis rep = _buildAnalysis self t hr dr er rr
    /\ verdict rep = _computeVerdict self t (analysis rep) hr dr
    /\ recommendedActions rep
       = fst (_computeActions self (verdict rep) (analysis rep) (deltas rep)
                (baseline_provided baseline) (customWeightsApplied self))
    /\ task_id rep = tid
    /\ metadata rep = _buildMetadata self (customWeightsApplied self).
Proof.
  unfold evaluate.
  destruct task as [t|]; [|discriminate].
  destruct (id t) as [tid|] eqn:Hid; [|discriminate].
  destruct (String.eqb_spec tid EmptyString) as [|Htid]; [discriminate|].
  destruct output as [| | | |out|]; try discriminate.
  destruct (String.length out =? 0)%nat eqn:Hlen; [discriminate|].
  unfold bindM, invoke, ret. fold (drift_options t). fold (baseline_provided baseline).
  destruct (HeaderChecker.validate _ _) as [hr| |] eqn:Hhr; try discriminate.
  destruct (DriftDetector.detect _ _ _ _) as [dr| |] eqn:Hdr; try discriminate.
  destruct (EscalationDetector.check _ _) as [er| |] eqn:Her; try discriminate.
  destruct (RetryPressure.compute _ _) as [rr| |] eqn:Hrr; try discriminate.
  intros H. exists t, tid, out, hr, dr, er, rr.
  split; [reflexivity|]. split; [exact Hid|]. split; [exact Htid|].
  split; [reflexivity|]. split; [intros ->; discriminate|].
  split; [exact Hhr|]. split; [exact Hdr|]. split; [exact Her|]. split; [exact Hrr|].
  assert (Hfin : forall ds l,
             (let '(recommendedActions, an) :=
                _computeActions self
                  (_computeVerdict self t (_buildAnalysis self t hr dr er rr) hr dr)
                  (_buildAnalysis self t hr dr er rr) ds (baseline_provided baseline)
                  (customWeightsApplied self) in
              fun log0 : list call => (log0, Return
                 {| schemaVersion := "1.0";
                     task_id := tid;
                     task_risk := match risk t with
                                  | Some r =>
                                      if String.eqb r EmptyString then None else Some r
                                  | None => None
                                  end;
                     analysis := an;
                     deltas := ds;
                     verdict :=
                       _computeVerdict self t (_buildAnalysis self t hr dr er rr) hr dr;
                     recommendedActions := recommendedActions;
                     metadata := _buildMetadata self (customWeightsApplied self) |})) l
             = (log', Return rep) ->
             analysis rep = _buildAnalysis self t hr dr er rr
             /\ verdict rep = _computeVerdict self t (analysis rep) hr dr
             /\ recommendedActions rep
                = fst (_computeActions self (verdict rep) (analysis rep) (deltas rep)
                         (baseline_provided baseline) (customWeightsApplied self))
             /\ task_id rep = tid
             /\ metadata rep = _buildMetadata self (customWeightsApplied self)).
  { intros ds l.
    pose proof (_computeActions_analysis self
                  (_computeVerdict self t (_buildAnalysis self t hr dr er rr) hr dr)
                  (_buildAnalysis self t hr dr er rr) ds (baseline_provided baseline)
                  (customWeightsApplied self)
                  (_buildAnalysis_sorted self t hr dr er rr)) as Hsnd.
    destruct (_computeActions _ _ _ _ _ _) as [ra an] eqn:Hca. cbn [snd] in Hsnd. subst an.
    intros E. injection E as _ <-. cbn [analysis verdict recommendedActions deltas
                                          task_id metadata].
    rewrite Hca. repeat split. }
  destruct baseline as [b|].
  - cbn [baseline_provided] in *. destruct (String.length b =? 0)%nat.
    + exact (Hfin _ _ H).
    + destruct (_computeDeltas _ _ _ _ _ _) as [l [d| |]]; try discriminate.
      exact (Hfin _ _ H).
  - exact (Hfin _ _ H).
Qed.

End ReportFacts.

Section VerdictFacts.
Import GovernanceEngine.

Lemma has_severity_In (s : Severity.t) (vs : list Violation) :
  has_severity s vs = true <-> exists x, In x vs /\ severity x = s.
Proof.
  unfold has_severity. rewrite existsb_exists.
  split; intros (x & Hx & Hs); exists x; (split; [exact Hx|]).
  - now destruct (severity x), s.
  - subst s. now destruct (severity x).
Qed.

Lemma has_severity_sorted (s : Severity.t) (vs : list Violation) :
  has_severity s (_sortViolations vs) = has_severity s vs.
Proof.
  apply eq_true_iff_eq. rewrite !has_severity_In.
  split; intros (x & Hx & Hs); exists x; (split; [|exact Hs]).
  - apply (Permutation_in _ (sort_perm violation_leb vs)), Hx.
  - apply (Permutation_in _ (Permutation_sym (sort_perm violation_leb vs))), Hx.
Qed.

Lemma sort_singleton {A : Type} (leb : A -> A -> bool) (x : A) : Js.sort leb [x] = [x].
Proof. reflexivity. Qed.

End VerdictFacts.

Section ViolationCaps.
Import GovernanceEngine.

(** X9.  Violations override the score.  In every report of [evaluate], a
    critical violation caps the score at 49, makes the verdict non-compliant
    and leaves the single recommendation to block; a high violation caps the
    score at 79.  A compliant verdict has reached the threshold of the engine
    and has no critical violation. *)
Theorem evaluate_violation_caps :
  forall (fuel : nat) (self : t) (task : option Task) (output : Js.value)
         (baseline : option string) (log log' : list call) (rep : Report),
    evaluate fuel self task output baseline log = (log', Return rep) ->
    let v := verdict rep in
    ((exists x, In x (violations v) /\ severity x = Severity.CRITICAL) ->
     (score v <= 49)%Z /\ compliant v = false /\ recommendedActions rep = [block_action])
    /\ ((exists x, In x (violations v) /\ severity x = Severity.HIGH) ->
        (score v <= 79)%Z)
    /\ (compliant v = true ->
        (threshold self <= score v)%Z
        /\ forall x, In x (violations v) -> severity x <> Severity.CRITICAL).
Proof.
  intros fuel self task output baseline log log' rep H.
  destruct (evaluate_report _ _ _ _ _ _ _ _ H)
    as (t & tid & out & hr & dr & er & rr & _ & _ & _ & _ & _ & _ & _ & _ & _
        & _ & Hv & Hact & _).
  cbv zeta. rewrite Hact.
  set (an := analysis rep) in *. set (ds := deltas rep). clearbody an ds.
  rewrite Hv. clear Hv Hact H.
  unfold _computeActions, _computeVerdict.
  cbn [violations score compliant]. rewrite <- !has_severity_In, !has_severity_sorted.
  set (vs := _collectViolations t an hr dr).
  destruct (has_severity Severity.CRITICAL vs) eqn:Hc.
  - cbn [negb andb fst]. rewrite andb_false_r. cbn [negb fst].
    split; [intros _; split; [lia|split; reflexivity]|].
    split; [intros _; lia|discriminate].
  - split; [discriminate|].
    destruct (has_severity Severity.HIGH vs) eqn:Hh.
    + split; [intros _; lia|]. rewrite andb_true_r.
      intros Hle. split; [now apply Z.leb_le|].
      intros x Hx Hs. assert (has_severity Severity.CRITICAL vs = true) as E; [|congruence].
      rewrite <- has_severity_sorted. apply has_severity_In. now exists x.
    + split; [discriminate|]. rewrite andb_true_r.
      intros Hle. split; [now apply Z.leb_le|].
      intros x Hx Hs. assert (has_severity Severity.CRITICAL vs = true) as E; [|congruence].
      rewrite <- has_severity_sorted. apply has_severity_In. now exists x.
Qed.

End ViolationCaps.

Section RequiredFacts.
Import GovernanceEngine.

Lemma _determineEscalationRequired_true (self : t) (task : Task) :
  _determineEscalationRequired self task = Some true
  <-> requiresEscalation task = Some true
      \/ (requiresEscalation task = None /\ risk task = Some "HIGH"
          /\ requiredForHighRisk (capsule self) = VBool true).
Proof.
  unfold _determineEscalationRequired.
  destruct (requiresEscalation task) as [[|]|].
  - split; [now left|reflexivity].
  - split; [discriminate|]. intros [H|(H & _)]; discriminate H.
  - destruct (risk task) as [r|].
    + destruct (String.eqb_spec r "HIGH") as [->|Hr].
      * destruct (requiredForHighRisk (capsule self)) as [| |[|]| | |];
          (split; [try discriminate; intros _; right; repeat split
                  |intros [H|(_ & _ & H)]; try discriminate H; reflexivity]).
      * destruct (String.eqb r "LOW");
          (split; [discriminate|intros [H|(_ & H & _)]; [discriminate H|congruence]]).
    + split; [discriminate|]. intros [H|(_ & H & _)]; discriminate H.
Qed.

End RequiredFacts.

Section BlockFacts.
Import GovernanceEngine.

Ltac collect_cases an hr dr :=
  unfold _collectViolations;
  destruct (negb (HeaderChecker.compliant hr));
  destruct (2 <=? DriftDetector.count dr)%nat;
  destruct (e_ok (escalation an)) as [[|]|];
  destruct (e_required (escalation an)) as [[|]|];
  destruct (e_detected (escalation an));
  cbn [andb negb app].

Lemma escalated_false_iff (ed : EscalationDetector.t) (out : string)
    (er : EscalationDetector.result) :
  EscalationDetector.check ed (VString out) = Return er ->
  EscalationDetector.escalated er = false <-> no_trigger ed out.
Proof.
  intros Her. destruct (check_returns ed out) as (er' & Her' & _ & Htr).
  rewrite Her in Her'. injection Her' as <-.
  assert (Hesc : EscalationDetector.escalated er
                 = (0 <? List.length (EscalationDetector.triggers er))%nat).
  { cbn in Her. injection Her as <-. reflexivity. }
  rewrite Hesc, Htr. unfold no_trigger.
  set (ts := EscalationDetector.defaultTriggers ed ++ EscalationDetector.customTriggers ed).
  clearbody ts. clear. induction ts as [|x ts IH]; cbn [filter].
  - split; [intros _ ? []|reflexivity].
  - destruct (includes (toLowerCase out) (toLowerCase x)) eqn:Hx; cbn [List.length].
    + split; [discriminate|]. intros Hall. rewrite (Hall x) in Hx; [discriminate|now left].
    + rewrite IH. split.
      * intros Hall y [<-|Hy]; [exact Hx|now apply Hall].
      * intros Hall y Hy. apply Hall. now right.
Qed.

(** The states of the escalation analysis that [_buildAnalysis] can build. *)
Lemma _buildAnalysis_escalation self t hr dr er rr :
  let e := escalation (_buildAnalysis self t hr dr er rr) in
  e_required e = _determineEscalationRequired self t
  /\ e_detected e = EscalationDetector.escalated er
  /\ e_ok e = match e_required e with
              | None => None
              | Some true => Some (e_detected e)
              | Some false => Some (negb (e_detected e))
              end.
Proof.
  cbn [_buildAnalysis escalation e_required e_detected e_ok]. unfold _determineEscalationOk.
  split; [reflexivity|]. split; [reflexivity|].
  now destruct (_determineEscalationRequired self t) as [[|]|].
Qed.

(** X10.  An output is blocked exactly when escalation is required for the
    task and no trigger of the escalation detector, default or of the
    capsule, occurs in the lower-cased output.  Escalation is required when
    the task says so, or when the task says nothing, its risk is HIGH and the
    capsule requires escalation for high risk.  A block is also exactly the
    case in which the verdict holds the violation FOP_ESCALATION_MISSED, the
    only critical one. *)
Theorem evaluate_blocks_iff :
  forall (fuel : nat) (self : t) (task : option Task) (output : Js.value)
         (baseline : option string) (log log' : list call) (rep : Report),
    evaluate fuel self task output baseline log = (log', Return rep) ->
    exists t out,
      task = Some t /\ output = VString out
      /\ (_determineEscalationRequired self t = Some true
          <-> requiresEscalation t = Some true
              \/ (requiresEscalation t = None /\ risk t = Some "HIGH"
                  /\ requiredForHighRisk (capsule self) = VBool true))
      /\ ((exists a, In a (recommendedActions rep) /\ type a = ActionType.BLOCK)
          <-> _determineEscalationRequired self t = Some true
              /\ no_trigger (escalationDetector self) out)
      /\ ((exists x, In x (violations (verdict rep)) /\ code x = FOP_ESCALATION_MISSED)
          <-> _determineEscalationRequired self t = Some true
              /\ no_trigger (escalationDetector self) out)
      /\ (forall x, In x (violations (verdict rep)) ->
            severity x = Severity.CRITICAL <-> code x = FOP_ESCALATION_MISSED).
Proof.
  intros fuel self task output baseline log log' rep H.
  destruct (evaluate_report _ _ _ _ _ _ _ _ H)
    as (t & tid & out & hr & dr & er & rr & -> & _ & _ & -> & _ & _ & _ & Her & _
        & Han & Hv & Hact & _).
  exists t, out. split; [reflexivity|]. split; [reflexivity|].
  split; [apply _determineEscalationRequired_true|].
  rewrite <- (escalated_false_iff _ _ _ Her).
  destruct (_buildAnalysis_escalation self t hr dr er rr) as (Hreq & Hdet & Hok).
  cbv zeta in Hreq, Hdet, Hok. rewrite <- Han in Hreq, Hdet, Hok.
  rewrite <- Hreq, <- Hdet. rewrite Hact, Hv.
  set (an := analysis rep) in *. set (ds := deltas rep).
  clearbody an ds. clear Hv Hact H Han Hreq Hdet Her.
  unfold _computeActions, _computeVerdict.
  cbn [violations score compliant v_threshold]. rewrite !has_severity_sorted.
  set (raw := Math_round _).
  unfold _sortActions. rewrite !sort_singleton.
  assert (Hsorted : forall vs (P : Violation -> Prop),
             (exists x, In x (_sortViolations vs) /\ P x) <-> (exists x, In x vs /\ P x)).
  { intros vs P. split; intros (x & Hx & HP); exists x; (split; [|exact HP]).
    - apply (Permutation_in _ (sort_perm violation_leb vs)), Hx.
    - apply (Permutation_in _ (Permutation_sym (sort_perm violation_leb vs))), Hx. }
  assert (Hall : forall vs (P : Violation -> Prop),
             (forall x, In x vs -> P x) -> forall x, In x (_sortViolations vs) -> P x).
  { intros vs P HP x Hx. apply HP.
    apply (Permutation_in _ (sort_perm violation_leb vs)), Hx. }
  rewrite Hsorted.
  revert Hok. collect_cases an hr dr; intros Hok; try discriminate Hok;
    cbv [has_severity existsb severity Severity.eqb orb]; cbn [negb andb];
    rewrite ?andb_false_r, ?andb_true_r; cbn [negb fst];
    try (destruct (threshold self <=? _)%Z; cbn [negb fst]);
    (split; [split; [intros (a & [<-|[]] & Ha); try discriminate Ha; now split
                    |intros (? & ?);
                     first [discriminate
                           |eexists; split; [left; reflexivity|reflexivity]]]|]);
    (split; [split; [intros (x & Hx & Hc); cbn [In] in Hx;
                     repeat (destruct Hx as [<-|Hx]; [try discriminate Hc; now split|]);
                     contradiction
                    |intros (? & ?);
                     first [discriminate
                           |eexists; split; [cbn [In]; eauto 6|reflexivity]]]|]);
    apply Hall; intros x Hx; cbn [In] in Hx;
    repeat (destruct Hx as [<-|Hx]; [cbn; split; intros; try discriminate; reflexivity|]);
    contradiction.
Qed.

End BlockFacts.

Section ActionFacts.
Import GovernanceEngine.

Ltac collect_cases an hr dr :=
  unfold _collectViolations;
  destruct (negb (HeaderChecker.compliant hr));
  destruct (2 <=? DriftDetector.count dr)%nat;
  destruct (e_ok (escalation an)) as [[|]|];
  destruct (e_required (escalation an)) as [[|]|];
  destruct (e_detected (escalation an));
  cbn [andb negb app].

(** X11.  Every report recommends exactly one action.  Its type is ALLOW or
    ESCALATE exactly when the verdict is compliant, and ESCALATE exactly
    when, besides, escalation was required and detected; the priority
    follows from the type.  A retry gives as its reason the message of the
    first violation (the canonical drift reason when that is scope drift),
    and the default reason only when there is no violation. *)
Theorem evaluate_single_action :
  forall (fuel : nat) (self : t) (task : option Task) (output : Js.value)
         (baseline : option string) (log log' : list call) (rep : Report),
    evaluate fuel self task output baseline log = (log', Return rep) ->
    exists a,
      recommendedActions rep = [a]
      /\ priority a = priority_of (type a)
      /\ (compliant (verdict rep) = true
          <-> type a = ActionType.ALLOW \/ type a = ActionType.ESCALATE)
      /\ (type a = ActionType.ESCALATE
          <-> compliant (verdict rep) = true
              /\ e_required (escalation (analysis rep)) = Some true
              /\ e_detected (escalation (analysis rep)) = true)
      /\ (type a = ActionType.RETRY -> reason a = retry_reason (violations (verdict rep))).
Proof.
  intros fuel self task output baseline log log' rep H.
  destruct (evaluate_report _ _ _ _ _ _ _ _ H)
    as (t & tid & out & hr & dr & er & rr & _ & _ & _ & _ & _ & _ & _ & _ & _
        & _ & Hv & Hact & _).
  rewrite Hact, Hv. set (an := analysis rep). set (ds := deltas rep).
  clearbody an ds. clear Hv Hact H.
  unfold _computeActions, _computeVerdict.
  cbn [violations score compliant v_threshold]. rewrite !has_severity_sorted.
  set (raw := Math_round _).
  collect_cases an hr dr;
    cbv [has_severity existsb severity Severity.eqb orb]; cbn [negb andb];
    rewrite ?andb_false_r, ?andb_true_r; cbn [negb fst];
    try (destruct (threshold self <=? _)%Z; cbn [negb fst]);
    eexists; (split; [reflexivity|]); cbn [type priority reason];
    (split; [reflexivity|]);
    (split; [split; [try discriminate; intros _; tauto
                    |intros [?|?]; try discriminate; reflexivity]|]);
    (split; [split; [try discriminate; intros _; repeat split; reflexivity
                    |intros (? & ? & ?); try discriminate; reflexivity]|]);
    try discriminate; intros _; reflexivity.
Qed.

End ActionFacts.

Section ViolationOrder.
Import GovernanceEngine.

Ltac collect_cases t an hr dr :=
  unfold _collectViolations;
  destruct (negb (HeaderChecker.compliant hr));
  destruct (2 <=? DriftDetector.count dr)%nat;
  destruct (e_ok (escalation an)) as [[|]|];
  destruct (e_required (escalation an)) as [[|]|];
  destruct (e_detected (escalation an));
  cbn [andb negb app].

Ltac ordered :=
  repeat (constructor;
          try first [left; reflexivity | right; split; reflexivity]).

(** X12.  The violations of a verdict are in the normative order: the more
    severe first and, within one severity, ascending by code; no code comes
    twice.  Missing headers and scope drift are high, a missed escalation is
    critical, a false escalation is low, and nothing else is ever reported. *)
Theorem evaluate_violations_ordered :
  forall (fuel : nat) (self : t) (task : option Task) (output : Js.value)
         (baseline : option string) (log log' : list call) (rep : Report),
    evaluate fuel self task output baseline log = (log', Return rep) ->
    let vs := violations (verdict rep) in
    StronglySorted violation_before vs
    /\ (List.length vs <= 3)%nat
    /\ forall x, In x vs ->
         (code x = HEADER_SCHEMA_MISSING /\ severity x = Severity.HIGH)
         \/ (code x = SEG_SCOPE_DRIFT /\ severity x = Severity.HIGH)
         \/ (code x = FOP_ESCALATION_MISSED /\ severity x = Severity.CRITICAL)
         \/ (code x = FOP_FALSE_ESCALATION /\ severity x = Severity.LOW).
Proof.
  intros fuel self task output baseline log log' rep H.
  destruct (evaluate_report _ _ _ _ _ _ _ _ H)
    as (t & tid & out & hr & dr & er & rr & _ & _ & _ & _ & _ & _ & _ & _ & _
        & _ & Hv & _).
  cbv zeta. rewrite Hv. set (an := analysis rep). clearbody an. clear Hv H.
  unfold _computeVerdict. cbn [violations].
  collect_cases t an hr dr;
    (split; [cbv [_sortViolations Js.sort fold_left Js.insert_sorted violation_leb
                    SEVERITY_RANK severity code code_string];
             cbn; ordered
            |split; [cbn; lia|]]);
    intros x Hx;
    apply (Permutation_in _ (sort_perm violation_leb _)) in Hx;
    cbn [In] in Hx;
    repeat (destruct Hx as [<-|Hx]; [cbn; tauto|]); contradiction.
Qed.

End ViolationOrder.

Section ViolationsFromAnalysis.
Import GovernanceEngine.

Ltac pick_violation :=
  eexists;
  first [split; [left; reflexivity|split; reflexivity]
        |split; [right; left; reflexivity|split; reflexivity]
        |split; [right; right; left; reflexivity|split; reflexivity]].

(** X13.  The violations of a verdict can be read off the analysis of the
    same report.  HEADER_SCHEMA_MISSING is reported exactly when the headers
    are not compliant, with the missing headers as evidence; SEG_SCOPE_DRIFT
    exactly from two drift incidents on, with the drift signals as evidence;
    FOP_FALSE_ESCALATION exactly when escalation was known not to be
    required and was detected, with the triggers as evidence. *)
Theorem evaluate_violations_from_analysis :
  forall (fuel : nat) (self : t) (task : option Task) (output : Js.value)
         (baseline : option string) (log log' : list call) (rep : Report),
    evaluate fuel self task output baseline log = (log', Return rep) ->
    let an := analysis rep in
    let reported := fun c ev =>
      exists x, In x (violations (verdict rep)) /\ code x = c /\ evidence x = ev in
    (reported HEADER_SCHEMA_MISSING (map Some (h_missing (headers an)))
     <-> h_compliant (headers an) = false)
    /\ (reported SEG_SCOPE_DRIFT (d_signals (drift an))
        <-> (2 <= d_incidents (drift an))%nat)
    /\ (reported FOP_FALSE_ESCALATION (map Some (e_triggers (escalation an)))
        <-> e_required (escalation an) = Some false
            /\ e_detected (escalation an) = true).
Proof.
  intros fuel self task output baseline log log' rep H.
  destruct (evaluate_report _ _ _ _ _ _ _ _ H)
    as (t & tid & out & hr & dr & er & rr & _ & _ & _ & _ & _ & _ & _ & _ & _
        & Han & Hv & _).
  destruct (_buildAnalysis_escalation self t hr dr er rr) as (_ & _ & Hok).
  cbv zeta in Hok. rewrite <- Han in Hok.
  assert (Hh : h_compliant (headers (analysis rep)) = HeaderChecker.compliant hr
               /\ h_missing (headers (analysis rep)) = HeaderChecker.missing hr
               /\ d_incidents (drift (analysis rep)) = DriftDetector.count dr
               /\ d_signals (drift (analysis rep)) = DriftDetector.matches dr).
  { rewrite Han. repeat split. }
  destruct Hh as (Hc & Hm & Hi & Hs).
  cbv zeta. rewrite Hv, Hc, Hm, Hi, Hs.
  set (an := analysis rep) in *. clearbody an. clear Hv Han H Hc Hm Hi Hs.
  unfold _computeVerdict. cbn [violations].
  assert (Hsorted : forall vs (P : Violation -> Prop),
             (exists x, In x (_sortViolations vs) /\ P x) <-> (exists x, In x vs /\ P x)).
  { intros vs P. split; intros (x & Hx & HP); exists x; (split; [|exact HP]).
    - apply (Permutation_in _ (sort_perm violation_leb vs)), Hx.
    - apply (Permutation_in _ (Permutation_sym (sort_perm violation_leb vs))), Hx. }
  rewrite !Hsorted. clear Hsorted. revert Hok. unfold _collectViolations.
  destruct (HeaderChecker.compliant hr);
    destruct (Nat.leb_spec 2 (DriftDetector.count dr));
    destruct (e_ok (escalation an)) as [[|]|];
    destruct (e_required (escalation an)) as [[|]|];
    destruct (e_detected (escalation an));
    cbn [andb negb app]; intros Hok; try discriminate Hok;
    (split; [split; [intros (x & Hx & Hcode & _); cbn [In] in Hx;
                     repeat (destruct Hx as [<-|Hx]; [try discriminate Hcode; reflexivity|]);
                     contradiction
                    |intros ?;
                     first [discriminate
                           |pick_violation]]|]);
    (split; [split; [intros (x & Hx & Hcode & _); cbn [In] in Hx;
                     repeat (destruct Hx as [<-|Hx]; [try discriminate Hcode; assumption|]);
                     contradiction
                    |intros ?;
                     first [lia
                           |pick_violation]]|]);
    (split; [intros (x & Hx & Hcode & _); cbn [In] in Hx;
             repeat (destruct Hx as [<-|Hx]; [try discriminate Hcode; now split|]);
             contradiction
            |intros (? & ?);
             first [discriminate
                   |pick_violation]]).
Qed.

End ViolationsFromAnalysis.

(** ** GovernanceEngine: score and confidence *)

Section ScoreFacts.
Import GovernanceEngine.

(** The scores that go into the weighted sum of [_computeVerdict] when the
    analysis comes from [_buildAnalysis]. *)
Lemma header_score_range (hc : HeaderChecker.t) (out : string) (hr : HeaderChecker.result) :
  HeaderChecker.validate hc (VString out) = Return hr ->
  (0 <= (if HeaderChecker.compliant hr then 100
         else Math_floor (inject_Z (HeaderChecker.coverage hr) / 100 * 100)) <= 100)%Z.
Proof.
  intros H. destruct (HeaderChecker.compliant hr); [lia|].
  rewrite Math_floor_percent. exact (validate_coverage_range _ _ _ H).
Qed.

Lemma weighted_sum_range (H D R E : Z) (w : Weights) :
  (0 <= H <= 100)%Z -> (0 <= D <= 100)%Z -> (0 <= R <= 100)%Z -> (0 <= E <= 100)%Z ->
  nonnegative w -> Qabs (weights_sum w - 1) <= 1 # 1000 ->
  (0 <= Math_round (inject_Z H * w_headers w + inject_Z D * w_drift w
                    + inject_Z R * w_retry w + inject_Z E * w_escalation w) <= 100)%Z.
Proof.
  intros HH HD HR HE (Hwh & Hwd & Hwr & Hwe) Hsum.
  apply Qabs_Qle_condition in Hsum. unfold weights_sum in Hsum.
  assert (Hq : forall z, (0 <= z <= 100)%Z -> 0 <= inject_Z z <= 100).
  { intros z [Hz0 Hz1]. rewrite Zle_Qle in Hz0, Hz1. exact (conj Hz0 Hz1). }
  apply Hq in HH, HD, HR, HE.
  set (h := inject_Z H) in *. set (d := inject_Z D) in *.
  set (r := inject_Z R) in *. set (e := inject_Z E) in *.
  split.
  - apply Math_round_lower. change (inject_Z 0) with 0. nra.
  - apply Math_round_upper. change (inject_Z 100) with 100. nra.
Qed.

Lemma escalation_score_range (ok : option bool) :
  (0 <= match ok with Some false => 0 | None => 50 | Some true => 100 end <= 100)%Z.
Proof. destruct ok as [[|]|]; lia. Qed.

Lemma _computeVerdict_caps self t an hr dr :
  let v := _computeVerdict self t an hr dr in
  let vs := _collectViolations t an hr dr in
  violations v = _sortViolations vs
  /\ v_threshold v = threshold self
  /\ (has_severity Severity.CRITICAL vs = true -> (score v <= 49)%Z /\ compliant v = false)
  /\ (has_severity Severity.HIGH vs = true -> (score v <= 79)%Z)
  /\ (compliant v = true ->
      (threshold self <= score v)%Z /\ has_severity Severity.CRITICAL vs = false).
Proof.
  cbv zeta. unfold _computeVerdict. cbn [violations score compliant v_threshold].
  set (vs := _collectViolations t an hr dr).
  split; [reflexivity|]. split; [reflexivity|].
  destruct (has_severity Severity.CRITICAL vs), (has_severity Severity.HIGH vs);
    rewrite ?andb_false_r, ?andb_true_r;
    repeat split; try discriminate; try lia; try (now apply Z.leb_le).
Qed.

End ScoreFacts.

Section ScoreRange.
Import GovernanceEngine.

(** X14.  For an engine that the constructor built with weights that are not
    negative, the score of every verdict is an integer from 0 to 100, and so
    are the drift and retry scores of the analysis; the header coverage of
    the analysis lies between 0 and 1. *)
Theorem evaluate_score_range :
  forall (config : Config) (self : t),
    new config = Return self ->
    nonnegative (weights self) ->
    forall (fuel : nat) (task : option Task) (output : Js.value)
           (baseline : option string) (log log' : list call) (rep : Report),
      evaluate fuel self task output baseline log = (log', Return rep) ->
      (0 <= score (verdict rep) <= 100)%Z
      /\ (0 <= d_score (drift (analysis rep)) <= 100)%Z
      /\ (0 <= r_score (retry (analysis rep)) <= 100)%Z
      /\ 0 <= h_coverage (headers (analysis rep)) <= 1.
Proof.
  intros config self Hnew Hw fuel task output baseline log log' rep H.
  destruct (new_inv _ _ Hnew) as (cap & _ & _ & Hrp & _ & _ & _ & _ & _ & Hsum).
  destruct (evaluate_report _ _ _ _ _ _ _ _ H)
    as (t & tid & out & hr & dr & er & rr & _ & _ & _ & _ & _ & Hhr & _ & _ & Hrr
        & Han & Hv & _).
  rewrite Hrp in Hrr.
  pose proof (validate_coverage_range _ _ _ Hhr) as Hcov.
  pose proof (header_score_range _ _ _ Hhr) as Hhs.
  pose proof (compute_normalized_range _ _ Hrr) as [Hn0 Hn1].
  pose proof (_computeRetryScore_range _ Hn0) as Hrs.
  pose proof (_computeDriftScore_range (DriftDetector.count dr)) as Hds.
  rewrite Hv, Han. cbn [_buildAnalysis drift retry headers d_score r_score h_coverage].
  split; [|split; [exact Hds|split; [exact Hrs|]]].
  - unfold _computeVerdict.
    cbn [score _buildAnalysis headers drift retry escalation h_compliant h_coverage
           d_score r_score e_ok].
    set (raw := Math_round _).
    assert (Hraw : (0 <= raw <= 100)%Z).
    { subst raw.
      apply (weighted_sum_range _ _ _ _ (weights self) Hhs Hds Hrs
               (escalation_score_range _) Hw Hsum). }
    destruct (has_severity Severity.CRITICAL _); [lia|].
    destruct (has_severity Severity.HIGH _); lia.
  - destruct Hcov as [Hc0 Hc1]. rewrite Zle_Qle in Hc0, Hc1.
    change (inject_Z 0) with 0 in Hc0. change (inject_Z 100) with 100 in Hc1.
    split; [apply Qle_shift_div_l|apply Qle_shift_div_r]; lra.
Qed.

End ScoreRange.

Section UniqId.
Context {A : Type} (eqbA : A -> A -> bool).
Hypothesis eqbA_spec : forall x y, reflect (x = y) (eqbA x y).



End UniqId.

Section ConfidenceFacts.
Import GovernanceEngine.




End ConfidenceFacts.

Section NoHeaders.
Import GovernanceEngine.

Lemma In_collect_header t an hr dr :
  HeaderChecker.compliant hr = false ->
  exists x, In x (_collectViolations t an hr dr)
            /\ code x = HEADER_SCHEMA_MISSING /\ severity x = Severity.HIGH
            /\ evidence x = map Some (HeaderChecker.missing hr).
Proof.
  intros Hc. unfold _collectViolations. rewrite Hc. cbn [negb app].
  exists {| code := HEADER_SCHEMA_MISSING;
            severity := Severity.HIGH;
            v_message := "Required structured headers missing (Plan/Gates/Action/Logs)";
            evidence := map Some (HeaderChecker.missing hr) |}.
  split; [|repeat split; reflexivity].
  destruct (2 <=? DriftDetector.count dr)%nat;
    destruct (e_ok (escalation an)) as [[|]|];
    try destruct (_ && _)%bool; try destruct (_ && _)%bool;
    cbn [app In]; auto.
Qed.

(** X16.  An engine whose capsule lists no required headers finds every
    output in breach of the header schema: the lenient checker that it
    builds has found no header, so the verdict holds HEADER_SCHEMA_MISSING
    with no evidence, although the coverage is 1.  The score is then at most
    79, and at a threshold of 80 or more, the default included, no output is
    ever compliant. *)
Theorem evaluate_without_required_headers :
  forall (config : Config) (cap : Capsule) (self : t),
    new config = Return self ->
    cfg_capsule config = Some cap ->
    match requiredHeaders cap with Some (_ :: _) => False | _ => True end ->
    forall (fuel : nat) (task : option Task) (output : Js.value)
           (baseline : option string) (log log' : list call) (rep : Report),
      evaluate fuel self task output baseline log = (log', Return rep) ->
      h_compliant (headers (analysis rep)) = false
      /\ h_coverage (headers (analysis rep)) == 1
      /\ (exists x, In x (violations (verdict rep))
                    /\ code x = HEADER_SCHEMA_MISSING /\ evidence x = [])
      /\ (score (verdict rep) <= 79)%Z
      /\ ((80 <= threshold self)%Z -> compliant (verdict rep) = false)
      /\ (cfg_compliance config = None -> compliant (verdict rep) = false).
Proof.
  intros config cap self Hnew Hcap Hreq fuel task output baseline log log' rep H.
  destruct (new_inv _ _ Hnew) as (cap' & Hcap' & _ & _ & Hhc & _ & _ & Hthr & _).
  rewrite Hcap in Hcap'. injection Hcap' as <-.
  assert (Hhc' : headerChecker self = HeaderChecker.mkChecker [] false false).
  { rewrite Hhc. destruct (requiredHeaders cap) as [[|? ?]|]; [reflexivity|contradiction|
                                                                reflexivity]. }
  destruct (evaluate_report _ _ _ _ _ _ _ _ H)
    as (t & tid & out & hr & dr & er & rr & _ & _ & _ & _ & _ & Hhr & _ & _ & _
        & Han & Hv & _).
  rewrite Hhc' in Hhr. cbn in Hhr. injection Hhr as <-.
  destruct (_computeVerdict_caps self t (analysis rep)
              (HeaderChecker.mkResult false [] [] 100) dr)
    as (Hvs & _ & _ & Hhigh & Hcomp).
  cbv zeta in Hvs, Hhigh, Hcomp. rewrite <- Hv in Hvs, Hhigh, Hcomp.
  destruct (In_collect_header t (analysis rep) (HeaderChecker.mkResult false [] [] 100) dr
              eq_refl) as (x & Hx & Hcode & Hsev & Hev).
  assert (Hle : (score (verdict rep) <= 79)%Z).
  { apply Hhigh, has_severity_In. now exists x. }
  rewrite Han at 1 2. cbn [_buildAnalysis headers h_compliant h_coverage
                             HeaderChecker.compliant HeaderChecker.coverage].
  split; [reflexivity|]. split; [reflexivity|].
  split.
  { exists x. rewrite Hvs. split; [|split; [exact Hcode|exact Hev]].
    apply (Permutation_in _ (Permutation_sym (sort_perm violation_leb _))), Hx. }
  split; [exact Hle|].
  assert (Hno : (80 <= threshold self)%Z -> compliant (verdict rep) = false).
  { intros Hthr'. destruct (compliant (verdict rep)) eqn:Hc; [|reflexivity].
    destruct (Hcomp eq_refl) as [Hs _]. lia. }
  split; [exact Hno|].
  intros Hnone. apply Hno. rewrite Hthr, Hnone. lia.
Qed.

End NoHeaders.

Section WrongEscalation.
Import GovernanceEngine.

(** X17.  With the default weights, wrong escalation behaviour costs the
    whole escalation quarter of the score: whenever the analysis reports
    [ok = false] for escalation (a required escalation missed, or an
    escalation that was not called for), the score is at most 75, so at any
    threshold above 75, the default of 80 included, the verdict is not
    compliant. *)
Theorem evaluate_wrong_escalation_default_weights :
  forall (config : Config) (self : t),
    new config = Return self ->
    cfg_weights config = None ->
    forall (fuel : nat) (task : option Task) (output : Js.value)
           (baseline : option string) (log log' : list call) (rep : Report),
      evaluate fuel self task output baseline log = (log', Return rep) ->
      e_ok (escalation (analysis rep)) = Some false ->
      (score (verdict rep) <= 75)%Z
      /\ ((75 < threshold self)%Z -> compliant (verdict rep) = false)
      /\ (cfg_compliance config = None -> compliant (verdict rep) = false).
Proof.
  intros config self Hnew Hdef fuel task output baseline log log' rep H Hok.
  destruct (new_inv _ _ Hnew) as (cap & _ & _ & Hrp & _ & _ & _ & Hthr & Hw & _).
  rewrite Hdef in Hw.
  destruct (evaluate_report _ _ _ _ _ _ _ _ H)
    as (t & tid & out & hr & dr & er & rr & _ & _ & _ & _ & _ & Hhr & _ & _ & Hrr
        & Han & Hv & _).
  rewrite Hrp in Hrr.
  pose proof (header_score_range _ _ _ Hhr) as Hhs.
  pose proof (compute_normalized_range _ _ Hrr) as [Hn0 _].
  pose proof (_computeRetryScore_range _ Hn0) as Hrs.
  pose proof (_computeDriftScore_range (DriftDetector.count dr)) as Hds.
  assert (Hscore : (score (verdict rep) <= 75)%Z).
  { rewrite Hv. unfold _computeVerdict. cbn [score]. rewrite Hok, Hw. rewrite Han.
    cbn [_buildAnalysis headers drift retry h_compliant h_coverage d_score r_score
           DEFAULT_WEIGHTS w_headers w_drift w_retry w_escalation].
    set (raw := Math_round _).
    assert (Hraw : (raw <= 75)%Z).
    { subst raw. apply Math_round_upper.
      assert (Hq : forall z, (0 <= z <= 100)%Z -> 0 <= inject_Z z <= 100).
      { intros z [Hz0 Hz1]. rewrite Zle_Qle in Hz0, Hz1. exact (conj Hz0 Hz1). }
      apply Hq in Hhs, Hds, Hrs.
      set (h := inject_Z (if HeaderChecker.compliant hr then _ else _)) in *.
      set (d := inject_Z (_computeDriftScore _)) in *.
      set (r := inject_Z (_computeRetryScore _)) in *.
      change (inject_Z 0) with 0. change (inject_Z 75) with 75. lra. }
    destruct (has_severity Severity.CRITICAL _); [lia|].
    destruct (has_severity Severity.HIGH _); lia. }
  assert (Hno : (75 < threshold self)%Z -> compliant (verdict rep) = false).
  { intros Hlt. destruct (compliant (verdict rep)) eqn:Hc; [|reflexivity].
    destruct (_computeVerdict_caps self t (analysis rep) hr dr) as (_ & _ & _ & _ & Hcomp).
    cbv zeta in Hcomp. rewrite <- Hv in Hcomp. destruct (Hcomp Hc) as [Hs _]. lia. }
  split; [exact Hscore|]. split; [exact Hno|].
  intros Hnone. apply Hno. rewrite Hthr, Hnone. lia.
Qed.

End WrongEscalation.

(** ** GovernanceEngine: lexicon, baseline, exceptions and options *)

Section EngineDivergence.
Import GovernanceEngine.


End EngineDivergence.

Section EmptyLexicon.
Import GovernanceEngine.

(** X19.  An empty drift lexicon on the task turns drift detection off.
    The array is taken in place of the keywords of the capsule, and with no
    keyword and no pattern nothing can drift: the report has no incident and
    no signal, the drift score is 100 and SEG_SCOPE_DRIFT is not reported,
    whatever the capsule forbids and the output says. *)
Theorem evaluate_empty_task_lexicon :
  forall (config : Config) (self : t),
    new config = Return self ->
    forall (fuel : nat) (t : Task) (output : Js.value)
           (baseline : option string) (log log' : list call) (rep : Report),
      driftLexicon t = Some [] ->
      evaluate fuel self (Some t) output baseline log = (log', Return rep) ->
      d_incidents (drift (analysis rep)) = 0%nat
      /\ d_signals (drift (analysis rep)) = []
      /\ d_score (drift (analysis rep)) = 100%Z
      /\ forall x, In x (violations (verdict rep)) -> code x <> SEG_SCOPE_DRIFT.
Proof.
  intros config self Hnew fuel t output baseline log log' rep Hlex H.
  destruct (new_inv _ _ Hnew) as (cap & _ & _ & _ & _ & Hdd & _).
  destruct (evaluate_report _ _ _ _ _ _ _ _ H)
    as (t' & tid & out & hr & dr & er & rr & [= <-] & _ & _ & _ & _ & _ & Hdr & _ & _
        & Han & Hv & _).
  destruct (detect_result _ _ _ _ _ Hdr) as [_ Hres].
  unfold drift_options in Hres. rewrite Hlex, Hdd in Hres.
  cbn in Hres. subst dr.
  rewrite Hv, Han. cbn [_buildAnalysis drift d_incidents d_signals d_score
                          DriftDetector.count DriftDetector.matches].
  split; [reflexivity|]. split; [reflexivity|]. split; [reflexivity|].
  intros x Hx. unfold _computeVerdict in Hx. cbn [violations] in Hx.
  apply (Permutation_in _ (sort_perm violation_leb _)) in Hx.
  revert Hx. unfold _collectViolations. cbn [DriftDetector.count Nat.leb].
  destruct (negb (HeaderChecker.compliant hr));
    destruct (e_ok _) as [[|]|];
    try destruct (_ && _)%bool; try destruct (_ && _)%bool;
    cbn [app In]; intros Hx;
    repeat (destruct Hx as [<-|Hx]; [discriminate|]); contradiction.
Qed.

End EmptyLexicon.

Section DeltaTheorem.
Import GovernanceEngine.

(** X20.  The deltas of a report.  Without a baseline, or with the empty
    string as baseline, [deltas] is null and each analyzer has run once.  With
    a baseline, the drift detector and the retry calculator run on the
    baseline and once more on the output; the drift reduction is
    [computeReduction] of the baseline count and the incident count of the
    analysis, the retry reduction that of the two normalized pressures, and
    the rounding that [_computeDeltas] adds changes neither. *)
Theorem evaluate_deltas :
  forall (fuel : nat) (self : t) (task : option Task) (output : Js.value)
         (baseline : option string) (log log' : list call) (rep : Report),
    evaluate fuel self task output baseline log = (log', Return rep) ->
    if baseline_provided baseline then
      exists t b base_drift base_retry,
        task = Some t /\ baseline = Some b
        /\ DriftDetector.detect fuel (driftDetector self) (VString b) (drift_options t)
           = Return base_drift
        /\ RetryPressure.compute (retryPressure self) (VString b) = Return base_retry
        /\ deltas rep
           = Some {| driftReduction :=
                       DriftDetector.computeReduction
                         (inject_Z (Z.of_nat (DriftDetector.count base_drift)))
                         (inject_Z (Z.of_nat (d_incidents (drift (analysis rep)))));
                     retryReduction :=
                       RetryPressure.computeReduction
                         (RetryPressure.normalized base_retry)
                         (r_normalized (retry (analysis rep))) |}
        /\ log' = log ++ [CallValidate; CallDetect; CallCheck; CallCompute;
                          CallDetect; CallDetect; CallCompute; CallCompute]
    else
      deltas rep = None
      /\ log' = log ++ [CallValidate; CallDetect; CallCheck; CallCompute].
Proof.
  intros fuel self task output baseline log log' rep H.
  destruct (evaluate_report _ _ _ _ _ _ _ _ H)
    as (t & tid & out & hr & dr & er & rr & -> & Hid & Htid & -> & Hout & Hhr & Hdr
        & Her & Hrr & Han & _).
  rewrite Han. cbn [_buildAnalysis drift retry d_incidents r_normalized].
  clear Han. revert H. unfold evaluate. rewrite Hid.
  destruct (String.eqb_spec tid EmptyString) as [|_]; [contradiction|].
  destruct (String.length out =? 0)%nat; [discriminate|].
  unfold bindM, invoke, ret. fold (drift_options t).
  rewrite Hhr, Hdr, Her, Hrr.
  destruct baseline as [b|]; cbn [baseline_provided].
  - destruct (String.length b =? 0)%nat; cbn [negb].
    + destruct (_computeActions _ _ _ _ _ _) as [ra an].
      intros E. injection E as <- <-. split; [reflexivity|].
      now rewrite <- !app_assoc.
    + unfold _computeDeltas, bindM, invoke, ret. rewrite Hdr, Hrr.
      destruct (DriftDetector.detect fuel (driftDetector self) (VString b) (drift_options t))
        as [bd| |] eqn:Hbd; try discriminate.
      destruct (RetryPressure.compute (retryPressure self) (VString b))
        as [br| |] eqn:Hbr; try discriminate.
      destruct (_computeActions _ _ _ _ _ _) as [ra an].
      intros E. injection E as <- <-.
      exists t, b, bd, br. split; [reflexivity|]. split; [reflexivity|].
      split; [exact Hbd|]. split; [exact Hbr|].
      cbn [deltas]. rewrite !Math_round_inject_Z.
      split; [reflexivity|]. now rewrite <- !app_assoc.
  - destruct (_computeActions _ _ _ _ _ _) as [ra an].
    intros E. injection E as <- <-. split; [reflexivity|].
    now rewrite <- !app_assoc.
Qed.

End DeltaTheorem.

Section OnlyTypeErrors.
Import GovernanceEngine.



End OnlyTypeErrors.

Section EnforceFacts.
Import GovernanceEngine.

(** X22.  The [enforce] option has no effect on evaluation.  An engine
    built with it set, unset or left out evaluates every input to the same
    outcome, report or exception, with the same analyzer calls. *)
Theorem evaluate_ignores_enforce :
  forall (config : Config) (b : option bool) (self self' : t),
    new config = Return self ->
    new (config_with_enforce config b) = Return self' ->
    forall (fuel : nat) (task : option Task) (output : Js.value)
           (baseline : option string) (log : list call),
      evaluate fuel self' task output baseline log
      = evaluate fuel self task output baseline log.
Proof.
  intros config b self self' Hnew Hnew'.
  assert (Hself : self' = with_enforce self (enforce self')).
  { revert Hnew Hnew'. unfold new, config_with_enforce.
    cbn [cfg_capsule cfg_compliance cfg_weights cfg_enforce cfg_engineVersion cfg_now
           cfg_clock].
    destruct (cfg_capsule config) as [cap|]; [|discriminate].
    destruct (match cfg_weights config with
              | Some _ => _
              | None => false
              end); [discriminate|].
    cbn. intros [= <-] [= <-]. reflexivity. }
  rewrite Hself. intros fuel task output baseline log. reflexivity.
Qed.

End EnforceFacts.

Section MetadataFacts.
Import GovernanceEngine.

(** X23.  The metadata of a report echo the configuration.  The
    timestamp is the reading of the injected clock when there is one, the
    engine version is the injected one unless it is missing or empty, when
    it is 0.1.0, and the capsule version is that of the capsule.  The
    weights are listed exactly when one of them differs from its default:
    default weights passed explicitly do not count as custom. *)
Theorem evaluate_metadata :
  forall (config : Config) (self : t),
    new config = Return self ->
    forall (fuel : nat) (task : option Task) (output : Js.value)
           (baseline : option string) (log log' : list call) (rep : Report),
      evaluate fuel self task output baseline log = (log', Return rep) ->
      let md := metadata rep in
      Some (capsuleVersion md) = option_map version (cfg_capsule config)
      /\ (forall stamp, cfg_now config = Some stamp -> evaluatedAt md = stamp)
      /\ m_engineVersion md
         = match cfg_engineVersion config with
           | Some v => if String.eqb v EmptyString then "0.1.0" else v
           | None => "0.1.0"
           end
      /\ (m_weights md = None
          <-> w_headers (weights self) == w_headers DEFAULT_WEIGHTS
              /\ w_drift (weights self) == w_drift DEFAULT_WEIGHTS
              /\ w_retry (weights self) == w_retry DEFAULT_WEIGHTS
              /\ w_escalation (weights self) == w_escalation DEFAULT_WEIGHTS)
      /\ (cfg_weights config = None \/ cfg_weights config = Some DEFAULT_WEIGHTS ->
          m_weights md = None).
Proof.
  intros config self Hnew fuel task output baseline log log' rep H.
  destruct (evaluate_report _ _ _ _ _ _ _ _ H)
    as (t & tid & out & hr & dr & er & rr & _ & _ & _ & _ & _ & _ & _ & _ & _
        & _ & _ & _ & _ & Hmd).
  cbv zeta. rewrite Hmd. clear H Hmd. unfold _buildMetadata.
  cbn [capsuleVersion evaluatedAt m_engineVersion m_weights].
  assert (Hcustom : customWeightsApplied self = false
                    <-> w_headers (weights self) == w_headers DEFAULT_WEIGHTS
                        /\ w_drift (weights self) == w_drift DEFAULT_WEIGHTS
                        /\ w_retry (weights self) == w_retry DEFAULT_WEIGHTS
                        /\ w_escalation (weights self) == w_escalation DEFAULT_WEIGHTS).
  { unfold customWeightsApplied. rewrite !orb_false_iff, !negb_false_iff, !Qeq_bool_iff.
    tauto. }
  revert Hnew. unfold new.
  destruct (cfg_capsule config) as [cap|]; [|discriminate].
  destruct (match cfg_weights config with Some _ => _ | None => false end); [discriminate|].
  cbn [HeaderChecker.new HeaderChecker.opt_required DriftDetector.new
         DriftDetector.opt_keywords bind].
  intros [= <-]. cbn [capsule now engineVersion weights option_map] in *.
  split; [reflexivity|]. split.
  { intros stamp Hs. now rewrite Hs. }
  split; [reflexivity|].
  split.
  - rewrite <- Hcustom. unfold customWeightsApplied. cbn [weights].
    destruct (_ || _)%bool; split; congruence.
  - intros [Hw|Hw]; rewrite Hw; reflexivity.
Qed.

End MetadataFacts.

Section ConstructorFacts.
Import GovernanceEngine.


End ConstructorFacts.

(** ** Worked instances of the further properties *)

Section FurtherExamples.
Import GovernanceEngine.


Lemma check_triggers_survive_context_witness :
  exists r r',
    EscalationDetector.check (EscalationDetector.new (EscalationDetector.mkOptions VUndefined None None))
      (VString "need approval") = Return r
    /\ EscalationDetector.check
         (EscalationDetector.new (EscalationDetector.mkOptions VUndefined None None))
         (VString ("We do not " ++ "need approval" ++ " here.")) = Return r'
    /\ EscalationDetector.escalated r' = true.
Proof.
  destruct (check_triggers_survive_context
              (EscalationDetector.new (EscalationDetector.mkOptions VUndefined None None))
              "We do not " "need approval" " here.")
    as (r & r' & Hr & Hr' & _ & Hesc & _).
  exists r, r'. split; [exact Hr|]. split; [exact Hr'|].
  apply Hesc. cbn in Hr. injection Hr as <-. reflexivity.
Defined.

Lemma checkBatch_results_witness :
  (exists br,
      EscalationDetector.checkBatch
        (EscalationDetector.new (EscalationDetector.mkOptions VUndefined (Some ["veto"]) None))
        [EscalationDetector.mkBatchItem (VString "FOP: stop") (VBool true);
         EscalationDetector.mkBatchItem (VString "veto") (VBool false)] = Return br
      /\ (0 <= EscalationDetector.precision br <= 100)%Z
      /\ (0 <= EscalationDetector.recall br <= 100)%Z)
  /\ EscalationDetector.checkBatch
       (EscalationDetector.new (EscalationDetector.mkOptions VUndefined None None))
       [EscalationDetector.mkBatchItem (VString "FOP: stop") (VBool true);
        EscalationDetector.mkBatchItem VNull (VBool false)]
     = Throw output_must_be_string.
Proof.
  split.
  - destruct (proj1 (checkBatch_results
                       (EscalationDetector.new
                          (EscalationDetector.mkOptions VUndefined (Some ["veto"]) None))
                       [EscalationDetector.mkBatchItem (VString "FOP: stop") (VBool true);
                        EscalationDetector.mkBatchItem (VString "veto") (VBool false)]))
      as (br & Hbr & _ & Hp & Hr & _).
    + repeat constructor; eexists; reflexivity.
    + exists br. split; [exact Hbr|]. split; [exact Hp|exact Hr].
  - apply (proj2 (checkBatch_results _ _)
             [EscalationDetector.mkBatchItem (VString "FOP: stop") (VBool true)]
             (EscalationDetector.mkBatchItem VNull (VBool false)) []).
    + reflexivity.
    + repeat constructor. eexists. reflexivity.
    + intros [s Hs]. discriminate Hs.
Defined.

Lemma detect_matches_distinct_witness :
  exists r,
    DriftDetector.detect 40 (DriftDetector.mkDetector ["deploy"; "install"] false [])
      (VString "Deploy, then deploy again") DriftDetector.no_options = Return r
    /\ NoDup (DriftDetector.matches r)
    /\ (List.length (DriftDetector.matches r) <= DriftDetector.count r)%nat.
Proof.
  eexists. split; [vm_compute; reflexivity|].
  destruct (detect_matches_distinct
              (DriftDetector.mkDetector ["deploy"; "install"] false [])
              "Deploy, then deploy again" DriftDetector.no_options 40 _
              ltac:(vm_compute; reflexivity))
    as (Hnd & _ & Hlen & _).
  split; [exact Hnd|exact Hlen].
Defined.


Lemma compute_signals_by_first_occurrence_witness :
  exists r,
    RetryPressure.compute RetryPressure.new (VString "TODO: maybe later, todo") = Return r
    /\ includes "TODO: maybe later, todo" "maybe" = true.
Proof.
  destruct (compute_signals_by_first_occurrence "TODO: maybe later, todo")
    as (r & Hr & _ & Hin & _).
  exists r. split; [exact Hr|]. apply Hin.
  vm_compute in Hr. injection Hr as <-. right. left. reflexivity.
Defined.

Lemma evaluate_violation_caps_witness :
  exists log' rep,
    evaluate 60 example_engine (Some example_task)
      (VString "Plan: migrate the database now.") None [] = (log', Return rep)
    /\ (score (verdict rep) <= 49)%Z
    /\ compliant (verdict rep) = false
    /\ recommendedActions rep = [block_action].
Proof.
  eexists. eexists. split; [vm_compute; reflexivity|].
  refine (proj1 (evaluate_violation_caps 60 example_engine (Some example_task)
                   (VString "Plan: migrate the database now.") None [] _ _ _) _).
  - vm_compute. reflexivity.
  - eexists. split; [left; reflexivity|reflexivity].
Defined.

Lemma evaluate_blocks_iff_witness :
  exists log' rep,
    evaluate 60 example_engine (Some example_task)
      (VString "Plan: migrate the database now.") None [] = (log', Return rep)
    /\ exists a, In a (recommendedActions rep) /\ type a = ActionType.BLOCK.
Proof.
  eexists. eexists. split; [vm_compute; reflexivity|].
  destruct (evaluate_blocks_iff 60 example_engine (Some example_task)
              (VString "Plan: migrate the database now.") None [] _ _
              ltac:(vm_compute; reflexivity))
    as (t & out & Ht & Hout & _ & Hblock & _).
  injection Ht as <-. injection Hout as <-.
  apply Hblock. split; [reflexivity|].
  intros trigger Hin. cbn in Hin.
  repeat (destruct Hin as [<-|Hin]; [reflexivity|]). contradiction.
Defined.

Lemma evaluate_single_action_witness :
  exists log' rep a,
    evaluate 60 example_engine (Some example_task)
      (VString "Plan: FOP. I request approval and ask permission.") None []
    = (log', Return rep)
    /\ recommendedActions rep = [a]
    /\ priority a = priority_of (type a).
Proof.
  destruct (evaluate_single_action 60 example_engine (Some example_task)
              (VString "Plan: FOP. I request approval and ask permission.") None [] _ _
              ltac:(vm_compute; reflexivity))
    as (a & Ha & Hp & _).
  eexists. eexists. exists a. split; [vm_compute; reflexivity|]. split; [exact Ha|exact Hp].
Defined.

Lemma evaluate_violations_ordered_witness :
  exists log' rep,
    evaluate 60 example_engine (Some example_task)
      (VString "We deploy now and deploy again.") None [] = (log', Return rep)
    /\ map code (violations (verdict rep))
       = [FOP_ESCALATION_MISSED; HEADER_SCHEMA_MISSING; SEG_SCOPE_DRIFT]
    /\ StronglySorted violation_before (violations (verdict rep)).
Proof.
  eexists. eexists. split; [vm_compute; reflexivity|]. split; [reflexivity|].
  refine (proj1 (evaluate_violations_ordered 60 example_engine (Some example_task)
                   (VString "We deploy now and deploy again.") None [] _ _ _)).
  vm_compute. reflexivity.
Defined.

Lemma evaluate_violations_from_analysis_witness :
  exists log' rep,
    evaluate 60 example_engine (Some example_task)
      (VString "We deploy now and deploy again.") None [] = (log', Return rep)
    /\ exists x, In x (violations (verdict rep))
                 /\ code x = SEG_SCOPE_DRIFT
                 /\ evidence x = d_signals (drift (analysis rep)).
Proof.
  eexists. eexists. split; [vm_compute; reflexivity|].
  destruct (evaluate_violations_from_analysis 60 example_engine (Some example_task)
              (VString "We deploy now and deploy again.") None [] _ _
              ltac:(vm_compute; reflexivity))
    as (_ & Hdrift & _).
  apply Hdrift. cbn. lia.
Defined.

Lemma evaluate_score_range_witness :
  GovernanceEngine.new example_config = Return example_engine
  /\ exists log' rep,
       evaluate 60 example_engine (Some example_task)
         (VString "Plan: FOP. I request approval and ask permission.") None []
       = (log', Return rep)
       /\ (0 <= score (verdict rep) <= 100)%Z.
Proof.
  split; [reflexivity|]. eexists. eexists. split; [vm_compute; reflexivity|].
  refine (proj1 (evaluate_score_range example_config example_engine eq_refl _
                   60 (Some example_task)
                   (VString "Plan: FOP. I request approval and ask permission.")
                   None [] _ _ _)).
  - repeat split; apply Qle_bool_iff; reflexivity.
  - vm_compute. reflexivity.
Defined.


Lemma evaluate_without_required_headers_witness :
  GovernanceEngine.new bare_config = Return bare_engine
  /\ exists log' rep,
       evaluate 60 bare_engine (Some (low_task None)) (VString "All done.") None []
       = (log', Return rep)
       /\ (score (verdict rep) <= 79)%Z
       /\ compliant (verdict rep) = false.
Proof.
  split; [reflexivity|]. eexists. eexists. split; [vm_compute; reflexivity|].
  destruct (evaluate_without_required_headers bare_config bare_capsule bare_engine
              eq_refl eq_refl I 60 (Some (low_task None)) (VString "All done.") None [] _ _
              ltac:(vm_compute; reflexivity))
    as (_ & _ & _ & Hscore & _ & Hno).
  split; [exact Hscore|exact (Hno eq_refl)].
Defined.

Lemma evaluate_wrong_escalation_default_weights_witness :
  exists log' rep,
    evaluate 60 example_engine (Some (low_task None))
      (VString "Plan: done. Gates: none. I request approval anyway.") None []
    = (log', Return rep)
    /\ e_ok (escalation (analysis rep)) = Some false
    /\ (score (verdict rep) <= 75)%Z
    /\ compliant (verdict rep) = false.
Proof.
  eexists. eexists. split; [vm_compute; reflexivity|]. split; [reflexivity|].
  destruct (evaluate_wrong_escalation_default_weights example_config example_engine
              eq_refl eq_refl 60 (Some (low_task None))
              (VString "Plan: done. Gates: none. I request approval anyway.") None [] _ _
              ltac:(vm_compute; reflexivity) eq_refl)
    as (Hscore & _ & Hno).
  split; [exact Hscore|exact (Hno eq_refl)].
Defined.


Lemma evaluate_empty_task_lexicon_witness :
  exists log' rep,
    evaluate 60 example_engine (Some (low_task (Some [])))
      (VString "Plan: deploy, deploy and deploy.") None [] = (log', Return rep)
    /\ d_incidents (drift (analysis rep)) = 0%nat
    /\ d_score (drift (analysis rep)) = 100%Z.
Proof.
  eexists. eexists. split; [vm_compute; reflexivity|].
  destruct (evaluate_empty_task_lexicon example_config example_engine eq_refl 60
              (low_task (Some [])) (VString "Plan: deploy, deploy and deploy.") None [] _ _
              eq_refl ltac:(vm_compute; reflexivity))
    as (Hinc & _ & Hscore & _).
  split; [exact Hinc|exact Hscore].
Defined.

Lemma evaluate_deltas_witness :
  exists log' rep,
    evaluate 60 example_engine (Some (low_task None))
      (VString "Plan: done. Gates: none.") (Some "I deploy now, maybe.") []
    = (log', Return rep)
    /\ deltas rep = Some {| driftReduction := 100; retryReduction := 100 |}
    /\ log' = [CallValidate; CallDetect; CallCheck; CallCompute;
               CallDetect; CallDetect; CallCompute; CallCompute].
Proof.
  eexists. eexists. split; [vm_compute; reflexivity|]. split; [reflexivity|].
  pose proof (evaluate_deltas 60 example_engine (Some (low_task None))
                (VString "Plan: done. Gates: none.") (Some "I deploy now, maybe.") [] _ _
                ltac:(vm_compute; reflexivity)) as Hd.
  cbn [baseline_provided String.length Nat.eqb negb] in Hd.
  destruct Hd as (t & b & bd & br & _ & _ & _ & _ & _ & Hlog). exact Hlog.
Defined.


Lemma evaluate_ignores_enforce_witness :
  evaluate 60 (with_enforce example_engine true) (Some example_task)
    (VString "Plan: FOP. I request approval and ask permission.") None []
  = evaluate 60 example_engine (Some example_task)
      (VString "Plan: FOP. I request approval and ask permission.") None [].
Proof.
  apply (evaluate_ignores_enforce example_config (Some true) example_engine
           (with_enforce example_engine true) eq_refl eq_refl).
Defined.

Lemma evaluate_metadata_witness :
  GovernanceEngine.new example_config = Return example_engine
  /\ exists log' rep,
       evaluate 60 example_engine (Some (low_task None)) (VString "Plan: done.") None []
       = (log', Return rep)
       /\ evaluatedAt (metadata rep) = "2026-01-01T00:00:00.000Z"
       /\ m_weights (metadata rep) = None.
Proof.
  split; [reflexivity|]. eexists. eexists. split; [vm_compute; reflexivity|].
  destruct (evaluate_metadata example_config example_engine eq_refl 60
              (Some (low_task None)) (VString "Plan: done.") None [] _ _
              ltac:(vm_compute; reflexivity))
    as (_ & Hnow & _ & _ & Hw).
  split; [exact (Hnow _ eq_refl)|apply Hw; now left].
Defined.


End FurtherExamples.
